(** * Binary-coded-decimal integers of [src/c/include/bcd.h]

    A shallow embedding of the arbitrary-precision BCD integer library and
    the verification of its specification's claims.

    Modelling conventions.
    - A [packed_BCD_pair] (uint8_t) is a [Z] in [0, 256); every assignment
      to such a variable is reduced with [u8].
    - [size_t] and [uintmax_t] quantities are [Z]; both are taken to be
      64 bits wide.  Where the source computes with amounts the caller
      chooses (the native integers of the constructors and conversions,
      the shift amounts, digit counts and offsets of [mul_bcd_pow_10] and
      the shift counters of [mul_bcd]) the wrap-around is written out with
      [umax]; byte counts and indexes bounded by the size of a live buffer
      are left as they are.
    - A digit buffer is [option (list Z)]: [None] is the NULL pointer and
      [Some l] a live allocation of [length l] bytes.  Every indexed access
      is checked: outside the allocation the function stops with a
      [Fault], which records whether the access was a read or a write, its
      index and the size of the allocation.  Allocation itself never fails
      in the model (the NO_MEM paths of the source are not reachable).
    - [ceil(log10(a + 1))] of [new_BCD_int2] is computed as the C library
      does, on IEEE-754 doubles ([ceil_log10]); it is the exact digit
      count for [a] below [10 ^ 15] only.
    - The portable C branch of the decimal-adjust step is the one modelled
      (the inline-assembly branch is selected by macros of the absent
      macros.h and only exists on 32-bit x86).
    - Unbounded [while] loops take a [fuel] argument and stop with
      [OutOfFuel] when it is exhausted. *)

From Stdlib Require Import String Ascii ZArith List Bool Lia.
Import ListNotations.
Local Open Scope Z_scope.

(** ** Types *)

Inductive comp_t : Type :=
| EQUAL_TO
| GREATER_THAN
| LESS_THAN
| NO_COMP.

Inductive BCD_error : Type :=
| NON_ERR | ORIG_NAN | IS_FREED | ADD_NAN | SUB_NAN | MUL_NAN | DIV_NAN
| POW_NAN | FACT_NAN | SHIFT_NAN | POW_NEG | FACT_NEG | DIV_ZERO | NO_MEM
| NOT_SUPP | RESERVED.

Definition BCD_error_eqb (a b : BCD_error) : bool :=
  match a, b with
  | NON_ERR, NON_ERR | ORIG_NAN, ORIG_NAN | IS_FREED, IS_FREED
  | ADD_NAN, ADD_NAN | SUB_NAN, SUB_NAN | MUL_NAN, MUL_NAN
  | DIV_NAN, DIV_NAN | POW_NAN, POW_NAN | FACT_NAN, FACT_NAN
  | SHIFT_NAN, SHIFT_NAN | POW_NEG, POW_NEG | FACT_NEG, FACT_NEG
  | DIV_ZERO, DIV_ZERO | NO_MEM, NO_MEM | NOT_SUPP, NOT_SUPP
  | RESERVED, RESERVED => true
  | _, _ => false
  end.

(** The integer value of a [comp_t] enumerator, as seen by
    [signed char cmp = cmp_bcd(x, y)] in [sub_bcd]. *)
Definition comp_code (c : comp_t) : Z :=
  match c with
  | EQUAL_TO => 0
  | GREATER_THAN => 1
  | LESS_THAN => 2
  | NO_COMP => 3
  end.

Definition buffer : Type := option (list Z).

Record BCD_int : Type := mkBCD {
  data : buffer;
  bcd_digits : Z;
  decimal_digits : Z;
  negative : bool;
  zero : bool;
  even : bool;
  constant : bool;
  nan : bool;
  error : BCD_error;
  orig_error : BCD_error
}.

(** ** Faults and the outcome monad *)

(** The kind of a memory access.  A compound assignment [p[i] |= v]
    updates its byte in place and counts as a write. *)
Inductive access : Type :=
| Read
| Write.

Inductive fault : Type :=
| NullDeref
| OutOfBounds (kind : access) (idx size : Z)
| OutOfFuel.

Inductive outcome (A : Type) : Type :=
| Ok (a : A)
| Fault (f : fault).

Arguments Ok {A} a.
Arguments Fault {A} f.

Definition bind {A B : Type} (m : outcome A) (k : A -> outcome B) : outcome B :=
  match m with
  | Ok a => k a
  | Fault f => Fault f
  end.

Notation "x <- m ;; k" := (bind m (fun x => k))
  (at level 61, m at next level, right associativity).
Notation "' pat <- m ;; k" := (bind m (fun x => match x with pat => k end))
  (at level 61, pat pattern, m at next level, right associativity).

(** ** Machine arithmetic *)

Definition u8 (z : Z) : Z := z mod 256.
Definition u16 (z : Z) : Z := z mod 65536.
Definition UINTMAX_MAX : Z := 2 ^ 64 - 1.
Definition INTMAX_MAX : Z := 2 ^ 63 - 1.
Definition INTMAX_MIN : Z := - 2 ^ 63.
Definition umax (z : Z) : Z := z mod 2 ^ 64.

Definition nonzero (z : Z) : bool := negb (z =? 0).

(** ** Checked memory *)

Definition malloc (n : Z) : buffer := Some (repeat 0 (Z.to_nat n)).

Definition in_range (i len : Z) : bool := (0 <=? i) && (i <? len).

Definition load (p : buffer) (i : Z) : outcome Z :=
  match p with
  | None => Fault NullDeref
  | Some l =>
      if in_range i (Z.of_nat (length l))
      then Ok (nth (Z.to_nat i) l 0)
      else Fault (OutOfBounds Read i (Z.of_nat (length l)))
  end.

Fixpoint list_set (l : list Z) (i : nat) (v : Z) : list Z :=
  match l, i with
  | [], _ => []
  | _ :: t, O => v :: t
  | h :: t, S i' => h :: list_set t i' v
  end.

Definition store (p : buffer) (i v : Z) : outcome buffer :=
  match p with
  | None => Fault NullDeref
  | Some l =>
      if in_range i (Z.of_nat (length l))
      then Ok (Some (list_set l (Z.to_nat i) v))
      else Fault (OutOfBounds Write i (Z.of_nat (length l)))
  end.

(** [p[i] |= v] on a byte buffer: one access, which writes the byte at
    [i] with its old content or-ed with [v]. *)
Definition or_store (p : buffer) (i v : Z) : outcome buffer :=
  match p with
  | None => Fault NullDeref
  | Some l =>
      if in_range i (Z.of_nat (length l))
      then Ok (Some (list_set l (Z.to_nat i)
                       (u8 (Z.lor (nth (Z.to_nat i) l 0) v))))
      else Fault (OutOfBounds Write i (Z.of_nat (length l)))
  end.

(** [memcpy(dst + doff, src + soff, n)]. *)
Definition memcpy (dst : buffer) (doff : Z) (src : buffer) (soff n : Z)
  : outcome buffer :=
  match dst, src with
  | None, _ | _, None => Fault NullDeref
  | Some d, Some s =>
      if negb ((0 <=? soff) && (soff + n <=? Z.of_nat (length s)))
      then Fault (OutOfBounds Read (soff + n - 1) (Z.of_nat (length s)))
      else if negb ((0 <=? doff) && (doff + n <=? Z.of_nat (length d)))
      then Fault (OutOfBounds Write (doff + n - 1) (Z.of_nat (length d)))
      else Ok (Some (firstn (Z.to_nat doff) d
                     ++ firstn (Z.to_nat n) (skipn (Z.to_nat soff) s)
                     ++ skipn (Z.to_nat (doff + n)) d))
  end.

(** [for (i = i0; i < i0 + n; i++) s = body(i, s);] *)
Fixpoint for_up {S : Type} (n : nat) (i : Z) (body : Z -> S -> outcome S) (s : S)
  : outcome S :=
  match n with
  | O => Ok s
  | Datatypes.S n' => s' <- body i s ;; for_up n' (i + 1) body s'
  end.

(** ** Constants, error values and release *)

Definition BCD_one : BCD_int :=
  mkBCD (Some [1]) 1 1 false false false true false NON_ERR NON_ERR.

Definition BCD_zero : BCD_int :=
  mkBCD None 0 0 false true true true false NON_ERR NON_ERR.

Definition BCD_nan : BCD_int :=
  mkBCD None 0 0 false false false true true ORIG_NAN ORIG_NAN.

Definition bcd_error (error orig_error : BCD_error) : BCD_int :=
  mkBCD None 0 0 false false false false true error orig_error.

(** [free_BCD_int(&x)]: the content of [*x] afterwards. *)
Definition free_BCD_int (x : BCD_int) : BCD_int :=
  if negb (BCD_error_eqb (error x) IS_FREED) && negb (constant x)
  then mkBCD None 0 0 false false false false true IS_FREED IS_FREED
  else x.

Definition set_negative (x : BCD_int) (b : bool) : BCD_int :=
  mkBCD (data x) (bcd_digits x) (decimal_digits x) b (zero x) (even x)
        (constant x) (nan x) (error x) (orig_error x).

Definition set_constant (x : BCD_int) (b : bool) : BCD_int :=
  mkBCD (data x) (bcd_digits x) (decimal_digits x) (negative x) (zero x)
        (even x) b (nan x) (error x) (orig_error x).

Definition set_data (x : BCD_int) (d : buffer) : BCD_int :=
  mkBCD d (bcd_digits x) (decimal_digits x) (negative x) (zero x)
        (even x) (constant x) (nan x) (error x) (orig_error x).

(** ** Constructors *)

(** The number of decimal digits of [a] (twenty digits cover 64 bits). *)
Fixpoint count_digits (fuel : nat) (a : Z) : Z :=
  match fuel with
  | O => 0
  | S f => if a <=? 0 then 0 else 1 + count_digits f (a / 10)
  end.

(** The conversion of a native unsigned integer to [double]: exact below
    [2 ^ 53], and above it rounded to 53 significant bits, to the nearest
    value and to the even one on a tie.  The result is the integer the
    double holds. *)
Definition to_double (n : Z) : Z :=
  if n <? 2 ^ 53 then n
  else
    let e := Z.log2 n - 52 in
    let q := Z.shiftr n e in
    let r := n mod 2 ^ e in
    let half := 2 ^ (e - 1) in
    let q := if (half <? r) || ((r =? half) && Z.odd q) then q + 1 else q in
    q * 2 ^ e.

(** How far above [10 ^ k] a double can lie while its double-precision
    [log10] is still the double [k]: from 15 digits on, the logarithm of
    an argument this close to the power of ten rounds to the integer (the
    values are those of the GNU C library on IEEE-754 doubles). *)
Definition log10_slack (k : Z) : Z :=
  if k =? 15 then 2
  else if k =? 16 then 40
  else if k =? 17 then 400
  else if k =? 18 then 4096
  else if k =? 19 then 38912
  else 0.

(** [ceil(log10(n))] as the libm branch of the source computes it, in
    double precision: [n] is converted to a double [d], and the ceiling of
    the rounded logarithm is [k] when [d] lies between [10 ^ (k - 1)],
    excluded, and [10 ^ k + log10_slack k], included.  Up to [10 ^ 15] this
    is the exact digit count of [n - 1]; at [10 ^ 15 + 1] the result is 15,
    where the exact ceiling is 16.  For [n = 0], where the C conversion of
    the infinite result is undefined, the model gives 0. *)
Definition ceil_log10 (n : Z) : Z :=
  let d := to_double n in
  let k := count_digits 20 d - 1 in
  if d <=? 0 then 0
  else if d <=? 10 ^ k + log10_slack k then k
  else k + 1.

Fixpoint pack_pairs (n : nat) (a : Z) : list Z :=
  match n with
  | O => []
  | S n' =>
      Z.lor (Z.shiftl ((a mod 100) / 10) 4) (a mod 10) :: pack_pairs n' (a / 100)
  end.

Definition new_BCD_int2 (a : Z) (neg : bool) : BCD_int :=
  let dd := ceil_log10 (umax (a + 1)) in
  let bd := (dd + 1) / 2 in
  mkBCD (Some (pack_pairs (Z.to_nat bd) a)) bd dd neg (a =? 0) (a mod 2 =? 0)
        false false NON_ERR NON_ERR.

Definition new_BCD_int1 (a : Z) : BCD_int :=
  if a <? 0 then new_BCD_int2 (umax (- a)) true else new_BCD_int2 (umax a) false.

Definition copy_BCD_int (a : BCD_int) : outcome BCD_int :=
  match data a with
  | Some _ =>
      d <- memcpy (malloc (bcd_digits a)) 0 (data a) 0 (bcd_digits a) ;;
      Ok (set_constant (set_data a d) false)
  | None => Ok (set_constant a false)
  end.

(** The scan [for (i = n - 1; i != -1; i--) if (d[i]) break;]: the index of
    the highest nonzero byte below [n], if any. *)
Fixpoint top_nonzero (n : nat) (d : buffer) : outcome (option Z) :=
  match n with
  | O => Ok None
  | S n' =>
      b <- load d (Z.of_nat n') ;;
      if nonzero b then Ok (Some (Z.of_nat n')) else top_nonzero n' d
  end.

Definition BCD_from_bytes (str : buffer) (chars : Z) (neg little_endian : bool)
  : outcome BCD_int :=
  match str with
  | None => Ok BCD_zero
  | Some _ =>
      if chars =? 0 then Ok BCD_zero else
      d <- (if little_endian
            then memcpy (malloc chars) 0 str 0 chars
            else for_up (Z.to_nat chars) 0
                   (fun i d => b <- load str (chars - 1 - i) ;; store d i b)
                   (malloc chars)) ;;
      top <- top_nonzero (Z.to_nat chars) d ;;
      match top with
      | Some i =>
          top_byte <- load d i ;;
          let dd := if nonzero (Z.land top_byte 240) then i * 2 + 1 else i * 2 in
          b0 <- load d 0 ;;
          Ok (mkBCD d (i + 1) dd neg false (b0 mod 2 =? 0) false false
                    NON_ERR NON_ERR)
      | None => Ok BCD_zero
      end
  end.

Definition char_code (c : ascii) : Z := Z.of_N (N_of_ascii c).

Definition char_at (s : string) (j : Z) : outcome Z :=
  if in_range j (Z.of_nat (String.length s))
  then match String.get (Z.to_nat j) s with
       | Some c => Ok (char_code c)
       | None => Fault (OutOfBounds Read j (Z.of_nat (String.length s)))
       end
  else Fault (OutOfBounds Read j (Z.of_nat (String.length s))).

Definition BCD_from_ascii (str : string) (digits : Z) (neg : bool)
  : outcome BCD_int :=
  let len := (digits + 1) / 2 in
  let i0 := digits mod 2 in
  bytes <- (if nonzero i0
            then c <- char_at str 0 ;; store (malloc len) 0 (u8 (c - 48))
            else Ok (malloc len)) ;;
  '(bytes, _) <- for_up (Z.to_nat (len - i0)) i0
             (fun i '(bytes, j) =>
                hi <- char_at str j ;;
                lo <- char_at str (j + 1) ;;
                bytes <- store bytes i
                  (u8 (Z.lor (Z.shiftl (hi - 48) 4) (Z.land (lo - 48) 15))) ;;
                Ok (bytes, j + 2))
             (bytes, i0) ;;
  BCD_from_bytes bytes len neg false.

(** ** Comparison, truth tests and sign manipulation *)

Fixpoint cmp_scan (n : nat) (x y : BCD_int) : outcome comp_t :=
  match n with
  | O => Ok EQUAL_TO
  | S n' =>
      a <- load (data x) (Z.of_nat n') ;;
      b <- load (data y) (Z.of_nat n') ;;
      if negb (a =? b) then
        if negative x
        then Ok (if a >? b then LESS_THAN else GREATER_THAN)
        else Ok (if a >? b then GREATER_THAN else LESS_THAN)
      else cmp_scan n' x y
  end.

Definition cmp_bcd (x y : BCD_int) : outcome comp_t :=
  if nan x || nan y then Ok NO_COMP
  else if negb (Bool.eqb (negative x) (negative y))
  then Ok (if negative x then LESS_THAN else GREATER_THAN)
  else if negb (decimal_digits x =? decimal_digits y) then
    if decimal_digits x >? decimal_digits y
    then Ok (if negative x then LESS_THAN else GREATER_THAN)
    else Ok (if negative x then GREATER_THAN else LESS_THAN)
  else cmp_scan (Z.to_nat (bcd_digits x)) x y.

Definition bool_bcd (x : BCD_int) : bool := zero x.

Definition not_bcd (x : BCD_int) : bool := negb (zero x).

Definition sign_bcd (x : BCD_int) (no_copy neg : bool) : outcome BCD_int :=
  let x := if negb (nan x) then set_negative x neg else x in
  if no_copy then Ok x else copy_BCD_int x.

Definition abs_bcd (x : BCD_int) (no_copy : bool) : outcome BCD_int :=
  sign_bcd x no_copy false.

Definition neg_bcd (x : BCD_int) (no_copy : bool) : outcome BCD_int :=
  sign_bcd x no_copy true.

Definition opp_bcd (x : BCD_int) (no_copy : bool) : outcome BCD_int :=
  sign_bcd x no_copy (negb (negative x)).

(** ** The additive engine *)

(** One step of the first loop of [add_bcd]: the bytes [a] and [b] and the
    incoming carry give the result byte and the outgoing carry. *)
Definition add_pair (a b : Z) (overflow : bool) : Z * bool :=
  if negb (overflow || nonzero a) then (b, false)
  else if negb (overflow || nonzero b) then (a, false)
  else
    let b := u8 (b + Z.b2z overflow) in
    let c := u8 (a + b) in
    let overflow := a >? 153 - b in
    let c := if overflow then u8 (c + 96) else c in
    let c := if (Z.land a 15 + Z.land b 15) >? 9 then u8 (c + 6) else c in
    (c, overflow).

(** The second loop of [add_bcd]:
    [for (; overflow && i < max_digits; i++)], with [n = max_digits - i]. *)
Fixpoint add_carry (n : nat) (i : Z) (xd : buffer) (overflow : bool) (z : buffer)
  : outcome (Z * bool * buffer) :=
  match n with
  | O => Ok (i, overflow, z)
  | S n' =>
      if overflow then
        b <- load xd i ;;
        let a := u8 (b + Z.b2z overflow) in
        let a := if Z.land a 15 =? 10 then u8 (a + 6) else a in
        let overflow := Z.land a 240 =? 160 in
        let a := if overflow then u8 (a + 96) else a in
        z <- store z i a ;;
        add_carry n' (i + 1) xd overflow z
      else Ok (i, overflow, z)
  end.

(** Lines 1168-1248 of [add_bcd]: both operands are finite, nonzero and of
    the same sign. *)
Definition add_magnitudes (x y : BCD_int) : outcome BCD_int :=
  let min_digits := Z.min (bcd_digits x) (bcd_digits y) in
  let max_digits := Z.max (bcd_digits x) (bcd_digits y) in
  '(z, overflow) <- for_up (Z.to_nat min_digits) 0
      (fun i '(z, overflow) =>
         a <- load (data x) i ;;
         b <- load (data y) i ;;
         let '(c, overflow) := add_pair a b overflow in
         z <- store z i c ;;
         Ok (z, overflow))
      (malloc (max_digits + 1), false) ;;
  let longer := if bcd_digits x <? bcd_digits y then y else x in
  '(i, overflow, z) <-
      add_carry (Z.to_nat (max_digits - min_digits)) min_digits (data longer)
                overflow z ;;
  z <- (if i <? max_digits
        then memcpy z i (data longer) i (max_digits - i)
        else Ok z) ;;
  z <- store z max_digits (Z.b2z overflow) ;;
  dd <- (if overflow then Ok (max_digits * 2 + 1)
         else top <- load z (max_digits - 1) ;;
              Ok (if nonzero (Z.land top 240)
                  then max_digits * 2 else max_digits * 2 - 1)) ;;
  b0 <- load z 0 ;;
  Ok (mkBCD z (max_digits + Z.b2z overflow) dd (negative x) false
            (b0 mod 2 =? 0) false false NON_ERR NON_ERR).

(** One step of the first loop of [sub_bcd]. *)
Definition sub_pair (a b : Z) (carry : bool) : Z * bool :=
  let b := u8 (b + Z.b2z carry) in
  let c := u8 (a - b) in
  let carry := Z.land c 240 >? 153 in
  let c := if carry then u8 (c - 96) else c in
  let c := if Z.land c 15 >? 9 then u8 (c - 6) else c in
  (c, carry).

(** The second loop of [sub_bcd]:
    [for (; carry && i < max_digits; i++)], with [n = max_digits - i]. *)
Fixpoint sub_carry (n : nat) (i : Z) (xd : buffer) (carry : bool) (z : buffer)
  : outcome (Z * bool * buffer) :=
  match n with
  | O => Ok (i, carry, z)
  | S n' =>
      if carry then
        b <- load xd i ;;
        let a := u8 (b - Z.b2z carry) in
        let a := if Z.land a 15 =? 15 then u8 (a - 6) else a in
        let carry := Z.land a 240 =? 240 in
        let a := if carry then u8 (a - 96) else a in
        z <- store z i a ;;
        sub_carry n' (i + 1) xd carry z
      else Ok (i, carry, z)
  end.

(** Lines 1268-1347 of [sub_bcd]: both operands are finite, nonzero and of
    the same sign.  The final scan [while (--i != -1)] starts below the
    value [i] has after the copy, as in the source. *)
Definition sub_magnitudes (x y : BCD_int) : outcome BCD_int :=
  cmp <- cmp_bcd x y ;;
  if comp_code cmp =? 0 then Ok BCD_zero else
  let min_digits := Z.min (bcd_digits x) (bcd_digits y) in
  let max_digits := Z.max (bcd_digits x) (bcd_digits y) in
  let neg := comp_code cmp =? -1 in
  '(z, carry) <- for_up (Z.to_nat min_digits) 0
      (fun i '(z, carry) =>
         a <- load (data x) i ;;
         b <- load (data y) i ;;
         let '(c, carry) := sub_pair a b carry in
         z <- store z i c ;;
         Ok (z, carry))
      (malloc max_digits, false) ;;
  let longer := if bcd_digits x <? bcd_digits y then y else x in
  '(i, carry, z) <-
      sub_carry (Z.to_nat (max_digits - min_digits)) min_digits (data longer)
                carry z ;;
  z <- (if i <? max_digits
        then memcpy z i (data longer) i (max_digits - i)
        else Ok z) ;;
  top <- top_nonzero (Z.to_nat i) z ;;
  match top with
  | Some k =>
      top_byte <- load z k ;;
      let dd := if nonzero (Z.land top_byte 240)
                then 2 * (k + 1) else 2 * (k + 1) - 1 in
      b0 <- load z 0 ;;
      Ok (mkBCD z (k + 1) dd neg false (b0 mod 2 =? 0) false false
                NON_ERR NON_ERR)
  | None => Ok BCD_zero
  end.

(** [add_bcd] and [sub_bcd] call each other when the signs differ; [depth]
    bounds the nesting of these calls (two levels are all the source can
    reach, see [add_bcd_depth_enough]). *)
Fixpoint add_bcd_depth (depth : nat) (x y : BCD_int) : outcome BCD_int :=
  match depth with
  | O => Fault OutOfFuel
  | S d =>
      if nan x || nan y
      then Ok (bcd_error ADD_NAN (if nan x then orig_error x else orig_error y))
      else if zero x && zero y then Ok BCD_zero
      else if zero x then copy_BCD_int y
      else if zero y then copy_BCD_int x
      else if negb (Bool.eqb (negative x) (negative y))
      then y' <- opp_bcd y true ;; sub_bcd_depth d x y'
      else add_magnitudes x y
  end
with sub_bcd_depth (depth : nat) (x y : BCD_int) : outcome BCD_int :=
  match depth with
  | O => Fault OutOfFuel
  | S d =>
      if nan x || nan y
      then Ok (bcd_error SUB_NAN (if nan x then orig_error x else orig_error y))
      else if zero x && zero y then Ok BCD_zero
      else if zero x then opp_bcd y false
      else if zero y then copy_BCD_int x
      else if negb (Bool.eqb (negative x) (negative y))
      then y' <- opp_bcd y true ;; add_bcd_depth d x y'
      else sub_magnitudes x y
  end.

Definition add_bcd (x y : BCD_int) : outcome BCD_int := add_bcd_depth 2 x y.

Definition sub_bcd (x y : BCD_int) : outcome BCD_int := sub_bcd_depth 2 x y.

Definition inc_bcd (x : BCD_int) : outcome BCD_int := add_bcd x BCD_one.

Definition dec_bcd (x : BCD_int) : outcome BCD_int := sub_bcd x BCD_one.

(** ** The shift engine *)

Definition mul_bcd_pow_10 (x : BCD_int) (tens : Z) : outcome BCD_int :=
  if nan x then Ok (bcd_error SHIFT_NAN (orig_error x))
  else if zero x then Ok BCD_zero
  else if tens =? 0 then copy_BCD_int x
  else
    let ret_even := even x || nonzero tens in
    let ret_dd := umax (decimal_digits x + tens) in
    let ret_bd := umax (ret_dd + 1) / 2 in
    let ret_data := malloc ret_bd in
    d <- (if tens mod 2 =? 0 then
            let digit_diff := umax (ret_bd - bcd_digits x) in
            memcpy ret_data digit_diff (data x) 0 (bcd_digits x)
          else
            let digit_diff := umax (ret_bd - bcd_digits x - ret_dd mod 2) in
            x0 <- load (data x) 0 ;;
            d <- store ret_data digit_diff (u8 (Z.shiftl x0 4)) ;;
            d <- for_up (Z.to_nat (bcd_digits x - 1)) 1
                   (fun i d =>
                      xi <- load (data x) i ;;
                      d <- store d (umax (i + digit_diff)) (u8 (Z.shiftl xi 4)) ;;
                      xp <- load (data x) (i - 1) ;;
                      or_store d (umax (i + digit_diff)) (Z.shiftr xp 4))
                   d ;;
            xt <- load (data x) (bcd_digits x - 1) ;;
            or_store d (umax (bcd_digits x + digit_diff)) (Z.shiftr xt 4)) ;;
    Ok (mkBCD d ret_bd ret_dd (negative x) false ret_even false false
              NON_ERR NON_ERR).

Definition shift_bcd_left (x : BCD_int) (tens : Z) : outcome BCD_int :=
  mul_bcd_pow_10 x tens.

Definition div_bcd_pow_10 (a : BCD_int) (tens : Z) : outcome BCD_int :=
  if nan a then Ok (bcd_error SHIFT_NAN (orig_error a))
  else if tens =? 0 then copy_BCD_int a
  else if tens >=? decimal_digits a then Ok BCD_zero
  else
    let ret_dd := decimal_digits a - tens in
    let ret_bd := (ret_dd + 1) / 2 in
    let ret_data := malloc ret_bd in
    let digit_diff := bcd_digits a - ret_bd in
    d <- (if tens mod 2 =? 0 then
            memcpy ret_data 0 (data a) digit_diff ret_bd
          else
            a0 <- load (data a) digit_diff ;;
            d <- store ret_data 0 (Z.shiftr a0 4) ;;
            d <- for_up (Z.to_nat (ret_bd - 1)) 1
                   (fun i d =>
                      ai <- load (data a) (i + digit_diff) ;;
                      d <- or_store d (i - 1) (Z.shiftl ai 4) ;;
                      store d i (Z.shiftr ai 4))
                   d ;;
            if nonzero (decimal_digits a mod 2) then
              at_ <- load (data a) (ret_bd + digit_diff) ;;
              or_store d (ret_bd - 1) (Z.shiftl at_ 4)
            else Ok d) ;;
    b0 <- load d 0 ;;
    Ok (mkBCD d ret_bd ret_dd false false (b0 mod 2 =? 0) false false
              NON_ERR NON_ERR).

Definition shift_bcd_right (a : BCD_int) (tens : Z) : outcome BCD_int :=
  div_bcd_pow_10 a tens.

(** ** In-place variants

    Each computes the result, releases the old content of [*x] and stores
    the result; the functions below return the new content of [*x]. *)

Definition replace_with (x : BCD_int) (ret : outcome BCD_int) : outcome BCD_int :=
  r <- ret ;;
  let freed := free_BCD_int x in
  Ok r.

Definition iadd_bcd (x y : BCD_int) : outcome BCD_int := replace_with x (add_bcd x y).
Definition iinc_bcd (x : BCD_int) : outcome BCD_int := replace_with x (inc_bcd x).
Definition isub_bcd (x y : BCD_int) : outcome BCD_int := replace_with x (sub_bcd x y).
Definition idec_bcd (x : BCD_int) : outcome BCD_int := replace_with x (dec_bcd x).
Definition imul_bcd_pow_10 (x : BCD_int) (tens : Z) : outcome BCD_int :=
  replace_with x (mul_bcd_pow_10 x tens).
Definition idiv_bcd_pow_10 (a : BCD_int) (tens : Z) : outcome BCD_int :=
  replace_with a (div_bcd_pow_10 a tens).

(** ** The multiplicative engine *)

Definition mul_dig_pair (ab cd : Z) : Z :=
  let a := Z.shiftr ab 4 in
  let b := Z.land ab 15 in
  let c := Z.shiftr cd 4 in
  let d := Z.land cd 15 in
  u16 (100 * a * c + 10 * (a * d + b * c) + b * d).

(** The nested loops of [mul_bcd] (lines 1366-1376): every byte of [x]
    against every byte of [y], each nonzero partial product shifted to its
    position and added to [answer]. *)
Definition mul_accumulate (x y answer : BCD_int) : outcome (BCD_int * Z) :=
  for_up (Z.to_nat (bcd_digits x)) 0
    (fun i '(answer, ipow_10) =>
       '(answer, _) <- for_up (Z.to_nat (bcd_digits y)) 0
         (fun j '(answer, pow_10) =>
            xi <- load (data x) i ;;
            yj <- load (data y) j ;;
            let staging := mul_dig_pair xi yj in
            if staging =? 0 then Ok (answer, umax (pow_10 + 2)) else
            let addend := new_BCD_int2 staging false in
            addend <- (if nonzero pow_10
                       then imul_bcd_pow_10 addend pow_10 else Ok addend) ;;
            answer <- iadd_bcd answer addend ;;
            let freed := free_BCD_int addend in
            Ok (answer, umax (pow_10 + 2)))
         (answer, ipow_10) ;;
       Ok (answer, umax (ipow_10 + 2)))
    (answer, 0).

Definition mul_bcd (x y : BCD_int) : outcome BCD_int :=
  let answer := BCD_zero in
  if nan x || nan y
  then Ok (bcd_error MUL_NAN (if nan x then orig_error x else orig_error y))
  else if zero x || zero y then Ok answer
  else
    '(answer, _) <- mul_accumulate x y answer ;;
    Ok (set_negative answer (negb (Bool.eqb (negative x) (negative y)))).

Definition imul_bcd (x y : BCD_int) : outcome BCD_int := replace_with x (mul_bcd x y).

(** The [mod] argument of [divmod_bcd]: a null pointer or the address of a
    [BCD_int] of the caller. *)
Inductive out_ptr : Type :=
| NullPtr
| ValidPtr.

(** [*mod = v]: the value now held by the caller's variable. *)
Definition write_out (p : out_ptr) (v : BCD_int) : outcome (option BCD_int) :=
  match p with
  | NullPtr => Fault NullDeref
  | ValidPtr => Ok (Some v)
  end.

(** [while (!x.zero && cmp_bcd(tmp, y) != LESS_THAN)] of [divmod_bcd]. *)
Fixpoint divmod_loop (fuel : nat) (x tmp y div : BCD_int)
  : outcome (BCD_int * BCD_int) :=
  match fuel with
  | O => Fault OutOfFuel
  | S f =>
      if zero x then Ok (tmp, div) else
      c <- cmp_bcd tmp y ;;
      match c with
      | LESS_THAN => Ok (tmp, div)
      | _ =>
          tmp <- isub_bcd tmp y ;;
          div <- iinc_bcd div ;;
          divmod_loop f x tmp y div
      end
  end.

(** [x.decimal_digits == 1 && x.data[0] == 1], with the short-circuit. *)
Definition is_unit_magnitude (x : BCD_int) : outcome bool :=
  if decimal_digits x =? 1
  then b <- load (data x) 0 ;; Ok (b =? 1)
  else Ok false.

(** The result is the quotient paired with the value stored through [mod]
    ([None] when nothing was stored). *)
Definition divmod_bcd (fuel : nat) (x y : BCD_int) (mod_ : out_ptr)
  : outcome (BCD_int * option BCD_int) :=
  let div := BCD_zero in
  if nan x || nan y || zero y then
    let error := if zero y then DIV_ZERO else DIV_NAN in
    let orig_error :=
      if nan x then orig_error x else if nan y then orig_error y else error in
    m <- write_out mod_ (bcd_error error orig_error) ;;
    Ok (bcd_error error orig_error, m)
  else if zero x then
    m <- write_out mod_ BCD_zero ;;
    Ok (div, m)
  else
    one <- is_unit_magnitude x ;;
    if one then
      m <- write_out mod_ BCD_zero ;;
      c <- copy_BCD_int x ;;
      q <- sign_bcd c true (negb (Bool.eqb (negative x) (negative y))) ;;
      Ok (q, m)
    else
      let x_negative := negative x in
      let y_negative := negative y in
      tmp <- copy_BCD_int x ;;
      let tmp := set_negative tmp false in
      let y := set_negative y false in
      '(tmp, div) <- divmod_loop fuel x tmp y div ;;
      let div := set_negative div (negb (Bool.eqb x_negative y_negative)) in
      if negative div then
        div <- (if negb (zero tmp) then idec_bcd div else Ok div) ;;
        m <- (match mod_ with
              | ValidPtr => r <- sub_bcd y tmp ;; Ok (Some r)
              | NullPtr => Ok None
              end) ;;
        let freed := free_BCD_int tmp in
        match m with
        | Some r => Ok (div, Some (set_negative r y_negative))
        | None => Fault NullDeref
        end
      else
        match mod_ with
        | ValidPtr => r <- sign_bcd tmp true y_negative ;; Ok (div, Some r)
        | NullPtr => let freed := free_BCD_int tmp in Ok (div, None)
        end.

Definition div_bcd (fuel : nat) (x y : BCD_int) : outcome BCD_int :=
  '(div, _) <- divmod_bcd fuel x y NullPtr ;;
  Ok div.

(** The value read back from the local [mod] after [divmod_bcd(x, y, &mod)];
    every successful call with a valid pointer stores one
    (see [divmod_bcd_stores]). *)
Definition mod_bcd (fuel : nat) (x y : BCD_int) : outcome BCD_int :=
  one <- is_unit_magnitude y ;;
  if one then Ok BCD_zero else
  '(div, m) <- divmod_bcd fuel x y ValidPtr ;;
  let freed := free_BCD_int div in
  match m with
  | Some r => Ok r
  | None => Fault NullDeref
  end.

(** [while (!(tmp.zero || tmp.nan))] of [pow_bcd]. *)
Fixpoint pow_loop (fuel : nat) (x answer tmp : BCD_int) : outcome BCD_int :=
  match fuel with
  | O => Fault OutOfFuel
  | S f =>
      if negb (zero tmp || nan tmp) then
        answer <- imul_bcd answer x ;;
        tmp <- idec_bcd tmp ;;
        pow_loop f x answer tmp
      else Ok answer
  end.

Definition pow_bcd (fuel : nat) (x y : BCD_int) : outcome BCD_int :=
  if nan x || nan y || negative y then
    let error := if negative y then POW_NEG else POW_NAN in
    let orig_error :=
      if nan x then orig_error x else if nan y then orig_error y else error in
    Ok (bcd_error error orig_error)
  else
    tmp <- copy_BCD_int y ;;
    pow_loop fuel x BCD_one tmp.

(** [while (!i.zero)] of [factorial_bcd]. *)
Fixpoint factorial_loop (fuel : nat) (ret i : BCD_int) : outcome BCD_int :=
  match fuel with
  | O => Fault OutOfFuel
  | S f =>
      if negb (zero i) then
        ret <- imul_bcd ret i ;;
        i <- idec_bcd i ;;
        factorial_loop f ret i
      else Ok ret
  end.

Definition factorial_bcd (fuel : nat) (x : BCD_int) : outcome BCD_int :=
  if nan x then Ok (bcd_error FACT_NAN (orig_error x))
  else if negative x then Ok (bcd_error FACT_NEG FACT_NEG)
  else
    small <- (if zero x then Ok true else is_unit_magnitude x) ;;
    if small then Ok BCD_one else
    i <- dec_bcd x ;;
    ret <- copy_BCD_int x ;;
    factorial_loop fuel ret i.

(** ** In-place variants of the sign and multiplicative operators *)

(** [isign_bcd(&x, negative)]: the new content of [*x]; a constant is
    copied before its sign is written. *)
Definition isign_bcd (x : BCD_int) (neg : bool) : outcome BCD_int :=
  x <- (if negb (nan x) && constant x then copy_BCD_int x else Ok x) ;;
  Ok (if negb (nan x) then set_negative x neg else x).

Definition iabs_bcd (x : BCD_int) : outcome BCD_int := isign_bcd x false.

Definition ineg_bcd (x : BCD_int) : outcome BCD_int := isign_bcd x true.

Definition iopp_bcd (x : BCD_int) : outcome BCD_int :=
  isign_bcd x (negb (negative x)).

Definition idiv_bcd (fuel : nat) (x y : BCD_int) : outcome BCD_int :=
  replace_with x (div_bcd fuel x y).

Definition imod_bcd (fuel : nat) (x y : BCD_int) : outcome BCD_int :=
  replace_with x (mod_bcd fuel x y).

(** [idivmod_bcd(&x, &y)]: the new contents of [*x] (the quotient) and of
    [*y] (the remainder, read back from the local [mod]). *)
Definition idivmod_bcd (fuel : nat) (x y : BCD_int) : outcome (BCD_int * BCD_int) :=
  '(div, m) <- divmod_bcd fuel x y ValidPtr ;;
  let freed_x := free_BCD_int x in
  let freed_y := free_BCD_int y in
  match m with
  | Some r => Ok (div, r)
  | None => Fault NullDeref
  end.

Definition ipow_bcd (fuel : nat) (x y : BCD_int) : outcome BCD_int :=
  replace_with x (pow_bcd fuel x y).

Definition ifactorial_bcd (fuel : nat) (x : BCD_int) : outcome BCD_int :=
  replace_with x (factorial_bcd fuel x).

(** ** Native-integer interop *)

Section NativeInterop.

(** The exponent of the largest power of ten that fits 64 bits, a macro of
    the absent macros.h; it is left as a parameter. *)
Variable POW_OF_MAX_POW_10_64 : Z.

Definition abs_bcd_cuint (x : BCD_int) : outcome Z :=
  if nan x || (decimal_digits x >? POW_OF_MAX_POW_10_64 + 2)
  then Ok UINTMAX_MAX
  else
    '(answer, _) <- for_up (Z.to_nat (bcd_digits x)) 0
      (fun i '(answer, pow_10) =>
         b <- load (data x) i ;;
         Ok (umax (answer + umax (pow_10 * (Z.land b 15 + 10 * Z.shiftr b 4))),
             umax (pow_10 * 100)))
      (0, 1) ;;
    b0 <- load (data x) 0 ;;
    if negb (b0 mod 15 =? answer mod 10) then Ok UINTMAX_MAX else Ok answer.

Definition val_bcd_cint (x : BCD_int) : outcome Z :=
  if nan x || (decimal_digits x >? POW_OF_MAX_POW_10_64 + 1)
  then Ok INTMAX_MIN
  else
    answer <- abs_bcd_cuint x ;;
    if answer >? INTMAX_MAX then Ok INTMAX_MIN
    else Ok (if negative x then - answer else answer).

Definition cmp_bcd_cuint (x : BCD_int) (y : Z) : outcome comp_t :=
  if nan x then Ok NO_COMP
  else if zero x then Ok (if nonzero y then GREATER_THAN else EQUAL_TO)
  else if negative x then Ok LESS_THAN
  else if decimal_digits x >? POW_OF_MAX_POW_10_64 + 2 then Ok GREATER_THAN
  else
    x_prime <- abs_bcd_cuint x ;;
    if x_prime =? UINTMAX_MAX then Ok NO_COMP
    else if x_prime >? y then Ok GREATER_THAN
    else if x_prime <? y then Ok LESS_THAN
    else Ok EQUAL_TO.

Definition cmp_bcd_cint (x : BCD_int) (y : Z) : outcome comp_t :=
  if y <? 0 then
    x' <- opp_bcd x true ;;
    inverse_answer <- cmp_bcd_cuint x' (umax (- y)) ;;
    match inverse_answer with
    | GREATER_THAN => Ok LESS_THAN
    | LESS_THAN => Ok GREATER_THAN
    | _ => Ok inverse_answer
    end
  else cmp_bcd_cuint x (umax y).

End NativeInterop.

(** ** Text rendering *)

Definition hex_digit (n : Z) : ascii :=
  match String.get (Z.to_nat n) "0123456789abcdef" with
  | Some c => c
  | None => "?"%char
  end.

(** [printf("%x", b)] for a byte. *)
Definition fmt_x (b : Z) : string :=
  if b <? 16 then String (hex_digit b) EmptyString
  else String (hex_digit (b / 16)) (String (hex_digit (b mod 16)) EmptyString).

(** [printf("%02x", b)] for a byte. *)
Definition fmt_02x (b : Z) : string :=
  String (hex_digit (b / 16)) (String (hex_digit (b mod 16)) EmptyString).

(** [for (; i != -1; i--) printf("%02x", x.data[i]);] with [n = i + 1]. *)
Fixpoint print_rest (n : nat) (d : buffer) : outcome string :=
  match n with
  | O => Ok EmptyString
  | S n' =>
      b <- load d (Z.of_nat n') ;;
      rest <- print_rest n' d ;;
      Ok (append (fmt_02x b) rest)
  end.

(** The text written by [print_bcd]. *)
Definition print_bcd (x : BCD_int) : outcome string :=
  if nan x then Ok "NaN"%string
  else if zero x then Ok "0"%string
  else
    let i := bcd_digits x - 1 in
    top <- load (data x) i ;;
    rest <- print_rest (Z.to_nat i) (data x) ;;
    Ok (append (if negative x then "-" else "")%string
               (append (fmt_x top) rest)).

(** * Specification-level notions *)

(** The two decimal digits of a digit-pair byte, as a number in [0, 99]. *)
Definition pair_value (b : Z) : Z := 10 * Z.shiftr b 4 + Z.land b 15.

(** Little-endian base-100 value of a sequence of digit-pair bytes. *)
Fixpoint magnitude (l : list Z) : Z :=
  match l with
  | [] => 0
  | b :: t => pair_value b + 100 * magnitude t
  end.

(** The [bcd_digits] bytes a value counts as its own. *)
Definition digits_of (x : BCD_int) : list Z :=
  match data x with
  | Some l => firstn (Z.to_nat (bcd_digits x)) l
  | None => []
  end.

(** The integer a finite value denotes. *)
Definition value (x : BCD_int) : Z :=
  if negative x then - magnitude (digits_of x) else magnitude (digits_of x).

Definition valid_pair (b : Z) : bool :=
  (0 <=? b) && (Z.shiftr b 4 <=? 9) && (Z.land b 15 <=? 9).

(** The count invariant of the data model: the decimal-digit count is twice
    the byte count, or twice minus one when the top nibble of the most
    significant byte is zero; that byte is itself nonzero. *)
Definition canonical_counts (x : BCD_int) : bool :=
  if bcd_digits x =? 0 then decimal_digits x =? 0
  else
    let top := last (digits_of x) 0 in
    nonzero top &&
    (decimal_digits x =?
       (if nonzero (Z.land top 240) then 2 * bcd_digits x
        else 2 * bcd_digits x - 1)).

(** A finite value whose counted bytes lie inside its buffer. *)
Definition finite (x : BCD_int) : bool :=
  negb (nan x)
  && match data x with
     | Some l => (0 <=? bcd_digits x) && (bcd_digits x <=? Z.of_nat (length l))
     | None => bcd_digits x =? 0
     end.

(** A canonical finite value: finite, its counted bytes hold decimal
    digits, the counts are canonical and the zero flag is set exactly when
    there is no digit. *)
Definition canonical (x : BCD_int) : bool :=
  finite x
  && forallb valid_pair (digits_of x)
  && canonical_counts x
  && Bool.eqb (zero x) (bcd_digits x =? 0).

(** Text rendering followed by re-parsing of the digit string (the text
    without its sign character) with the same sign. *)
Definition reparse (x : BCD_int) : outcome BCD_int :=
  text <- print_bcd x ;;
  let digits :=
    if negative x then substring 1 (String.length text - 1) text else text in
  BCD_from_ascii digits (Z.of_nat (String.length digits)) (negative x).

(** [p] is a live buffer of exactly [n] bytes. *)
Definition buf_len (p : buffer) (n : Z) : Prop :=
  exists l, p = Some l /\ Z.of_nat (length l) = n.

(** [p] is a live buffer of at least [n] bytes. *)
Definition readable (p : buffer) (n : Z) : Prop :=
  exists l, p = Some l /\ n <= Z.of_nat (length l).

(** A finite, nonzero, non-negative value with at least one byte, all of
    its counted bytes inside its buffer: the shape of every addend and of
    the running sum in [mul_bcd]. *)
Record summand (v : BCD_int) : Prop := {
  summand_nan : nan v = false;
  summand_neg : negative v = false;
  summand_zero : zero v = false;
  summand_bcd : 1 <= bcd_digits v;
  summand_read : readable (data v) (bcd_digits v)
}.

(** Facts about a single digit-pair byte, checked on all 256 bytes. *)
Definition byte_facts (b : Z) : bool :=
  implb (valid_pair b)
    ((b <? 160)
     && (0 <=? pair_value b) && (pair_value b <=? 99)
     && (pair_value b =? 10 * (b / 16) + b mod 16)
     && (b mod 16 <=? 9)
     && implb (nonzero b) (1 <=? pair_value b)
     && (if nonzero (Z.land b 240) then 10 <=? pair_value b
         else pair_value b <=? 9)).

(** The result [cmp_bcd] gives for the comparison [c] of two magnitudes of
    sign [neg]. *)
Definition oriented (neg : bool) (c : comparison) : comp_t :=
  match c with
  | Eq => EQUAL_TO
  | Lt => if neg then GREATER_THAN else LESS_THAN
  | Gt => if neg then LESS_THAN else GREATER_THAN
  end.

(** The [comp_t] that states the order [c] of two integers. *)
Definition comp_of (c : comparison) : comp_t :=
  match c with
  | Eq => EQUAL_TO
  | Lt => LESS_THAN
  | Gt => GREATER_THAN
  end.

(** A zero value does not carry the negative flag. *)
Definition unsigned_zero (x : BCD_int) : bool := negb (zero x && negative x).

(** The result of comparing the operands the other way round. *)
Definition mirrored (c : comp_t) : comp_t :=
  match c with
  | GREATER_THAN => LESS_THAN
  | LESS_THAN => GREATER_THAN
  | other => other
  end.

(** The byte [new_BCD_int2] stores for the two lowest decimal digits of [a]. *)
Definition low_pair (a : Z) : Z :=
  Z.lor (Z.shiftl ((a mod 100) / 10) 4) (a mod 10).

(** One carry-propagation step of the second loop of [add_bcd]: the byte
    stored for the input byte [b] and the outgoing carry. *)
Definition add_carry_step (b : Z) : Z * bool :=
  let a := u8 (b + Z.b2z true) in
  let a := if Z.land a 15 =? 10 then u8 (a + 6) else a in
  let overflow := Z.land a 240 =? 160 in
  let a := if overflow then u8 (a + 96) else a in
  (a, overflow).

(** The bytes that hold two decimal digits. *)
Definition valid_bytes : list Z := filter valid_pair (map Z.of_nat (seq 0 256)).

Definition add_pair_ok (a b : Z) (ov : bool) : bool :=
  let '(c, ov') := add_pair a b ov in
  valid_pair c && (pair_value c + 100 * Z.b2z ov' =? pair_value a + pair_value b + Z.b2z ov).

Definition add_carry_step_ok (b : Z) : bool :=
  let '(c, ov') := add_carry_step b in
  valid_pair c && (pair_value c + 100 * Z.b2z ov' =? pair_value b + 1).

(** The number a string of decimal digit characters spells, continuing
    from the digits already read, [acc]. *)
Fixpoint decimal_value (acc : Z) (s : string) : Z :=
  match s with
  | EmptyString => acc
  | String c t => decimal_value (10 * acc + (char_code c - 48)) t
  end.

(** Every character is one of ['0'] to ['9']. *)
Fixpoint all_digits (s : string) : bool :=
  match s with
  | EmptyString => true
  | String c t => (48 <=? char_code c) && (char_code c <=? 57) && all_digits t
  end.

(** Facts about the two hexadecimal characters printed for a digit-pair
    byte. *)
Definition fmt_facts (b : Z) : bool :=
  all_digits (fmt_02x b)
  && (decimal_value 0 (fmt_02x b) =? pair_value b)
  && (if nonzero (Z.land b 240)
      then String.eqb (fmt_x b) (fmt_02x b)
      else String.eqb (String "0" (fmt_x b)) (fmt_02x b)).

(** The first [n] characters of a string. *)
Fixpoint prefix (n : nat) (s : string) : string :=
  match n, s with
  | S n', String c t => String c (prefix n' t)
  | _, _ => EmptyString
  end.

(** The byte [BCD_from_ascii] packs from two digit characters. *)
Definition pack_chars (hi lo : Z) : Z :=
  u8 (Z.lor (Z.shiftl (hi - 48) 4) (Z.land (lo - 48) 15)).

(** Facts about subtracting one from a digit-pair byte other than 0 and
    1 with [sub_pair]. *)
Definition sub_one_ok (b : Z) : bool :=
  implb (2 <=? b)
    (let '(c, cy) := sub_pair b 1 false in
     valid_pair c && nonzero c && (pair_value c =? pair_value b - 1)).

(** The factorial of a natural number, as an integer. *)
Fixpoint factorial_of (n : nat) : Z :=
  match n with
  | O => 1
  | S n' => Z.of_nat n * factorial_of n'
  end.

(** Facts about the byte an odd shift builds from the low digit of the
    byte [c] and the high digit of the byte [p], checked on all digit
    pairs. *)
Definition nibble_merge_ok (c p : Z) : bool :=
  let v := u8 (Z.lor (u8 (Z.shiftl c 4)) (Z.shiftr p 4)) in
  valid_pair v
  && (pair_value v =? 10 * (c mod 16) + p / 16)
  && (u8 (Z.lor (Z.shiftr p 4) (Z.shiftl c 4)) =? v).

(** Facts about the high digit of a byte, stored as a byte of its own. *)
Definition high_digit_ok (p : Z) : bool :=
  let t := u8 (Z.lor 0 (Z.shiftr p 4)) in
  valid_pair t && (t =? p / 16) && (Z.shiftr p 4 =? p / 16)
  && (pair_value t =? p / 16)
  && (Z.land t 240 =? 0) && Bool.eqb (nonzero (Z.land p 240)) (nonzero t)
  && (u8 (Z.shiftl p 4) =? u8 (Z.lor (u8 (Z.shiftl p 4)) (Z.shiftr 0 4))).

(** * Worked scenarios of the specification *)

Example divmod_28_5 :
  exists q r, divmod_bcd 6 (new_BCD_int1 28) (new_BCD_int1 5) ValidPtr = Ok (q, Some r)
              /\ value q = 5 /\ value r = 3.
Proof. vm_compute. eexists; eexists; repeat split. Qed.

Example divmod_m7_2 :
  exists q r, divmod_bcd 4 (new_BCD_int1 (-7)) (new_BCD_int1 2) ValidPtr = Ok (q, Some r)
              /\ value q = -4 /\ value r = 1.
Proof. vm_compute. eexists; eexists; repeat split. Qed.

Example mul_91_99 :
  exists r, mul_bcd (new_BCD_int1 91) (new_BCD_int1 99) = Ok r /\ value r = 9009.
Proof. vm_compute. eexists; repeat split. Qed.

Example pow_2_10 :
  exists r, pow_bcd 11 (new_BCD_int1 2) (new_BCD_int1 10) = Ok r /\ value r = 1024.
Proof. vm_compute. eexists; repeat split. Qed.

Example factorial_10 :
  exists r, factorial_bcd 10 (new_BCD_int1 10) = Ok r /\ value r = 3628800.
Proof. vm_compute. eexists; repeat split. Qed.

(** The subtraction loop does not decimal-adjust a low nibble that
    borrowed into 7, 8 or 9, and the final scan starts below the copied
    bytes: two subtractions the division loop relies on. *)
Example sub_10_9 :
  exists r, sub_bcd (new_BCD_int1 10) (new_BCD_int1 9) = Ok r /\ value r = 7.
Proof. vm_compute. eexists; repeat split. Qed.

Example sub_1234_1 :
  exists r, sub_bcd (new_BCD_int1 1234) (new_BCD_int1 1) = Ok r /\ value r = 33.
Proof. vm_compute. eexists; repeat split. Qed.

Example divmod_m6_2 :
  exists q r, divmod_bcd 4 (new_BCD_int1 (-6)) (new_BCD_int1 2) ValidPtr = Ok (q, Some r)
              /\ value q = -3 /\ value r = 2.
Proof. vm_compute. eexists; eexists; repeat split. Qed.

(** * Verification of the claims *)

(** ** Error propagation *)

Lemma nan_bcd_error : forall e o, nan (bcd_error e o) = true.
Proof. reflexivity. Qed.

Lemma orb_true_cases : forall a b : bool, a || b = true -> a = true \/ (a = false /\ b = true).
Proof. intros [] []; simpl; auto. Qed.

(** With a NaN dividend and a zero divisor the tag recorded is the
    divide-by-zero one, not the on-error one. *)
Lemma divmod_nan_by_zero_tag :
  exists r m, nan BCD_nan = true
              /\ divmod_bcd 0 BCD_nan BCD_zero ValidPtr = Ok (r, m)
              /\ nan r = true /\ error r = DIV_ZERO /\ error r <> DIV_NAN.
Proof.
  do 2 eexists. split; [reflexivity |]. split; [reflexivity |].
  simpl. repeat split. discriminate.
Qed.

(** C2 (amended): an Error operand makes add, subtract, multiply, divmod
    (with a remainder cell), modulo (whenever its fast-path test
    [y.decimal_digits == 1 && y.data[0] == 1] on the divisor is false),
    exponentiate, factorial and both shifts return an Error value whose
    original tag is that of the first Error operand; the current tag is
    the operation's on-error code, except that divmod and modulo record
    "divide by zero" when the divisor's zero flag is set and
    exponentiation records "negative exponent" when the exponent's
    negative flag is set. *)
Theorem error_operand_propagates
  (fuel : nat) (x y : BCD_int) (tens : Z) (H : nan x || nan y = true) :
  let orig := if nan x then orig_error x else orig_error y in
  let div_tag := if zero y then DIV_ZERO else DIV_NAN in
  let pow_tag := if negative y then POW_NEG else POW_NAN in
  add_bcd x y = Ok (bcd_error ADD_NAN orig)
  /\ sub_bcd x y = Ok (bcd_error SUB_NAN orig)
  /\ mul_bcd x y = Ok (bcd_error MUL_NAN orig)
  /\ divmod_bcd fuel x y ValidPtr
     = Ok (bcd_error div_tag orig, Some (bcd_error div_tag orig))
  /\ (is_unit_magnitude y = Ok false ->
      mod_bcd fuel x y = Ok (bcd_error div_tag orig))
  /\ pow_bcd fuel x y = Ok (bcd_error pow_tag orig)
  /\ (nan x = true ->
      factorial_bcd fuel x = Ok (bcd_error FACT_NAN (orig_error x))
      /\ mul_bcd_pow_10 x tens = Ok (bcd_error SHIFT_NAN (orig_error x))
      /\ div_bcd_pow_10 x tens = Ok (bcd_error SHIFT_NAN (orig_error x)))
  /\ (forall e o, nan (bcd_error e o) = true).
Proof.
  intros orig div_tag pow_tag.
  assert (Hdm : divmod_bcd fuel x y ValidPtr
                = Ok (bcd_error div_tag orig, Some (bcd_error div_tag orig))).
  { unfold divmod_bcd. rewrite H. simpl.
    subst orig div_tag.
    destruct (orb_true_cases _ _ H) as [Hx | [Hx Hy]]; rewrite Hx;
      try rewrite Hy; reflexivity. }
  repeat split.
  - unfold add_bcd. simpl. now rewrite H.
  - unfold sub_bcd. simpl. now rewrite H.
  - unfold mul_bcd. now rewrite H.
  - exact Hdm.
  - intro Hu. unfold mod_bcd. rewrite Hu. cbn [bind]. now rewrite Hdm.
  - unfold pow_bcd. rewrite H. simpl.
    subst orig pow_tag.
    destruct (orb_true_cases _ _ H) as [Hx | [Hx Hy]]; rewrite Hx;
      try rewrite Hy; reflexivity.
  - unfold factorial_bcd. now rewrite H0.
  - unfold mul_bcd_pow_10. now rewrite H0.
  - unfold div_bcd_pow_10. now rewrite H0.
Qed.

Lemma error_operand_propagates_witness :
  add_bcd BCD_nan BCD_one = Ok (bcd_error ADD_NAN ORIG_NAN)
  /\ mod_bcd 0 BCD_nan BCD_zero = Ok (bcd_error DIV_ZERO ORIG_NAN)
  /\ mod_bcd 0 BCD_nan (new_BCD_int1 5) = Ok (bcd_error DIV_NAN ORIG_NAN)
  /\ mod_bcd 0 (new_BCD_int1 7) (bcd_error NOT_SUPP RESERVED)
     = Ok (bcd_error DIV_NAN RESERVED)
  /\ factorial_bcd 0 BCD_nan = Ok (bcd_error FACT_NAN ORIG_NAN).
Proof.
  pose proof (error_operand_propagates 0 BCD_nan BCD_one 1 eq_refl) as H1.
  pose proof (error_operand_propagates 0 BCD_nan BCD_zero 1 eq_refl) as H2.
  pose proof (error_operand_propagates 0 BCD_nan (new_BCD_int1 5) 1 eq_refl)
    as H3.
  pose proof (error_operand_propagates 0 (new_BCD_int1 7)
                (bcd_error NOT_SUPP RESERVED) 1 eq_refl) as H4.
  cbv zeta in H1, H2, H3, H4.
  split; [exact (proj1 H1) |].
  split; [| split; [| split]].
  - apply (proj1 (proj2 (proj2 (proj2 (proj2 H2))))). reflexivity.
  - apply (proj1 (proj2 (proj2 (proj2 (proj2 H3))))). reflexivity.
  - apply (proj1 (proj2 (proj2 (proj2 (proj2 H4))))). reflexivity.
  - apply (proj1 (proj1 (proj2 (proj2 (proj2 (proj2 (proj2 (proj2 H2)))))) eq_refl)).
Defined.

(** Two paths that do not propagate the Error: the unit-divisor fast path
    of [mod_bcd] runs before any NaN test, and [div_bcd] passes a null
    remainder pointer that the error path stores through. *)
Example mod_bcd_nan_by_one :
  is_unit_magnitude BCD_one = Ok true
  /\ mod_bcd 0 BCD_nan BCD_one = Ok BCD_zero.
Proof. split; reflexivity. Qed.

Example div_bcd_nan_operand :
  forall fuel y, div_bcd fuel BCD_nan y = Fault NullDeref.
Proof. reflexivity. Qed.

(** ** Division by zero *)

(** With a cell for the remainder, a zero divisor gives the
    divide-by-zero Error as quotient and as remainder, whatever the
    dividend; [mod_bcd] returns it too. *)
Lemma divmod_by_zero :
  forall fuel x,
    nan x = false ->
    divmod_bcd fuel x BCD_zero ValidPtr
    = Ok (bcd_error DIV_ZERO DIV_ZERO, Some (bcd_error DIV_ZERO DIV_ZERO))
    /\ mod_bcd fuel x BCD_zero = Ok (bcd_error DIV_ZERO DIV_ZERO).
Proof.
  intros fuel x Hx.
  assert (H : divmod_bcd fuel x BCD_zero ValidPtr
              = Ok (bcd_error DIV_ZERO DIV_ZERO, Some (bcd_error DIV_ZERO DIV_ZERO))).
  { unfold divmod_bcd. rewrite Hx. reflexivity. }
  split; [exact H |].
  unfold mod_bcd. simpl. now rewrite H.
Qed.

(** C3: [div_bcd] passes a null remainder pointer to [divmod_bcd], whose
    divide-by-zero path stores through it unguarded: [div_bcd(5, 0)], and
    [div_bcd(x, 0)] for every [x], stops on a null dereference instead of
    returning the "divide by zero" Error. *)
Theorem div_bcd_by_zero_null_deref :
  forall fuel x,
    div_bcd fuel x BCD_zero = Fault NullDeref
    /\ div_bcd fuel (new_BCD_int1 5) BCD_zero = Fault NullDeref.
Proof.
  assert (H : forall fuel x, div_bcd fuel x BCD_zero = Fault NullDeref).
  { intros fuel x. unfold div_bcd, divmod_bcd.
    replace (nan x || nan BCD_zero || zero BCD_zero) with true
      by (simpl; now rewrite orb_true_r).
    reflexivity. }
  intros fuel x. split; apply H.
Qed.

(** ** The divmod identity *)

(** C1: the unit fast path of [divmod_bcd] tests the dividend instead of
    the divisor: [divmod(1, 5)] returns quotient 1 and remainder 0, so
    quotient * divisor + remainder is 5, not the dividend 1. *)
Theorem divmod_identity_fails_on_unit_dividend :
  forall fuel,
    exists q r,
      divmod_bcd fuel (new_BCD_int1 1) (new_BCD_int1 5) ValidPtr = Ok (q, Some r)
      /\ value (new_BCD_int1 1) = 1 /\ value (new_BCD_int1 5) = 5
      /\ value q = 1 /\ value r = 0
      /\ value q * value (new_BCD_int1 5) + value r <> value (new_BCD_int1 1).
Proof.
  intro fuel. do 2 eexists. split; [reflexivity |].
  vm_compute. repeat split; discriminate.
Qed.

(** ** Canonical form *)

(** C4: [BCD_from_bytes] sets the decimal-digit count from the index of the
    most significant byte, not from the byte count: for the single byte
    0x12 (the number 12) it reports 1 byte and 1 decimal digit, where the
    canonical count is 2. *)
Theorem BCD_from_bytes_digit_count_off_by_one :
  exists r,
    BCD_from_bytes (Some [18]) 1 false true = Ok r
    /\ bcd_digits r = 1
    /\ decimal_digits r = 1
    /\ Z.land (last (digits_of r) 0) 240 <> 0
    /\ decimal_digits r <> 2 * bcd_digits r
    /\ canonical_counts r = false.
Proof.
  eexists. split; [reflexivity |].
  vm_compute. repeat split; discriminate.
Qed.

(** The native-integer constructor is canonical on the same number. *)
Example new_BCD_int2_12_canonical :
  canonical (new_BCD_int2 12 false) = true
  /\ decimal_digits (new_BCD_int2 12 false) = 2.
Proof. split; reflexivity. Qed.

(** ** Text round trip *)

(** C6: the value 12 is rendered as ["12"]; re-parsing that text through
    [BCD_from_ascii] gives a value with decimal-digit count 1 (the
    off-by-one of [BCD_from_bytes]), which [cmp_bcd] orders below the
    original instead of equal to it. *)
Theorem roundtrip_not_equal_at_12 :
  exists y,
    canonical (new_BCD_int1 12) = true
    /\ print_bcd (new_BCD_int1 12) = Ok "12"%string
    /\ reparse (new_BCD_int1 12) = Ok y
    /\ cmp_bcd (new_BCD_int1 12) y = Ok GREATER_THAN.
Proof.
  eexists. split; [reflexivity |]. split; [reflexivity |].
  split; reflexivity.
Qed.

(** ** Conversion to native integers *)

(** C7: the final consistency check of [abs_bcd_cuint] reduces the lowest
    byte modulo 15 instead of masking its low nibble: for the canonical
    value 12 it compares 0x12 mod 15 = 3 with 12 mod 10 = 2 and returns
    the overflow sentinel, and [val_bcd_cint] then returns its own. *)
Theorem abs_bcd_cuint_sentinel_at_12 :
  forall P : Z,
    canonical (new_BCD_int1 12) = true
    /\ value (new_BCD_int1 12) = 12
    /\ abs_bcd_cuint P (new_BCD_int1 12) = Ok UINTMAX_MAX
    /\ val_bcd_cint P (new_BCD_int1 12) = Ok INTMAX_MIN.
Proof.
  intro P. split; [reflexivity |]. split; [reflexivity |].
  assert (H : abs_bcd_cuint P (new_BCD_int1 12) = Ok UINTMAX_MAX).
  { unfold abs_bcd_cuint.
    destruct (nan (new_BCD_int1 12)
              || (decimal_digits (new_BCD_int1 12) >? P + 2)); reflexivity. }
  split; [exact H |].
  unfold val_bcd_cint. rewrite H.
  destruct (nan (new_BCD_int1 12)
            || (decimal_digits (new_BCD_int1 12) >? P + 1)); reflexivity.
Qed.

(** The zero constant owns no buffer, and the check reads its first byte. *)
Example abs_bcd_cuint_zero : abs_bcd_cuint 19 BCD_zero = Fault NullDeref.
Proof. reflexivity. Qed.

(** With a zero tens digit in the lowest byte the check passes. *)
Example abs_bcd_cuint_105 : abs_bcd_cuint 19 (new_BCD_int1 105) = Ok 105.
Proof. reflexivity. Qed.

(** ** Checked memory: access lemmas *)

Lemma buf_len_readable : forall p n, buf_len p n -> readable p n.
Proof. intros p n (l & -> & <-). exists l. split; [reflexivity | lia]. Qed.

Lemma buf_len_malloc : forall n, 0 <= n -> buf_len (malloc n) n.
Proof.
  intros n Hn. exists (repeat 0 (Z.to_nat n)). split; [reflexivity |].
  rewrite repeat_length. lia.
Qed.

Lemma in_range_true : forall i n, 0 <= i < n -> in_range i n = true.
Proof. intros. unfold in_range. apply andb_true_iff. split; lia. Qed.

Lemma in_range_false : forall i n, ~ 0 <= i < n -> in_range i n = false.
Proof.
  intros. unfold in_range. apply andb_false_iff.
  destruct (Z.leb_spec 0 i); [right; lia | left; reflexivity].
Qed.

Lemma load_readable :
  forall p n i, readable p n -> 0 <= i < n -> exists v, load p i = Ok v.
Proof.
  intros p n i (l & -> & Hl) Hi. unfold load.
  rewrite in_range_true by lia. eauto.
Qed.

Lemma length_list_set : forall l i v, length (list_set l i v) = length l.
Proof.
  induction l as [| h t IH]; intros [| i] v; simpl; auto.
Qed.

Lemma store_buf_len :
  forall p n i v, buf_len p n -> 0 <= i < n ->
    exists p', store p i v = Ok p' /\ buf_len p' n.
Proof.
  intros p n i v (l & -> & Hl) Hi. unfold store.
  rewrite in_range_true by lia. eexists. split; [reflexivity |].
  eexists. split; [reflexivity |]. now rewrite length_list_set.
Qed.

Lemma or_store_store :
  forall l i v,
    or_store (Some l) i v = store (Some l) i (u8 (Z.lor (nth (Z.to_nat i) l 0) v)).
Proof. reflexivity. Qed.

Lemma or_store_buf_len :
  forall p n i v, buf_len p n -> 0 <= i < n ->
    exists p', or_store p i v = Ok p' /\ buf_len p' n.
Proof.
  intros p n i v Hp Hi. destruct Hp as (l & -> & Hl).
  rewrite or_store_store. apply store_buf_len; [| exact Hi].
  exists l. split; [reflexivity | exact Hl].
Qed.


Lemma memcpy_buf_len :
  forall dst n doff src m soff k,
    buf_len dst n -> readable src m ->
    0 <= k -> 0 <= doff -> doff + k <= n -> 0 <= soff -> soff + k <= m ->
    exists p', memcpy dst doff src soff k = Ok p' /\ buf_len p' n.
Proof.
  intros dst n doff src m soff k (d & -> & Hd) (s & -> & Hs) Hk Hdo Hdn Hso Hsm.
  unfold memcpy.
  replace ((0 <=? soff) && (soff + k <=? Z.of_nat (length s))) with true
    by (symmetry; apply andb_true_iff; split; lia).
  replace ((0 <=? doff) && (doff + k <=? Z.of_nat (length d))) with true
    by (symmetry; apply andb_true_iff; split; lia).
  simpl. eexists. split; [reflexivity |].
  eexists. split; [reflexivity |].
  rewrite !length_app, !length_firstn, !length_skipn. lia.
Qed.

(** Loop rule for [for_up]: an invariant kept by every iteration holds at
    the end, and the loop does not fault. *)
Lemma for_up_invariant :
  forall (S : Type) (I : Z -> S -> Prop) (body : Z -> S -> outcome S) n i s,
    I i s ->
    (forall j t, i <= j < i + Z.of_nat n -> I j t ->
                 exists t', body j t = Ok t' /\ I (j + 1) t') ->
    exists s', for_up n i body s = Ok s' /\ I (i + Z.of_nat n) s'.
Proof.
  intros S I body n. induction n as [| n IH]; intros i s Hi Hstep.
  - exists s. split; [reflexivity |]. now replace (i + Z.of_nat 0) with i by lia.
  - simpl for_up.
    destruct (Hstep i s ltac:(lia) Hi) as (t & Ht & HIt). rewrite Ht. cbn [bind].
    destruct (IH (i + 1) t HIt) as (s' & Hs' & HI').
    { intros j u Hj. apply Hstep. lia. }
    exists s'. split; [exact Hs' |].
    replace (i + Z.of_nat (Datatypes.S n)) with (i + 1 + Z.of_nat n) by lia.
    exact HI'.
Qed.

(** Applies the loop rule to the [for_up] of the goal with invariant [Inv]:
    leaves the initial invariant, the step and the continuation. *)
Ltac run_for_up Inv :=
  match goal with
  | |- context [for_up ?n ?i ?body ?s] =>
      let s' := fresh "s" in
      let E := fresh "E" in
      let HI := fresh "HI" in
      destruct (for_up_invariant _ Inv body n i s) as (s' & E & HI);
      [ | | rewrite E; cbn [bind] ]
  end.

(** ** Canonical values: what the predicate gives *)

Lemma finite_elim :
  forall x, finite x = true ->
    nan x = false
    /\ 0 <= bcd_digits x
    /\ (bcd_digits x <> 0 -> readable (data x) (bcd_digits x)).
Proof.
  intros x H. unfold finite in H.
  apply andb_true_iff in H. destruct H as [H H0].
  apply negb_true_iff in H.
  repeat split; auto.
  - destruct (data x); [apply andb_true_iff in H0; lia | lia].
  - intro Hne. destruct (data x) as [l |].
    + exists l. split; [reflexivity |]. apply andb_true_iff in H0. lia.
    + lia.
Qed.

Lemma canonical_finite : forall x, canonical x = true -> finite x = true.
Proof.
  intros x H. unfold canonical in H.
  do 3 (apply andb_true_iff in H; destruct H as [H ?]). exact H.
Qed.

Lemma canonical_elim :
  forall x, canonical x = true ->
    nan x = false
    /\ 0 <= bcd_digits x
    /\ (bcd_digits x <> 0 -> readable (data x) (bcd_digits x))
    /\ forallb valid_pair (digits_of x) = true
    /\ canonical_counts x = true
    /\ zero x = (bcd_digits x =? 0).
Proof.
  intros x H. destruct (finite_elim x (canonical_finite x H)) as (Hn & Hb & Hr).
  unfold canonical in H.
  do 3 (apply andb_true_iff in H; destruct H as [H ?]).
  apply eqb_prop in H0. repeat split; auto.
Qed.

(** ** The odd shift of an odd-length value *)



(** Beyond that range the digit count wraps around: shifting 123 by
    [2 ^ 64 - 1] allocates one byte, and the first store of the odd branch
    already lies outside it, at offset [2 ^ 64 - 1] (one byte before the
    buffer). *)
Example mul_bcd_pow_10_wrapped_count :
  mul_bcd_pow_10 (new_BCD_int1 123) (2 ^ 64 - 1)
  = Fault (OutOfBounds Write (2 ^ 64 - 1) 1).
Proof. vm_compute. reflexivity. Qed.

(** ** Multiplication: sign and zero *)

Lemma copy_summand :
  forall v, summand v -> exists r, copy_BCD_int v = Ok r /\ summand r.
Proof.
  intros v [Hn Hs Hz Hb Hr]. unfold copy_BCD_int.
  destruct (memcpy_buf_len (malloc (bcd_digits v)) (bcd_digits v) 0
              (data v) (bcd_digits v) 0 (bcd_digits v)) as (d & Hd & Hlen);
    try lia; auto.
  { apply buf_len_malloc. lia. }
  destruct Hr as (l & Hl & Hlen'). rewrite Hl in *. rewrite Hd. cbn [bind].
  eexists. split; [reflexivity |].
  constructor; simpl; auto. now apply buf_len_readable.
Qed.

Lemma add_carry_ok :
  forall n i xd ov z M,
    buf_len z (M + 1) -> readable xd M -> 0 <= i -> i + Z.of_nat n = M ->
    exists i' ov' z',
      add_carry n i xd ov z = Ok (i', ov', z')
      /\ buf_len z' (M + 1) /\ i <= i' <= M.
Proof.
  induction n as [| n IH]; intros i xd ov z M Hz Hx Hi HM.
  - exists i, ov, z. simpl. repeat split; auto; lia.
  - cbn [add_carry]. destruct ov.
    + destruct (load_readable _ _ i Hx ltac:(lia)) as (b & ->). cbn [bind].
      match goal with
      | |- context [store z i ?v] =>
          destruct (store_buf_len z (M + 1) i v Hz ltac:(lia)) as (z1 & -> & Hz1)
      end.
      cbn [bind].
      match goal with
      | |- context [add_carry n (i + 1) xd ?o z1] =>
          destruct (IH (i + 1) xd o z1 M Hz1 Hx ltac:(lia) ltac:(lia))
            as (i' & ov' & z' & -> & Hz' & Hi')
      end.
      exists i', ov', z'. repeat split; auto; lia.
    + exists i, false, z. repeat split; auto; lia.
Qed.

Lemma add_magnitudes_summand :
  forall x y,
    summand x -> summand y ->
    exists r, add_magnitudes x y = Ok r /\ summand r.
Proof.
  intros x y [Hxn Hxs Hxz Hxb Hxr] [Hyn Hys Hyz Hyb Hyr].
  unfold add_magnitudes.
  set (M := Z.max (bcd_digits x) (bcd_digits y)).
  set (m := Z.min (bcd_digits x) (bcd_digits y)).
  assert (HmM : 1 <= m <= M) by (subst m M; lia).
  assert (Hlong : readable (data (if bcd_digits x <? bcd_digits y then y else x)) M).
  { subst M. destruct (Z.ltb_spec (bcd_digits x) (bcd_digits y)).
    - now rewrite Z.max_r by lia.
    - now rewrite Z.max_l by lia. }
  run_for_up (fun (_ : Z) (t : buffer * bool) => buf_len (fst t) (M + 1)).
  { apply buf_len_malloc. lia. }
  { intros j [z ov] Hj Hz. simpl in Hz.
    destruct (load_readable _ _ j Hxr ltac:(lia)) as (a & ->). cbn [bind].
    destruct (load_readable _ _ j Hyr ltac:(lia)) as (b & ->). cbn [bind].
    destruct (add_pair a b ov) as [c ov'].
    destruct (store_buf_len z (M + 1) j c Hz ltac:(lia)) as (z1 & -> & Hz1).
    cbn [bind]. eexists. split; [reflexivity | exact Hz1]. }
  destruct s as [z ov]. simpl in HI.
  destruct (add_carry_ok (Z.to_nat (M - m)) m _ ov z M HI Hlong ltac:(lia) ltac:(lia))
    as (i' & ov' & z' & -> & Hz' & Hi').
  cbn [bind].
  assert (Hcp : exists z2,
             (if i' <? M
              then memcpy z' i' (data (if bcd_digits x <? bcd_digits y then y else x))
                          i' (M - i')
              else Ok z') = Ok z2 /\ buf_len z2 (M + 1)).
  { destruct (Z.ltb_spec i' M).
    - apply memcpy_buf_len with (m := M); auto; lia.
    - eauto. }
  destruct Hcp as (z2 & -> & Hz2). cbn [bind].
  destruct (store_buf_len z2 (M + 1) M (Z.b2z ov') Hz2 ltac:(lia)) as (z3 & -> & Hz3).
  cbn [bind].
  assert (Hdd : exists dd,
             (if ov' then Ok (M * 2 + 1)
              else top <- load z3 (M - 1) ;;
                   Ok (if nonzero (Z.land top 240) then M * 2 else M * 2 - 1))
             = Ok dd).
  { destruct ov'; [eauto |].
    destruct (load_readable z3 (M + 1) (M - 1) (buf_len_readable _ _ Hz3) ltac:(lia))
      as (top & ->). cbn [bind]. eauto. }
  destruct Hdd as (dd & ->). cbn [bind].
  destruct (load_readable z3 (M + 1) 0 (buf_len_readable _ _ Hz3) ltac:(lia))
    as (b0 & ->). cbn [bind].
  eexists. split; [reflexivity |].
  constructor; simpl; auto.
  - destruct ov'; simpl; lia.
  - destruct Hz3 as (l & -> & Hl). exists l. split; [reflexivity |].
    destruct ov'; simpl; lia.
Qed.

Lemma count_digits_nonneg : forall fuel a, 0 <= count_digits fuel a.
Proof.
  induction fuel as [| f IH]; intro a; cbn [count_digits]; [lia |].
  destruct (a <=? 0); [lia |]. specialize (IH (a / 10)). lia.
Qed.

Lemma count_digits_pos : forall fuel a, 0 < a -> 1 <= count_digits (S fuel) a.
Proof.
  intros fuel a Ha. cbn [count_digits].
  destruct (Z.leb_spec a 0); [lia |].
  pose proof (count_digits_nonneg fuel (a / 10)). lia.
Qed.

Lemma length_pack_pairs : forall n a, length (pack_pairs n a) = n.
Proof. induction n as [| n IH]; intro a; simpl; [| rewrite IH]; reflexivity. Qed.

(** [count_digits] is the number of decimal digits. *)
Lemma count_digits_spec :
  forall fuel a, 0 <= a < 10 ^ Z.of_nat fuel ->
    a < 10 ^ count_digits fuel a
    /\ (0 < a -> 10 ^ (count_digits fuel a - 1) <= a)
    /\ (a = 0 -> count_digits fuel a = 0).
Proof.
  induction fuel as [| fuel IH]; intros a Ha.
  - change (10 ^ Z.of_nat 0) with 1 in Ha. cbn [count_digits].
    repeat split; first [lia | cbn; lia].
  - cbn [count_digits]. destruct (Z.leb_spec a 0) as [H0 | Hpos].
    + repeat split; first [lia | cbn; lia].
    + rewrite Nat2Z.inj_succ, Z.pow_succ_r in Ha by lia.
      assert (Hq : 0 <= a / 10 < 10 ^ Z.of_nat fuel).
      { split; [apply Z.div_pos; lia |]. apply Z.div_lt_upper_bound; lia. }
      destruct (IH (a / 10) Hq) as (Hup & Hlo & Hz).
      pose proof (count_digits_nonneg fuel (a / 10)) as Hcd.
      pose proof (Z.div_mod a 10 ltac:(lia)) as Hdm.
      pose proof (Z.mod_pos_bound a 10 ltac:(lia)) as Hmb.
      replace (1 + count_digits fuel (a / 10) - 1)
        with (count_digits fuel (a / 10)) by lia.
      replace (1 + count_digits fuel (a / 10))
        with (Z.succ (count_digits fuel (a / 10))) by lia.
      rewrite Z.pow_succ_r by lia.
      repeat split; try lia.
      intros _. destruct (Z.eq_dec (a / 10) 0) as [E | E].
      * rewrite (Hz E). cbn. lia.
      * specialize (Hlo ltac:(lia)).
        replace (count_digits fuel (a / 10))
          with (Z.succ (count_digits fuel (a / 10) - 1)) by lia.
        rewrite Z.pow_succ_r; [lia |].
        destruct (Z.eq_dec (count_digits fuel (a / 10)) 0) as [E0 | E0]; [| lia].
        rewrite E0 in Hup. cbn in Hup. lia.
Qed.

Lemma count_digits_unique :
  forall fuel a c,
    0 < a -> 10 ^ (c - 1) <= a < 10 ^ c -> 1 <= c <= Z.of_nat fuel ->
    count_digits fuel a = c.
Proof.
  intros fuel a c Ha (Hlo & Hup) Hc.
  assert (Hfuel : 0 <= a < 10 ^ Z.of_nat fuel).
  { split; [lia |]. eapply Z.lt_le_trans; [exact Hup |].
    apply Z.pow_le_mono_r; lia. }
  destruct (count_digits_spec fuel a Hfuel) as (Hup' & Hlo' & _).
  specialize (Hlo' Ha).
  pose proof (count_digits_nonneg fuel a) as Hnn.
  destruct (Z.lt_trichotomy (count_digits fuel a) c) as [Hlt | [Heq | Hgt]];
    [| exact Heq |].
  - assert (10 ^ count_digits fuel a <= 10 ^ (c - 1))
      by (apply Z.pow_le_mono_r; lia).
    lia.
  - assert (10 ^ c <= 10 ^ (count_digits fuel a - 1))
      by (apply Z.pow_le_mono_r; lia).
    lia.
Qed.

Lemma count_digits_le :
  forall fuel a c,
    0 <= c -> 0 <= a < 10 ^ c -> a < 10 ^ Z.of_nat fuel ->
    count_digits fuel a <= c.
Proof.
  intros fuel a c Hc Ha Hfuel.
  destruct (count_digits_spec fuel a ltac:(lia)) as (_ & Hlo & Hz).
  destruct (Z.eq_dec a 0) as [E | E]; [rewrite (Hz E); lia |].
  specialize (Hlo ltac:(lia)).
  destruct (Z.le_gt_cases (count_digits fuel a) c) as [Hle | Hgt]; [exact Hle |].
  assert (10 ^ c <= 10 ^ (count_digits fuel a - 1))
    by (apply Z.pow_le_mono_r; lia).
  lia.
Qed.

Lemma log10_slack_small : forall k, k <= 14 -> log10_slack k = 0.
Proof.
  intros k Hk. unfold log10_slack.
  repeat match goal with
         | |- context [?a =? ?b] => destruct (Z.eqb_spec a b); [lia |]
         end.
  reflexivity.
Qed.

(** Up to [10 ^ 15] the double-precision computation is exact: it gives
    the number of decimal digits of [n - 1]. *)
Lemma ceil_log10_exact :
  forall n, 0 < n <= 10 ^ 15 -> ceil_log10 n = count_digits 20 (n - 1).
Proof.
  intros n Hn. unfold ceil_log10, to_double.
  replace (n <? 2 ^ 53) with true by (symmetry; apply Z.ltb_lt; lia).
  cbv zeta.
  replace (n <=? 0) with false by (symmetry; apply Z.leb_gt; lia).
  assert (Hfuel : 0 <= n < 10 ^ Z.of_nat 20)
    by (change (Z.of_nat 20) with 20; lia).
  destruct (count_digits_spec 20 n Hfuel) as (Hup & Hlo & _).
  specialize (Hlo ltac:(lia)).
  pose proof (count_digits_pos 19 n ltac:(lia)) as Hc1.
  set (c := count_digits 20 n) in *.
  assert (Hc15 : c - 1 <= 15).
  { destruct (Z.le_gt_cases (c - 1) 15) as [H | H]; [exact H |].
    assert (10 ^ 16 <= 10 ^ (c - 1)) by (apply Z.pow_le_mono_r; lia).
    lia. }
  assert (Hstep : 10 ^ c = 10 * 10 ^ (c - 1)).
  { replace c with (Z.succ (c - 1)) at 1 by lia. apply Z.pow_succ_r. lia. }
  assert (Hpos : 0 < 10 ^ (c - 1)) by (apply Z.pow_pos_nonneg; lia).
  destruct (Z.eq_dec n (10 ^ (c - 1))) as [E | E].
  - replace (n <=? 10 ^ (c - 1) + log10_slack (c - 1)) with true.
    + destruct (Z.eq_dec c 1) as [E1 | E1].
      * rewrite E1 in *. cbn in E. subst n. reflexivity.
      * symmetry. apply count_digits_unique; [| | lia].
        -- assert (1 < 10 ^ (c - 1)) by (apply Z.pow_gt_1; lia). lia.
        -- assert (Hs' : 10 ^ (c - 1) = 10 * 10 ^ (c - 1 - 1)).
           { replace (c - 1) with (Z.succ (c - 1 - 1)) at 1 by lia.
             apply Z.pow_succ_r. lia. }
           assert (0 < 10 ^ (c - 1 - 1)) by (apply Z.pow_pos_nonneg; lia).
           lia.
    + symmetry. apply Z.leb_le.
      assert (0 <= log10_slack (c - 1)).
      { unfold log10_slack.
        repeat match goal with
               | |- context [?a =? ?b] => destruct (Z.eqb_spec a b); [lia |]
               end.
        lia. }
      lia.
  - assert (Hk14 : c - 1 <= 14).
    { destruct (Z.eq_dec (c - 1) 15) as [E15 | E15]; [| lia].
      rewrite E15 in *. lia. }
    rewrite (log10_slack_small _ Hk14).
    replace (n <=? 10 ^ (c - 1) + 0) with false by (symmetry; apply Z.leb_gt; lia).
    replace (c - 1 + 1) with c by lia.
    symmetry. apply count_digits_unique; lia.
Qed.

(** At [10 ^ 15 + 1] and beyond the computed count falls short of the
    exact one: [new_BCD_int2] gives [10 ^ 15] a digit count of 15 where it
    has 16 digits, and [10 ^ 16] a buffer of eight zero bytes. *)
Example ceil_log10_rounds_down :
  ceil_log10 (10 ^ 15 + 1) = 15 /\ ceil_log10 (10 ^ 16 + 1) = 16
  /\ count_digits 20 (10 ^ 15) = 16 /\ count_digits 20 (10 ^ 16) = 17.
Proof. vm_compute. repeat split. Qed.

Lemma new_BCD_int2_digits :
  forall a neg, 0 <= a < 10 ^ 15 ->
    decimal_digits (new_BCD_int2 a neg) = count_digits 20 a.
Proof.
  intros a neg Ha. unfold new_BCD_int2. cbn [decimal_digits].
  unfold umax. rewrite Z.mod_small by lia.
  rewrite ceil_log10_exact by lia. f_equal. lia.
Qed.

(** The value built from a nonzero native integer. *)
Lemma new_BCD_int2_summand :
  forall a, 0 < a < 10 ^ 15 ->
    summand (new_BCD_int2 a false)
    /\ 1 <= decimal_digits (new_BCD_int2 a false)
    /\ bcd_digits (new_BCD_int2 a false)
       = (decimal_digits (new_BCD_int2 a false) + 1) / 2.
Proof.
  intros a Ha. unfold new_BCD_int2. cbn [decimal_digits bcd_digits].
  assert (Hdd : 1 <= ceil_log10 (umax (a + 1))).
  { unfold umax. rewrite Z.mod_small by lia.
    rewrite ceil_log10_exact by lia.
    replace (a + 1 - 1) with a by lia. apply count_digits_pos. lia. }
  set (dd := ceil_log10 (umax (a + 1))) in *.
  assert (Hbd : 1 <= (dd + 1) / 2).
  { apply Z.div_le_lower_bound; lia. }
  split; [| split; [exact Hdd | reflexivity]].
  constructor; cbn; auto.
  - apply Z.eqb_neq. lia.
  - eexists. split; [reflexivity |]. rewrite length_pack_pairs. lia.
Qed.

(** Shifting such a value by an even, positive number of digits, when the
    digit count of the result is a [size_t]. *)
Lemma mul_bcd_pow_10_even_summand :
  forall x p,
    summand x -> bcd_digits x = (decimal_digits x + 1) / 2 ->
    0 < p -> p mod 2 = 0 ->
    0 <= decimal_digits x -> decimal_digits x + p + 1 < 2 ^ 64 ->
    exists r, mul_bcd_pow_10 x p = Ok r /\ summand r.
Proof.
  intros x p [Hn Hs Hz Hb Hr] Hbd Hp Hev Hdd0 Hfit.
  unfold mul_bcd_pow_10. rewrite Hn, Hz.
  replace (p =? 0) with false by (symmetry; apply Z.eqb_neq; lia).
  rewrite Hev. cbn [Z.eqb].
  assert (U1 : umax (decimal_digits x + p) = decimal_digits x + p)
    by (apply Z.mod_small; lia).
  assert (U2 : umax (decimal_digits x + p + 1) = decimal_digits x + p + 1)
    by (apply Z.mod_small; lia).
  rewrite U1, U2.
  assert (Hq : (decimal_digits x + p + 1) / 2 = bcd_digits x + p / 2).
  { rewrite Hbd.
    rewrite (Z.div_mod p 2) at 1 by lia. rewrite Hev.
    replace (decimal_digits x + (2 * (p / 2) + 0) + 1)
      with (decimal_digits x + 1 + (p / 2) * 2) by lia.
    now rewrite Z.div_add by lia. }
  rewrite Hq.
  assert (Hp2 : 0 <= p / 2 < 2 ^ 64).
  { split; [apply Z.div_pos; lia |]. apply Z.div_lt_upper_bound; lia. }
  assert (U3 : umax (bcd_digits x + p / 2 - bcd_digits x) = p / 2)
    by (unfold umax; rewrite Z.mod_small; lia).
  rewrite U3.
  destruct (memcpy_buf_len (malloc (bcd_digits x + p / 2)) (bcd_digits x + p / 2)
              (p / 2)
              (data x) (bcd_digits x) 0 (bcd_digits x)) as (d & -> & Hd);
    try lia; auto.
  { apply buf_len_malloc. lia. }
  cbn [bind]. eexists. split; [reflexivity |].
  constructor; cbn; auto; try lia.
  now apply buf_len_readable.
Qed.

(** Adding an addend to the running sum, which is [BCD_zero] at first. *)
Lemma iadd_bcd_summand :
  forall acc b,
    acc = BCD_zero \/ summand acc -> summand b ->
    exists r, iadd_bcd acc b = Ok r /\ summand r.
Proof.
  intros acc b Hacc [Hn Hs Hz Hb Hr].
  assert (Hsb : summand b) by (constructor; auto).
  unfold iadd_bcd, replace_with, add_bcd. cbn [add_bcd_depth].
  destruct Hacc as [-> | [Han Has Haz Hab Har]].
  - cbn [nan zero BCD_zero]. rewrite Hn, Hz. cbn [orb andb].
    destruct (copy_summand b Hsb) as (r & -> & Hsr). cbn [bind]. eauto.
  - rewrite Han, Hn, Haz, Hz, Has, Hs. cbn [orb andb Bool.eqb negb].
    destruct (add_magnitudes_summand acc b) as (r & -> & Hsr);
      [constructor; auto | exact Hsb |].
    cbn [bind]. eauto.
Qed.

Lemma mul_dig_pair_range : forall a b, 0 <= mul_dig_pair a b < 65536.
Proof. intros a b. unfold mul_dig_pair, u16. apply Z.mod_pos_bound. lia. Qed.

(** Closes an instance of the loop invariant of [mul_accumulate]. *)
Ltac close_invariant :=
  cbn [fst snd]; repeat split;
  first [assumption | lia | reflexivity | now left | now right].

(** The digit count of a partial product, which is below [2 ^ 16]. *)
Lemma staging_digits :
  forall st, 0 < st < 65536 ->
    1 <= decimal_digits (new_BCD_int2 st false) <= 5.
Proof.
  intros st Hst. rewrite new_BCD_int2_digits by lia. split.
  - apply count_digits_pos. lia.
  - apply count_digits_le; [lia | lia | change (Z.of_nat 20) with 20; lia].
Qed.

(** With finite nonzero operands whose byte counts leave room for the
    digit count of the product, [mul_bcd] returns, and the running sum it
    returns is [BCD_zero] or a [summand] before the sign is set. *)
Lemma mul_bcd_loops :
  forall x y,
    finite x = true -> finite y = true ->
    2 * (bcd_digits x + bcd_digits y) + 2 < 2 ^ 64 ->
    exists acc p,
      mul_accumulate x y BCD_zero = Ok (acc, p)
      /\ (acc = BCD_zero \/ summand acc).
Proof.
  intros x y Hx Hy Hsz.
  destruct (finite_elim x Hx) as (Hxn & Hxb & Hxr).
  destruct (finite_elim y Hy) as (Hyn & Hyb & Hyr).
  pose (Inv := fun (i : Z) (t : BCD_int * Z) =>
                 (fst t = BCD_zero \/ summand (fst t)) /\ snd t = 2 * i).
  unfold mul_accumulate.
  run_for_up Inv.
  { subst Inv; close_invariant. }
  { intros i [acc ip] Hi (Hacc & Hip). cbn [fst snd] in *.
    rewrite Z2Nat.id in Hi by lia.
    assert (Hxr' : readable (data x) (bcd_digits x)) by (apply Hxr; lia).
    pose (Inv2 := fun (j : Z) (t : BCD_int * Z) =>
                    (fst t = BCD_zero \/ summand (fst t))
                    /\ snd t = 2 * (i + j)).
    run_for_up Inv2.
    { subst Inv2; close_invariant. }
    { intros j [acc' pw] Hj (Hacc' & Hpw). cbn [fst snd] in *.
      rewrite Z2Nat.id in Hj by lia.
      assert (Hyr' : readable (data y) (bcd_digits y)) by (apply Hyr; lia).
      destruct (load_readable _ _ i Hxr' ltac:(lia)) as (xi & ->). cbn [bind].
      destruct (load_readable _ _ j Hyr' ltac:(lia)) as (yj & ->). cbn [bind].
      cbv zeta.
      pose proof (mul_dig_pair_range xi yj) as Hst.
      assert (Hum : umax (pw + 2) = 2 * (i + (j + 1))).
      { unfold umax. rewrite Z.mod_small; lia. }
      assert (Hpwe : pw mod 2 = 0).
      { rewrite Hpw. replace (2 * (i + j)) with ((i + j) * 2) by lia.
        apply Z.mod_mul. lia. }
      rewrite Hum.
      destruct (Z.eqb_spec (mul_dig_pair xi yj) 0) as [Hz0 | Hnz0].
      - eexists. split; [reflexivity |]. subst Inv2; close_invariant.
      - destruct (new_BCD_int2_summand (mul_dig_pair xi yj) ltac:(lia))
          as (Hsa & Hdd & Hbd).
        pose proof (staging_digits (mul_dig_pair xi yj) ltac:(lia)) as Hd5.
        assert (Hsh : exists ad,
                   (if nonzero pw
                    then imul_bcd_pow_10 (new_BCD_int2 (mul_dig_pair xi yj) false) pw
                    else Ok (new_BCD_int2 (mul_dig_pair xi yj) false)) = Ok ad
                   /\ summand ad).
        { unfold nonzero. destruct (Z.eqb_spec pw 0); cbn [negb]; [eauto |].
          unfold imul_bcd_pow_10, replace_with.
          destruct (mul_bcd_pow_10_even_summand _ pw Hsa Hbd ltac:(lia) Hpwe
                      ltac:(lia) ltac:(lia))
            as (r & -> & Hr).
          cbn [bind]. eauto. }
        destruct Hsh as (ad & -> & Had). cbn [bind].
        destruct (iadd_bcd_summand acc' ad Hacc' Had) as (r & -> & Hr).
        cbn [bind]. eexists. split; [reflexivity |]. subst Inv2; close_invariant. }
    destruct s as [acc' pw]. destruct HI as (Hacc' & _). cbn [fst] in Hacc'.
    assert (Hum : umax (ip + 2) = 2 * (i + 1)).
    { unfold umax. rewrite Z.mod_small; lia. }
    rewrite Hum.
    eexists. split; [reflexivity |]. subst Inv; close_invariant. }
  destruct s as [acc p]. destruct HI as (Hacc & _).
  exists acc, p. split; [reflexivity | exact Hacc].
Qed.

(** A negative number times zero: exactly one operand is negative, the
    product is the non-negative zero constant. *)
Lemma mul_bcd_negative_by_zero :
  exists r,
    mul_bcd (new_BCD_int1 (-3)) BCD_zero = Ok r
    /\ finite (new_BCD_int1 (-3)) = true /\ finite BCD_zero = true
    /\ xorb (negative (new_BCD_int1 (-3))) (negative BCD_zero) = true
    /\ negative r = false.
Proof. eexists. repeat split. Qed.

(** Where a partial product is shifted so far that its digit count no
    longer is a [size_t], the shift faults: the byte count
    [(decimal_digits + 1) / 2] of 5 shifted by [2 ^ 64 - 2] digits wraps
    around to 0.  [mul_bcd] reaches this shift amount at byte offsets
    [i + j = 2 ^ 63 - 1]. *)
Example mul_bcd_pow_10_even_wrapped :
  mul_bcd_pow_10 (new_BCD_int2 5 false) (2 ^ 64 - 2)
  = Fault (OutOfBounds Write (2 ^ 64 - 1) 0).
Proof. vm_compute. reflexivity. Qed.

(** C8 (amended): for finite operands whose zero flags are both clear,
    and whose byte counts satisfy [2 * (bcd_digits x + bcd_digits y) + 2
    < 2 ^ 64] (no digit count of a shifted partial product wraps around),
    [mul_bcd] returns a finite value that is negative exactly when one of
    the operands is; when either zero flag is set it returns the
    (non-negative) zero constant. *)
Theorem mul_bcd_sign_and_zero
  (x y : BCD_int) (Hx : finite x = true) (Hy : finite y = true) :
  (zero x = false -> zero y = false ->
   2 * (bcd_digits x + bcd_digits y) + 2 < 2 ^ 64 ->
   exists r, mul_bcd x y = Ok r
             /\ nan r = false
             /\ negative r = xorb (negative x) (negative y))
  /\ (zero x = true \/ zero y = true -> mul_bcd x y = Ok BCD_zero).
Proof.
  destruct (finite_elim x Hx) as (Hxn & _).
  destruct (finite_elim y Hy) as (Hyn & _).
  split.
  - intros Hxz Hyz Hsz. unfold mul_bcd.
    rewrite Hxn, Hyn, Hxz, Hyz. cbn [orb].
    destruct (mul_bcd_loops x y Hx Hy Hsz) as (acc & p & -> & Hacc). cbn [bind].
    eexists. split; [reflexivity |]. split.
    + destruct Hacc as [-> | [Hn _ _ _ _]]; [reflexivity | exact Hn].
    + cbn. now destruct (negative x), (negative y).
  - intros Hz. unfold mul_bcd. rewrite Hxn, Hyn. cbn [orb].
    destruct Hz as [-> | ->]; [reflexivity |].
    now rewrite orb_true_r.
Qed.

Lemma mul_bcd_sign_and_zero_witness :
  (exists r, mul_bcd (new_BCD_int1 (-91)) (new_BCD_int1 99) = Ok r
             /\ nan r = false /\ negative r = true)
  /\ mul_bcd (new_BCD_int1 (-3)) BCD_zero = Ok BCD_zero.
Proof.
  split.
  - apply (proj1 (mul_bcd_sign_and_zero (new_BCD_int1 (-91)) (new_BCD_int1 99)
                    eq_refl eq_refl)); reflexivity.
  - apply (proj2 (mul_bcd_sign_and_zero (new_BCD_int1 (-3)) BCD_zero
                    eq_refl eq_refl)). right. reflexivity.
Defined.

(** ** Comparison and the order of the integers *)

Lemma all_bytes :
  forallb byte_facts (map Z.of_nat (seq 0 256)) = true.
Proof. vm_compute. reflexivity. Qed.

Lemma valid_pair_byte : forall b, valid_pair b = true -> 0 <= b < 256.
Proof.
  intros b H. unfold valid_pair in H.
  apply andb_true_iff in H. destruct H as [H _].
  apply andb_true_iff in H. destruct H as [H0 H1].
  rewrite Z.shiftr_div_pow2 in H1 by lia.
  change (2 ^ 4) with 16 in H1.
  apply Z.leb_le in H0, H1.
  pose proof (Z.div_mod b 16 ltac:(lia)). pose proof (Z.mod_pos_bound b 16 ltac:(lia)).
  lia.
Qed.

Lemma valid_pair_facts :
  forall b, valid_pair b = true ->
    b < 160
    /\ 0 <= pair_value b <= 99
    /\ pair_value b = 10 * (b / 16) + b mod 16
    /\ b mod 16 <= 9
    /\ (b <> 0 -> 1 <= pair_value b)
    /\ (if nonzero (Z.land b 240) then 10 <= pair_value b else pair_value b <= 9).
Proof.
  intros b Hv. pose proof (valid_pair_byte b Hv) as Hb.
  pose proof all_bytes as Hall. rewrite forallb_forall in Hall.
  assert (Hin : In b (map Z.of_nat (seq 0 256))).
  { apply in_map_iff. exists (Z.to_nat b). split; [lia |].
    apply in_seq. lia. }
  specialize (Hall b Hin). unfold byte_facts in Hall. rewrite Hv in Hall.
  cbn [implb] in Hall.
  repeat (apply andb_true_iff in Hall; destruct Hall as [Hall ?]).
  repeat split; try lia.
  - unfold nonzero in H0. intro Hne. apply Z.eqb_neq in Hne. rewrite Hne in H0.
    cbn in H0. lia.
  - destruct (nonzero (Z.land b 240)); lia.
Qed.

Lemma pair_value_mono :
  forall a b, valid_pair a = true -> valid_pair b = true ->
    a < b -> pair_value a < pair_value b.
Proof.
  intros a b Ha Hb Hlt.
  destruct (valid_pair_facts a Ha) as (_ & _ & Ea & Ha9 & _).
  destruct (valid_pair_facts b Hb) as (_ & _ & Eb & Hb9 & _).
  pose proof (valid_pair_byte a Ha). pose proof (valid_pair_byte b Hb).
  rewrite Ea, Eb.
  pose proof (Z.div_mod a 16 ltac:(lia)). pose proof (Z.mod_pos_bound a 16 ltac:(lia)).
  pose proof (Z.div_mod b 16 ltac:(lia)). pose proof (Z.mod_pos_bound b 16 ltac:(lia)).
  lia.
Qed.

Lemma magnitude_app :
  forall l b,
    magnitude (l ++ [b]) = magnitude l + 100 ^ Z.of_nat (length l) * pair_value b.
Proof.
  induction l as [| h t IH]; intro b.
  - cbn [app magnitude length]. change (100 ^ Z.of_nat 0) with 1. lia.
  - cbn [app magnitude length]. rewrite IH.
    rewrite Nat2Z.inj_succ, Z.pow_succ_r by lia. ring.
Qed.

Lemma magnitude_range :
  forall l, forallb valid_pair l = true ->
    0 <= magnitude l < 100 ^ Z.of_nat (length l).
Proof.
  induction l as [| h t IH]; intro Hv.
  - cbn. lia.
  - cbn [forallb] in Hv. apply andb_true_iff in Hv. destruct Hv as [Hh Ht].
    specialize (IH Ht). destruct (valid_pair_facts h Hh) as (_ & Hr & _).
    cbn [magnitude length]. rewrite Nat2Z.inj_succ, Z.pow_succ_r by lia. lia.
Qed.

Lemma pow_100_pos : forall n, 0 < 100 ^ Z.of_nat n.
Proof. intro n. apply Z.pow_pos_nonneg; lia. Qed.

Lemma firstn_S_snoc :
  forall (l : list Z) n, (n < length l)%nat ->
    firstn (S n) l = firstn n l ++ [nth n l 0].
Proof.
  induction l as [| h t IH]; intros n Hn; [cbn in Hn; lia |].
  destruct n as [| n]; [reflexivity |].
  cbn [firstn nth app]. f_equal. apply IH. cbn in Hn. lia.
Qed.

Lemma load_nth :
  forall l n, (n < length l)%nat -> load (Some l) (Z.of_nat n) = Ok (nth n l 0).
Proof.
  intros l n Hn. unfold load. rewrite in_range_true by lia.
  now rewrite Nat2Z.id.
Qed.

(** The byte scan decides as the magnitudes of the scanned bytes compare. *)
Lemma cmp_scan_magnitude :
  forall x y lx ly,
    data x = Some lx -> data y = Some ly ->
    forall n,
      (n <= length lx)%nat -> (n <= length ly)%nat ->
      forallb valid_pair (firstn n lx) = true ->
      forallb valid_pair (firstn n ly) = true ->
      cmp_scan n x y
      = Ok (oriented (negative x)
              (magnitude (firstn n lx) ?= magnitude (firstn n ly))).
Proof.
  intros x y lx ly Hx Hy. induction n as [| n IH]; intros Hnx Hny Hvx Hvy.
  - reflexivity.
  - rewrite firstn_S_snoc in Hvx, Hvy |- * by lia.
    rewrite firstn_S_snoc by lia.
    rewrite forallb_app in Hvx, Hvy.
    apply andb_true_iff in Hvx, Hvy.
    destruct Hvx as [Hvx Hva], Hvy as [Hvy Hvb].
    cbn [forallb] in Hva, Hvb. rewrite andb_true_r in Hva, Hvb.
    cbn [cmp_scan]. rewrite Hx, Hy, !load_nth by lia. cbn [bind].
    rewrite !magnitude_app.
    rewrite !length_firstn, !Nat.min_l by lia.
    pose proof (magnitude_range _ Hvx) as Rx.
    pose proof (magnitude_range _ Hvy) as Ry.
    rewrite length_firstn, Nat.min_l in Rx, Ry by lia.
    pose proof (pow_100_pos n) as HW.
    set (W := 100 ^ Z.of_nat n) in *.
    set (a := nth n lx 0) in *. set (b := nth n ly 0) in *.
    destruct (Z.eqb_spec a b) as [Heq | Hne]; cbn [negb].
    + rewrite IH by (auto; lia). rewrite Heq.
      rewrite (Z.add_comm (magnitude (firstn n lx))).
      rewrite (Z.add_comm (magnitude (firstn n ly))).
      now rewrite Z.add_compare_mono_l.
    + destruct (Z.gtb_spec a b) as [Hgt | Hle].
      * pose proof (pair_value_mono b a Hvb Hva ltac:(lia)) as Hm.
        replace (magnitude (firstn n lx) + W * pair_value a
                 ?= magnitude (firstn n ly) + W * pair_value b) with Gt
          by (symmetry; apply Z.compare_gt_iff; nia).
        now destruct (negative x).
      * pose proof (pair_value_mono a b Hva Hvb ltac:(lia)) as Hm.
        replace (magnitude (firstn n lx) + W * pair_value a
                 ?= magnitude (firstn n ly) + W * pair_value b) with Lt
          by (symmetry; apply Z.compare_lt_iff; nia).
        now destruct (negative x).
Qed.

Lemma digits_of_length :
  forall x, finite x = true -> Z.of_nat (length (digits_of x)) = bcd_digits x.
Proof.
  intros x H. unfold finite in H. apply andb_true_iff in H. destruct H as [_ H].
  unfold digits_of. destruct (data x) as [l |].
  - apply andb_true_iff in H. rewrite length_firstn. lia.
  - apply Z.eqb_eq in H. cbn. lia.
Qed.

Lemma pow_10_even : forall k, 0 <= k -> 10 ^ (2 * k) = 100 ^ k.
Proof. intros k Hk. now rewrite Z.pow_mul_r by lia. Qed.

(** The decimal-digit count of a canonical value brackets its magnitude. *)
Lemma canonical_magnitude :
  forall x, canonical x = true ->
    bcd_digits x = (decimal_digits x + 1) / 2
    /\ ((bcd_digits x = 0 /\ decimal_digits x = 0 /\ magnitude (digits_of x) = 0)
        \/ (0 < bcd_digits x /\ 1 <= decimal_digits x
            /\ 10 ^ (decimal_digits x - 1) <= magnitude (digits_of x)
               < 10 ^ decimal_digits x)).
Proof.
  intros x Hc.
  pose proof (digits_of_length x (canonical_finite x Hc)) as Hlen.
  destruct (canonical_elim x Hc) as (_ & Hb0 & _ & Hv & Hcnt & _).
  unfold canonical_counts in Hcnt.
  destruct (Z.eqb_spec (bcd_digits x) 0) as [Hz | Hnz].
  - apply Z.eqb_eq in Hcnt. rewrite Hz, Hcnt. split; [reflexivity |].
    left. repeat split.
    destruct (digits_of x); [reflexivity | cbn in Hlen; lia].
  - apply andb_true_iff in Hcnt. destruct Hcnt as [Htop Hdd].
    apply Z.eqb_eq in Hdd.
    assert (Hne : digits_of x <> []).
    { intro E. rewrite E in Hlen. cbn in Hlen. lia. }
    pose proof (app_removelast_last 0 Hne) as Hsplit.
    set (R := removelast (digits_of x)) in *.
    set (t := last (digits_of x) 0) in *.
    assert (HlenR : Z.of_nat (length R) = bcd_digits x - 1).
    { rewrite Hsplit, length_app in Hlen. cbn in Hlen. lia. }
    rewrite Hsplit in Hv |- *. rewrite forallb_app in Hv.
    apply andb_true_iff in Hv. destruct Hv as [HvR Hvt].
    cbn [forallb] in Hvt. rewrite andb_true_r in Hvt.
    rewrite magnitude_app.
    pose proof (magnitude_range R HvR) as HR.
    pose proof (pow_100_pos (length R)) as HW.
    rewrite HlenR in *.
    set (k := bcd_digits x - 1) in *.
    assert (Hk : 0 <= k) by (subst k; lia).
    destruct (valid_pair_facts t Hvt) as (_ & Hr & _ & _ & Hnz1 & Hnib).
    assert (Ht1 : 1 <= pair_value t).
    { apply Hnz1. unfold nonzero in Htop. apply negb_true_iff in Htop.
      now apply Z.eqb_neq. }
    set (W := 100 ^ k) in *.
    destruct (nonzero (Z.land t 240)).
    + assert (E : decimal_digits x = 2 * k + 2) by (subst k; lia).
      split.
      { rewrite E. replace (2 * k + 2 + 1) with (1 + (k + 1) * 2) by lia.
        rewrite Z.div_add by lia. subst k. cbn. lia. }
      right. split; [lia |]. split; [lia |].
      rewrite E.
      replace (2 * k + 2 - 1) with (Z.succ (2 * k)) by lia.
      replace (2 * k + 2) with (Z.succ (Z.succ (2 * k))) by lia.
      rewrite !Z.pow_succ_r by lia. rewrite pow_10_even by lia. fold W. nia.
    + assert (E : decimal_digits x = 2 * k + 1) by (subst k; lia).
      split.
      { rewrite E. replace (2 * k + 1 + 1) with (0 + (k + 1) * 2) by lia.
        rewrite Z.div_add by lia. subst k. cbn. lia. }
      right. split; [lia |]. split; [lia |].
      rewrite E.
      replace (2 * k + 1 - 1) with (2 * k) by lia.
      replace (2 * k + 1) with (Z.succ (2 * k)) by lia.
      rewrite !Z.pow_succ_r by lia. rewrite pow_10_even by lia. fold W. nia.
Qed.

Lemma oriented_value :
  forall s mx my,
    oriented s (mx ?= my)
    = comp_of ((if s then - mx else mx) ?= (if s then - my else my)).
Proof.
  intros [] mx my; cbn [oriented comp_of].
  - rewrite Z.compare_opp, (Z.compare_antisym mx my).
    now destruct (mx ?= my).
  - now destruct (mx ?= my).
Qed.

Lemma decimal_digits_lt_magnitude_lt :
  forall x y, canonical x = true -> canonical y = true ->
    decimal_digits x < decimal_digits y ->
    magnitude (digits_of x) < magnitude (digits_of y).
Proof.
  intros x y Hx Hy Hlt.
  destruct (canonical_magnitude x Hx) as (_ & [(_ & Hdx & Hmx) | (_ & Hdx & Hmx)]);
    destruct (canonical_magnitude y Hy) as (_ & [(_ & Hdy & Hmy) | (_ & Hdy & Hmy)]);
    try lia.
  assert (10 ^ decimal_digits x <= 10 ^ (decimal_digits y - 1))
    by (apply Z.pow_le_mono_r; lia).
  lia.
Qed.

Lemma canonical_nonzero_magnitude :
  forall x, canonical x = true -> zero x = false -> 0 < magnitude (digits_of x).
Proof.
  intros x Hx Hz.
  destruct (canonical_elim x Hx) as (_ & _ & _ & _ & _ & Hzb).
  rewrite Hz in Hzb. symmetry in Hzb. apply Z.eqb_neq in Hzb.
  destruct (canonical_magnitude x Hx) as (_ & [(Hb & _) | (_ & Hd & Hm)]); [lia |].
  assert (0 < 10 ^ (decimal_digits x - 1)) by (apply Z.pow_pos_nonneg; lia). lia.
Qed.

Lemma canonical_magnitude_nonneg :
  forall x, canonical x = true -> 0 <= magnitude (digits_of x).
Proof.
  intros x Hx. destruct (canonical_elim x Hx) as (_ & _ & _ & Hv & _).
  pose proof (magnitude_range _ Hv). lia.
Qed.

Lemma cmp_scan_not_no_comp : forall n x y, cmp_scan n x y <> Ok NO_COMP.
Proof.
  induction n as [| n IH]; intros x y; cbn [cmp_scan]; [discriminate |].
  destruct (load (data x) (Z.of_nat n)) as [a |]; cbn [bind]; [| discriminate].
  destruct (load (data y) (Z.of_nat n)) as [b |]; cbn [bind]; [| discriminate].
  destruct (negb (a =? b)); [| apply IH].
  destruct (negative x), (a >? b); discriminate.
Qed.

Lemma cmp_bcd_no_comp_iff :
  forall x y, cmp_bcd x y = Ok NO_COMP <-> nan x || nan y = true.
Proof.
  intros x y. unfold cmp_bcd. destruct (nan x || nan y).
  - split; reflexivity.
  - split; [| discriminate]. intro H. exfalso.
    destruct (negb (Bool.eqb (negative x) (negative y))).
    + destruct (negative x); discriminate.
    + destruct (negb (decimal_digits x =? decimal_digits y)).
      * destruct (decimal_digits x >? decimal_digits y), (negative x); discriminate.
      * now apply cmp_scan_not_no_comp in H.
Qed.

(** On canonical values of one sign and one digit count the scan compares
    the whole magnitudes. *)
Lemma cmp_scan_canonical :
  forall x y, canonical x = true -> canonical y = true ->
    decimal_digits x = decimal_digits y ->
    cmp_scan (Z.to_nat (bcd_digits x)) x y
    = Ok (oriented (negative x)
            (magnitude (digits_of x) ?= magnitude (digits_of y))).
Proof.
  intros x y Hx Hy Hdd.
  destruct (canonical_magnitude x Hx) as (Hbx & Hcx).
  destruct (canonical_magnitude y Hy) as (Hby & Hcy).
  assert (Hb : bcd_digits y = bcd_digits x) by congruence.
  destruct (canonical_elim x Hx) as (_ & Hx0 & Hxr & Hxv & _).
  destruct (canonical_elim y Hy) as (_ & Hy0 & Hyr & Hyv & _).
  destruct (Z.eq_dec (bcd_digits x) 0) as [Hz | Hnz].
  - rewrite Hz. cbn [Z.to_nat cmp_scan].
    destruct Hcx as [(_ & _ & ->) | ?]; [| lia].
    destruct Hcy as [(_ & _ & ->) | ?]; [| lia].
    reflexivity.
  - destruct (Hxr Hnz) as (lx & Hlx & Hlenx).
    destruct (Hyr ltac:(lia)) as (ly & Hly & Hleny).
    unfold digits_of in *. rewrite Hlx, Hly in *. rewrite Hb in *.
    apply cmp_scan_magnitude; auto; lia.
Qed.

(** The zero constant with its sign flipped is canonical and denotes 0,
    yet compares below the zero constant. *)
Lemma negative_zero_compares_less :
  exists nz,
    neg_bcd BCD_zero true = Ok nz
    /\ canonical nz = true /\ canonical BCD_zero = true
    /\ value nz = value BCD_zero
    /\ cmp_bcd nz BCD_zero = Ok LESS_THAN
    /\ comp_of (value nz ?= value BCD_zero) = EQUAL_TO.
Proof. eexists. repeat split. Qed.

(** C5 (amended): [cmp_bcd] returns the "no comparison" result exactly when
    an operand is in the Error state.  On finite operands it decides by
    sign first (the negative one is less), then by decimal-digit count
    (the longer magnitude wins, inverted for negatives), then by the byte
    scan from the most significant byte.  For canonical operands whose
    zero values do not carry the negative flag, the result is the order
    of the two integers. *)
Theorem cmp_bcd_order (x y : BCD_int) :
  (cmp_bcd x y = Ok NO_COMP <-> nan x || nan y = true)
  /\ (nan x = false -> nan y = false ->
      (negative x <> negative y ->
       cmp_bcd x y = Ok (if negative x then LESS_THAN else GREATER_THAN))
      /\ (negative x = negative y -> decimal_digits x <> decimal_digits y ->
          cmp_bcd x y
          = Ok (oriented (negative x) (decimal_digits x ?= decimal_digits y)))
      /\ (negative x = negative y -> decimal_digits x = decimal_digits y ->
          cmp_bcd x y = cmp_scan (Z.to_nat (bcd_digits x)) x y))
  /\ (canonical x = true -> canonical y = true ->
      unsigned_zero x = true -> unsigned_zero y = true ->
      cmp_bcd x y = Ok (comp_of (value x ?= value y))).
Proof.
  split; [apply cmp_bcd_no_comp_iff |].
  assert (Steps :
    nan x = false -> nan y = false ->
    (negative x <> negative y ->
     cmp_bcd x y = Ok (if negative x then LESS_THAN else GREATER_THAN))
    /\ (negative x = negative y -> decimal_digits x <> decimal_digits y ->
        cmp_bcd x y
        = Ok (oriented (negative x) (decimal_digits x ?= decimal_digits y)))
    /\ (negative x = negative y -> decimal_digits x = decimal_digits y ->
        cmp_bcd x y = cmp_scan (Z.to_nat (bcd_digits x)) x y)).
  { intros Hxn Hyn. unfold cmp_bcd. rewrite Hxn, Hyn. cbn [orb].
    split; [| split].
    - intro Hs.
      replace (Bool.eqb (negative x) (negative y)) with false
        by (symmetry; apply eqb_false_iff; exact Hs).
      reflexivity.
    - intros Hs Hd. rewrite Hs, eqb_reflx. cbn [negb].
      replace (decimal_digits x =? decimal_digits y) with false
        by (symmetry; now apply Z.eqb_neq).
      cbn [negb]. unfold Z.gtb.
      destruct (decimal_digits x ?= decimal_digits y) eqn:E; try reflexivity.
      apply Z.compare_eq in E. contradiction.
    - intros Hs Hd. rewrite Hs, eqb_reflx, Hd, Z.eqb_refl. reflexivity. }
  split; [exact Steps |].
  intros Hx Hy Hux Huy.
  destruct (canonical_elim x Hx) as (Hxn & _ & _ & _ & _ & Hxz).
  destruct (canonical_elim y Hy) as (Hyn & _ & _ & _ & _ & Hyz).
  destruct (Steps Hxn Hyn) as (Hsign & Hcount & Hscan).
  pose proof (canonical_magnitude_nonneg x Hx) as Hmx.
  pose proof (canonical_magnitude_nonneg y Hy) as Hmy.
  unfold unsigned_zero in Hux, Huy.
  destruct (bool_dec (negative x) (negative y)) as [Hs | Hs].
  - unfold value. rewrite <- Hs, <- oriented_value.
    destruct (Z.eq_dec (decimal_digits x) (decimal_digits y)) as [Hd | Hd].
    + rewrite (Hscan Hs Hd). now apply cmp_scan_canonical.
    + rewrite (Hcount Hs Hd). f_equal. f_equal.
      destruct (Z.lt_total (decimal_digits x) (decimal_digits y)) as [Hlt | [? | Hgt]];
        [| contradiction |].
      * pose proof (decimal_digits_lt_magnitude_lt x y Hx Hy Hlt).
        transitivity Lt; [| symmetry]; apply Z.compare_lt_iff; lia.
      * pose proof (decimal_digits_lt_magnitude_lt y x Hy Hx Hgt).
        transitivity Gt; [| symmetry]; apply Z.compare_gt_iff; lia.
  - rewrite (Hsign Hs). f_equal. unfold value.
    destruct (negative x) eqn:Ex, (negative y) eqn:Ey; try contradiction.
    + rewrite andb_true_r in Hux. apply negb_true_iff in Hux.
      pose proof (canonical_nonzero_magnitude x Hx Hux).
      replace (- magnitude (digits_of x) ?= magnitude (digits_of y)) with Lt
        by (symmetry; apply Z.compare_lt_iff; lia).
      reflexivity.
    + rewrite andb_true_r in Huy. apply negb_true_iff in Huy.
      pose proof (canonical_nonzero_magnitude y Hy Huy).
      replace (magnitude (digits_of x) ?= - magnitude (digits_of y)) with Gt
        by (symmetry; apply Z.compare_gt_iff; lia).
      reflexivity.
Qed.

Lemma cmp_bcd_order_witness :
  cmp_bcd (new_BCD_int1 (-1234)) (new_BCD_int1 (-1243)) = Ok GREATER_THAN
  /\ cmp_bcd (new_BCD_int1 7) (new_BCD_int1 (-1243)) = Ok GREATER_THAN
  /\ cmp_bcd (new_BCD_int1 99) (new_BCD_int1 100) = Ok LESS_THAN.
Proof.
  split; [| split].
  - apply (proj2 (proj2 (cmp_bcd_order (new_BCD_int1 (-1234)) (new_BCD_int1 (-1243)))));
      reflexivity.
  - apply (proj1 (proj1 (proj2 (cmp_bcd_order (new_BCD_int1 7) (new_BCD_int1 (-1243))))
                    eq_refl eq_refl)).
    discriminate.
  - apply (proj1 (proj2 (proj1 (proj2 (cmp_bcd_order (new_BCD_int1 99) (new_BCD_int1 100)))
                           eq_refl eq_refl))); [reflexivity | discriminate].
Defined.

(** ** Truth tests *)

(** C9: [bool_bcd] returns the zero flag and [not_bcd] its negation, so
    each is the logical opposite of the other and of the documented
    nonzero / zero test: on a canonical value [bool_bcd] is true exactly
    when the value denotes 0, and on a value built from a native integer
    [a] exactly when [a] is 0. *)
Theorem truth_tests_follow_zero_flag (x : BCD_int) :
  bool_bcd x = zero x
  /\ not_bcd x = negb (zero x)
  /\ bool_bcd x = negb (not_bcd x)
  /\ (canonical x = true -> (bool_bcd x = true <-> value x = 0))
  /\ (forall a neg, bool_bcd (new_BCD_int2 a neg) = (a =? 0)).
Proof.
  unfold bool_bcd, not_bcd.
  split; [reflexivity |]. split; [reflexivity |].
  split; [now rewrite negb_involutive |].
  split; [| reflexivity].
  intro Hc. split.
  - intro Hz. destruct (canonical_elim x Hc) as (_ & _ & _ & _ & _ & Hzb).
    rewrite Hz in Hzb. symmetry in Hzb. apply Z.eqb_eq in Hzb.
    destruct (canonical_magnitude x Hc) as (_ & [(_ & _ & Hm) | (? & _)]); [| lia].
    unfold value. rewrite Hm. now destruct (negative x).
  - intro Hv. destruct (zero x) eqn:Hz; [reflexivity |].
    pose proof (canonical_nonzero_magnitude x Hc Hz).
    unfold value in Hv. destruct (negative x); lia.
Qed.

Lemma truth_tests_follow_zero_flag_witness :
  bool_bcd (new_BCD_int1 5) = false
  /\ not_bcd (new_BCD_int1 5) = true
  /\ (bool_bcd (new_BCD_int1 0) = true <-> value (new_BCD_int1 0) = 0).
Proof.
  pose proof (truth_tests_follow_zero_flag (new_BCD_int1 5)) as H5.
  pose proof (truth_tests_follow_zero_flag (new_BCD_int1 0)) as H0.
  split; [rewrite (proj1 H5); reflexivity |].
  split; [rewrite (proj1 (proj2 H5)); reflexivity |].
  apply (proj1 (proj2 (proj2 (proj2 H0)))). reflexivity.
Defined.

(** ** The digit count of [BCD_from_bytes] *)

Lemma memcpy_whole :
  forall l : list Z,
    memcpy (malloc (Z.of_nat (length l))) 0 (Some l) 0 (Z.of_nat (length l))
    = Ok (Some l).
Proof.
  intro l. unfold memcpy, malloc.
  rewrite repeat_length, Nat2Z.id.
  replace ((0 <=? 0) && (0 + Z.of_nat (length l) <=? Z.of_nat (length l)))
    with true by (symmetry; apply andb_true_iff; split; lia).
  cbn [negb]. do 2 f_equal.
  replace (Z.to_nat (0 + Z.of_nat (length l))) with (length l) by lia.
  cbn [Z.to_nat firstn skipn app].
  rewrite firstn_all.
  rewrite skipn_all2 by (rewrite repeat_length; lia).
  apply app_nil_r.
Qed.

Lemma last_nth : forall l : list Z, last l 0 = nth (length l - 1) l 0.
Proof.
  induction l as [| h t IH]; [reflexivity |].
  destruct t as [| h' t']; [reflexivity |].
  cbn [last] in *. rewrite IH. cbn [length nth].
  now replace (S (S (length t')) - 1)%nat with (S (length t' - 0)) by lia.
Qed.

(** Beyond the single failing input of C4: whenever the most significant
    input byte is nonzero, [BCD_from_bytes] keeps all the bytes and
    reports one decimal digit less than the canonical count. *)
Lemma BCD_from_bytes_counts_one_short :
  forall (l : list Z) (neg : bool),
    l <> [] -> last l 0 <> 0 ->
    exists r,
      BCD_from_bytes (Some l) (Z.of_nat (length l)) neg true = Ok r
      /\ data r = Some l
      /\ bcd_digits r = Z.of_nat (length l)
      /\ decimal_digits r
         = (if nonzero (Z.land (last l 0) 240)
            then 2 * bcd_digits r else 2 * bcd_digits r - 1) - 1
      /\ canonical_counts r = false.
Proof.
  intros l neg Hne Htop.
  assert (Hlen : (0 < length l)%nat) by (destruct l; [contradiction | cbn; lia]).
  unfold BCD_from_bytes.
  replace (Z.of_nat (length l) =? 0) with false by (symmetry; apply Z.eqb_neq; lia).
  rewrite memcpy_whole. cbn [bind]. rewrite Nat2Z.id.
  destruct (length l) as [| n] eqn:El; [lia |].
  cbn [top_nonzero]. rewrite load_nth by lia. cbn [bind].
  assert (Hnth : nth n l 0 = last l 0).
  { rewrite last_nth, El. f_equal. lia. }
  rewrite Hnth. unfold nonzero at 1.
  replace (last l 0 =? 0) with false by (symmetry; now apply Z.eqb_neq).
  cbn [negb bind]. rewrite load_nth by lia. cbn [bind]. rewrite Hnth.
  change 0 with (Z.of_nat 0) at 1. rewrite load_nth by lia. cbn [bind].
  eexists. split; [reflexivity |].
  cbn [data bcd_digits decimal_digits].
  split; [reflexivity |]. split; [lia |]. split.
  - destruct (nonzero (Z.land (last l 0) 240)); lia.
  - unfold canonical_counts, digits_of. cbn [data bcd_digits decimal_digits].
    replace (Z.of_nat n + 1 =? 0) with false by (symmetry; apply Z.eqb_neq; lia).
    replace (Z.to_nat (Z.of_nat n + 1)) with (length l) by lia.
    rewrite firstn_all.
    apply andb_false_iff. right. apply Z.eqb_neq.
    destruct (nonzero (Z.land (last l 0) 240)); lia.
Qed.

(** ** Adequacy of the model's bookkeeping *)

(** The depth budget of [add_bcd] and [sub_bcd] is never the limit: any
    larger budget gives the same outcome. *)
Lemma add_bcd_depth_enough :
  forall d x y,
    add_bcd_depth (S (S d)) x y = add_bcd x y
    /\ sub_bcd_depth (S (S d)) x y = sub_bcd x y.
Proof.
  intros d x y. unfold add_bcd, sub_bcd, opp_bcd, sign_bcd.
  cbn [add_bcd_depth sub_bcd_depth].
  destruct x as [xd xb xdd xneg xz xe xc xn xerr xorig].
  destruct y as [yd yb ydd yneg yz ye yc yn yerr yorig].
  cbn [nan zero negative orig_error].
  destruct xn, yn, xz, yz, xneg, yneg; cbn; split; reflexivity.
Qed.

(** Inversion steps for a successful run of monadic code. *)
Ltac step_outcome :=
  match goal with
  | H : Ok _ = Ok _ |- _ => inversion H; subst; clear H
  | H : Fault _ = Ok _ |- _ => discriminate H
  | H : context [bind ?m _] |- _ => destruct m eqn:?; cbn [bind] in H
  | H : context [if ?c then _ else _] |- _ => destruct c eqn:?
  | H : context [match ?p with (_, _) => _ end] |- _ => destruct p
  | H : context [match ?o with Some _ => _ | None => _ end] |- _ => destruct o
  end.

(** A successful [divmod_bcd] call with a valid remainder pointer has
    stored a remainder through it. *)
Lemma divmod_bcd_stores :
  forall fuel x y q m,
    divmod_bcd fuel x y ValidPtr = Ok (q, m) -> exists r, m = Some r.
Proof.
  intros fuel x y q m H. unfold divmod_bcd, write_out in H.
  repeat step_outcome; eauto.
Qed.

(** * Further properties of the code *)

(** ** Release *)

(** X1: [free_BCD_int] leaves a constant as it is; any other value that is
    not already released becomes the tombstone: an Error with both tags
    "already released" and no buffer.  Releasing twice is the same as
    releasing once, and a released value is detected by its users:
    addition, subtraction and multiplication return an Error whose
    original tag is "already released", comparison returns "no
    comparison". *)
Theorem free_BCD_int_tombstone (x y : BCD_int) :
  (constant x = true -> free_BCD_int x = x)
  /\ free_BCD_int (free_BCD_int x) = free_BCD_int x
  /\ (constant x = false -> error x <> IS_FREED ->
      free_BCD_int x = bcd_error IS_FREED IS_FREED
      /\ add_bcd (free_BCD_int x) y = Ok (bcd_error ADD_NAN IS_FREED)
      /\ sub_bcd y (free_BCD_int x)
         = Ok (bcd_error SUB_NAN (if nan y then orig_error y else IS_FREED))
      /\ mul_bcd (free_BCD_int x) y = Ok (bcd_error MUL_NAN IS_FREED)
      /\ cmp_bcd (free_BCD_int x) y = Ok NO_COMP).
Proof.
  split; [| split].
  - intro Hc. unfold free_BCD_int. rewrite Hc, andb_false_r. reflexivity.
  - unfold free_BCD_int.
    destruct (negb (BCD_error_eqb (error x) IS_FREED) && negb (constant x)) eqn:E.
    + reflexivity.
    + rewrite E. reflexivity.
  - intros Hc He.
    assert (Hf : free_BCD_int x = bcd_error IS_FREED IS_FREED).
    { unfold free_BCD_int. rewrite Hc.
      destruct (error x); try contradiction; reflexivity. }
    rewrite Hf. repeat split.
    unfold sub_bcd. cbn [sub_bcd_depth]. cbn [nan bcd_error orig_error].
    rewrite orb_true_r. reflexivity.
Qed.

Lemma free_BCD_int_tombstone_witness :
  free_BCD_int (new_BCD_int1 5) = bcd_error IS_FREED IS_FREED
  /\ free_BCD_int BCD_one = BCD_one
  /\ add_bcd (free_BCD_int (new_BCD_int1 5)) BCD_one
     = Ok (bcd_error ADD_NAN IS_FREED).
Proof.
  pose proof (free_BCD_int_tombstone (new_BCD_int1 5) BCD_one) as H5.
  pose proof (free_BCD_int_tombstone BCD_one BCD_one) as H1.
  split; [| split].
  - apply (proj2 (proj2 H5)); [reflexivity | discriminate].
  - apply (proj1 H1). reflexivity.
  - apply (proj2 (proj2 H5)); [reflexivity | discriminate].
Defined.

(** ** Deep copy *)

Lemma memcpy_prefix :
  forall (l : list Z) n, 0 <= n <= Z.of_nat (length l) ->
    memcpy (malloc n) 0 (Some l) 0 n = Ok (Some (firstn (Z.to_nat n) l)).
Proof.
  intros l n Hn. unfold memcpy, malloc. rewrite repeat_length.
  replace ((0 <=? 0) && (0 + n <=? Z.of_nat (length l)))
    with true by (symmetry; apply andb_true_iff; split; lia).
  replace ((0 <=? 0) && (0 + n <=? Z.of_nat (Z.to_nat n)))
    with true by (symmetry; apply andb_true_iff; split; apply Z.leb_le; lia).
  cbn [negb]. do 2 f_equal.
  cbn [Z.to_nat firstn skipn app Z.add].
  rewrite skipn_all2 by (rewrite repeat_length; lia).
  apply app_nil_r.
Qed.

(** What [copy_BCD_int] returns on a finite value. *)
Lemma copy_BCD_int_finite :
  forall x, finite x = true ->
    copy_BCD_int x
    = Ok (set_constant
            (set_data x
               match data x with
               | Some l => Some (firstn (Z.to_nat (bcd_digits x)) l)
               | None => None
               end) false).
Proof.
  intros x Hf. unfold finite in Hf. apply andb_true_iff in Hf.
  destruct Hf as [_ Hf]. unfold copy_BCD_int.
  destruct (data x) as [l |] eqn:Hd.
  - apply andb_true_iff in Hf.
    rewrite memcpy_prefix by lia. reflexivity.
  - destruct x; cbn in *. now subst.
Qed.

Lemma digits_of_copy :
  forall x r, finite x = true -> copy_BCD_int x = Ok r ->
    digits_of r = digits_of x /\ bcd_digits r = bcd_digits x
    /\ decimal_digits r = decimal_digits x /\ negative r = negative x
    /\ zero r = zero x /\ nan r = nan x /\ constant r = false
    /\ finite r = true.
Proof.
  intros x r Hf Hc.
  rewrite (copy_BCD_int_finite x Hf) in Hc. injection Hc as <-.
  cbn [set_constant set_data bcd_digits decimal_digits negative
       zero nan constant data].
  assert (Hb : 0 <= bcd_digits x
               /\ forall l, data x = Some l -> bcd_digits x <= Z.of_nat (length l)).
  { unfold finite in Hf. apply andb_true_iff in Hf. destruct Hf as [_ Hf].
    destruct (data x) as [l |].
    - apply andb_true_iff in Hf. split; [lia |]. intros l' [= <-]. lia.
    - apply Z.eqb_eq in Hf. split; [lia | discriminate]. }
  destruct Hb as [Hb0 Hbl].
  split.
  { unfold digits_of.
    destruct (data x) as [l |]; cbn [data bcd_digits set_constant set_data];
      [| reflexivity].
    rewrite firstn_firstn. now rewrite Nat.min_id. }
  repeat split.
  unfold finite in *. cbn [nan data bcd_digits set_constant set_data].
  apply andb_true_iff in Hf. destruct Hf as [Hn Hf]. rewrite Hn. cbn [andb].
  destruct (data x) as [l |]; [| exact Hf].
  specialize (Hbl l eq_refl). rewrite length_firstn.
  apply andb_true_iff. split; apply Z.leb_le; lia.
Qed.

(** X2: the deep copy of a finite value succeeds, denotes the same
    integer with the same counts and flags, is never constant, and is
    canonical when the original is. *)
Theorem copy_BCD_int_preserves (x : BCD_int) (Hf : finite x = true) :
  exists r,
    copy_BCD_int x = Ok r
    /\ value r = value x
    /\ bcd_digits r = bcd_digits x /\ decimal_digits r = decimal_digits x
    /\ zero r = zero x /\ negative r = negative x
    /\ constant r = false
    /\ (canonical x = true -> canonical r = true).
Proof.
  pose proof (copy_BCD_int_finite x Hf) as Hr.
  destruct (digits_of_copy x _ Hf Hr)
    as (Hdig & Hb & Hdd & Hneg & Hz & Hn & Hc & Hfr).
  eexists. split; [exact Hr |].
  split; [unfold value; now rewrite Hdig, Hneg |].
  repeat split; auto.
  intro Hcan. unfold canonical in *. unfold canonical_counts in *.
  rewrite Hfr, Hdig, Hb, Hdd, Hz.
  do 3 (apply andb_true_iff in Hcan; destruct Hcan as [Hcan ?]).
  repeat (apply andb_true_iff; split); auto.
Qed.

Lemma copy_BCD_int_preserves_witness :
  exists r, copy_BCD_int BCD_one = Ok r /\ value r = 1 /\ constant r = false.
Proof.
  destruct (copy_BCD_int_preserves BCD_one eq_refl)
    as (r & Hr & Hv & _ & _ & _ & _ & Hc & _).
  exists r. split; [exact Hr |]. split; [exact Hv | exact Hc].
Defined.

(** ** Sign manipulation *)

Lemma finite_set_negative :
  forall x b, finite (set_negative x b) = finite x.
Proof. reflexivity. Qed.

(** What [sign_bcd] returns on a finite value, copying or not. *)
Lemma sign_bcd_finite :
  forall x no_copy neg, finite x = true ->
    exists r,
      sign_bcd x no_copy neg = Ok r
      /\ negative r = neg /\ digits_of r = digits_of x
      /\ bcd_digits r = bcd_digits x /\ decimal_digits r = decimal_digits x
      /\ zero r = zero x /\ finite r = true.
Proof.
  intros x no_copy neg Hf.
  destruct (finite_elim x Hf) as (Hn & _). unfold sign_bcd. rewrite Hn.
  cbn [negb]. destruct no_copy.
  - eexists. split; [reflexivity |]. repeat split. exact Hf.
  - pose proof (copy_BCD_int_finite (set_negative x neg) Hf) as Hr.
    destruct (digits_of_copy (set_negative x neg) _ Hf Hr)
      as (Hd & Hb & Hdd & Hs & Hz & _ & _ & Hfr).
    eexists. split; [exact Hr |]. repeat split; assumption.
Qed.

Lemma canonical_transfer :
  forall x r, canonical x = true -> finite r = true ->
    digits_of r = digits_of x -> bcd_digits r = bcd_digits x ->
    decimal_digits r = decimal_digits x -> zero r = zero x ->
    canonical r = true.
Proof.
  intros x r Hc Hf Hd Hb Hdd Hz. unfold canonical, canonical_counts in *.
  rewrite Hf, Hd, Hb, Hdd, Hz.
  do 3 (apply andb_true_iff in Hc; destruct Hc as [Hc ?]).
  repeat (apply andb_true_iff; split); auto.
Qed.

(** X3: on a canonical value the sign operators succeed, with or without
    copy, and return canonical values denoting the absolute value, its
    negation and the opposite; the in-place form does the same and never
    leaves a constant.  On an Error value they return the Error with both
    tags untouched. *)
Theorem sign_operators_value (x : BCD_int) (no_copy : bool)
  (Hc : canonical x = true) :
  (exists a n o i,
      abs_bcd x no_copy = Ok a /\ neg_bcd x no_copy = Ok n
      /\ opp_bcd x no_copy = Ok o /\ iopp_bcd x = Ok i
      /\ value a = Z.abs (value x) /\ value n = - Z.abs (value x)
      /\ value o = - value x /\ value i = - value x
      /\ canonical a = true /\ canonical n = true /\ canonical o = true
      /\ canonical i = true /\ constant i = false)
  /\ (forall e o neg,
        sign_bcd (bcd_error e o) no_copy neg = Ok (bcd_error e o)
        /\ isign_bcd (bcd_error e o) neg = Ok (bcd_error e o)).
Proof.
  split; [| intros e o neg; destruct no_copy; split; reflexivity].
  pose proof (canonical_finite x Hc) as Hf.
  pose proof (canonical_magnitude_nonneg x Hc) as Hm.
  destruct (sign_bcd_finite x no_copy false Hf)
    as (a & Ha & Has & Had & Hab & Hadd & Haz & Haf).
  destruct (sign_bcd_finite x no_copy true Hf)
    as (n & Hn & Hns & Hnd & Hnb & Hndd & Hnz & Hnf).
  destruct (sign_bcd_finite x no_copy (negb (negative x)) Hf)
    as (o & Ho & Hos & Hod & Hob & Hodd & Hoz & Hof).
  assert (Hi : exists i, iopp_bcd x = Ok i
                         /\ negative i = negb (negative x)
                         /\ digits_of i = digits_of x
                         /\ bcd_digits i = bcd_digits x
                         /\ decimal_digits i = decimal_digits x
                         /\ zero i = zero x /\ finite i = true
                         /\ constant i = false).
  { destruct (finite_elim x Hf) as (Hxn & _).
    unfold iopp_bcd, isign_bcd. rewrite Hxn. cbn [negb andb].
    destruct (constant x) eqn:Hcx.
    - rewrite (copy_BCD_int_finite x Hf). cbn [bind nan set_constant set_data].
      rewrite Hxn. cbn [negb].
      destruct (digits_of_copy x _ Hf (copy_BCD_int_finite x Hf))
        as (Hd & Hb & Hdd & Hs & Hz & _ & Hk & Hfr).
      eexists. split; [reflexivity |].
      repeat split; auto.
    - cbn [bind]. rewrite Hxn. cbn [negb].
      eexists. split; [reflexivity |]. repeat split; auto. }
  destruct Hi as (i & Hi & His & Hid & Hib & Hidd & Hiz & Hif & Hik).
  exists a, n, o, i.
  repeat (split; [assumption |]).
  unfold value. rewrite Has, Hns, Hos, His, Had, Hnd, Hod, Hid.
  repeat split;
    try (destruct (negative x); cbn [negb]; lia);
    try (eapply canonical_transfer; eassumption).
  exact Hik.
Qed.

Lemma sign_operators_value_witness :
  exists a n o i,
    abs_bcd (new_BCD_int1 (-42)) false = Ok a /\ value a = 42
    /\ neg_bcd (new_BCD_int1 (-42)) false = Ok n /\ value n = -42
    /\ opp_bcd (new_BCD_int1 (-42)) false = Ok o /\ value o = 42
    /\ iopp_bcd (new_BCD_int1 (-42)) = Ok i /\ value i = 42.
Proof.
  destruct (proj1 (sign_operators_value (new_BCD_int1 (-42)) false eq_refl))
    as (a & n & o & i & Ha & Hn & Ho & Hi & Hva & Hvn & Hvo & Hvi & _).
  exists a, n, o, i. repeat split; assumption.
Defined.

(** ** Comparison: reflexivity and symmetry *)

Lemma cmp_scan_same :
  forall x y l, data x = Some l -> data y = Some l ->
    forall n, (n <= length l)%nat -> cmp_scan n x y = Ok EQUAL_TO.
Proof.
  intros x y l Hx Hy. induction n as [| n IH]; intro Hn; [reflexivity |].
  cbn [cmp_scan]. rewrite Hx, Hy, load_nth by lia. cbn [bind].
  rewrite Z.eqb_refl. cbn [negb]. apply IH. lia.
Qed.

Lemma cmp_scan_refl :
  forall x l, data x = Some l ->
    forall n, (n <= length l)%nat -> cmp_scan n x x = Ok EQUAL_TO.
Proof. intros x l Hd. now apply cmp_scan_same with (l := l). Qed.

Lemma cmp_bcd_self :
  forall x, finite x = true -> cmp_bcd x x = Ok EQUAL_TO.
Proof.
  intros x Hf. destruct (finite_elim x Hf) as (Hn & Hb & Hr).
  unfold cmp_bcd. rewrite Hn, eqb_reflx, Z.eqb_refl. cbn [orb negb].
  destruct (Z.eq_dec (bcd_digits x) 0) as [-> | Hnz]; [reflexivity |].
  destruct (Hr Hnz) as (l & Hl & Hlen).
  apply cmp_scan_refl with (l := l); [exact Hl | lia].
Qed.

(** X4: a finite value compares equal to itself. *)
Theorem cmp_bcd_refl (x : BCD_int) (Hf : finite x = true) :
  cmp_bcd x x = Ok EQUAL_TO.
Proof. exact (cmp_bcd_self x Hf). Qed.

Lemma cmp_bcd_refl_witness : cmp_bcd (new_BCD_int1 (-1234)) (new_BCD_int1 (-1234)) = Ok EQUAL_TO.
Proof. apply cmp_bcd_refl. reflexivity. Defined.

Lemma cmp_bcd_swap :
  forall x y, canonical x = true -> canonical y = true ->
    exists c, cmp_bcd x y = Ok c /\ cmp_bcd y x = Ok (mirrored c).
Proof.
  intros x y Hx Hy.
  destruct (canonical_elim x Hx) as (Hxn & _).
  destruct (canonical_elim y Hy) as (Hyn & _).
  unfold cmp_bcd. rewrite Hxn, Hyn. cbn [orb].
  destruct (negative x) eqn:Ex, (negative y) eqn:Ey; cbn [Bool.eqb negb];
    try (eexists; split; reflexivity).
  all: destruct (Z.eqb_spec (decimal_digits x) (decimal_digits y)) as [Hd | Hd];
    [ rewrite Hd, Z.eqb_refl; cbn [negb]
    | replace (decimal_digits y =? decimal_digits x) with false
        by (symmetry; apply Z.eqb_neq; lia);
      cbn [negb];
      destruct (Z.gtb_spec (decimal_digits x) (decimal_digits y));
      destruct (Z.gtb_spec (decimal_digits y) (decimal_digits x));
      try lia; eexists; split; reflexivity ].
  all: rewrite (cmp_scan_canonical x y Hx Hy Hd);
    rewrite (cmp_scan_canonical y x Hy Hx (eq_sym Hd));
    rewrite Ex, Ey;
    rewrite (Z.compare_antisym (magnitude (digits_of x)) (magnitude (digits_of y)));
    eexists; split; [reflexivity |];
    destruct (magnitude (digits_of x) ?= magnitude (digits_of y)); reflexivity.
Qed.

(** X5: on canonical values, [cmp_bcd(y, x)] is the mirror image of
    [cmp_bcd(x, y)]. *)
Theorem cmp_bcd_mirror (x y : BCD_int)
  (Hx : canonical x = true) (Hy : canonical y = true) :
  exists c, cmp_bcd x y = Ok c /\ cmp_bcd y x = Ok (mirrored c).
Proof. exact (cmp_bcd_swap x y Hx Hy). Qed.

Lemma cmp_bcd_mirror_witness :
  exists c, cmp_bcd (new_BCD_int1 12) (new_BCD_int1 345) = Ok c
            /\ cmp_bcd (new_BCD_int1 345) (new_BCD_int1 12) = Ok (mirrored c).
Proof. apply cmp_bcd_mirror; reflexivity. Defined.

(** ** Construction from a native integer *)

Lemma low_pairs_checked :
  forallb (fun v => valid_pair (low_pair v) && (pair_value (low_pair v) =? v))
          (map Z.of_nat (seq 0 100)) = true.
Proof. vm_compute. reflexivity. Qed.

Lemma low_pair_mod : forall a, low_pair a = low_pair (a mod 100).
Proof.
  intro a. unfold low_pair. rewrite Z.mod_mod by lia.
  replace ((a mod 100) mod 10) with (a mod 10); [reflexivity |].
  pose proof (Z.div_mod a 100 ltac:(lia)).
  pose proof (Z.mod_pos_bound a 100 ltac:(lia)).
  pose proof (Z.div_mod a 10 ltac:(lia)).
  pose proof (Z.mod_pos_bound a 10 ltac:(lia)).
  pose proof (Z.div_mod (a mod 100) 10 ltac:(lia)).
  pose proof (Z.mod_pos_bound (a mod 100) 10 ltac:(lia)).
  lia.
Qed.

Lemma low_pair_facts :
  forall a, valid_pair (low_pair a) = true /\ pair_value (low_pair a) = a mod 100.
Proof.
  intro a. rewrite low_pair_mod.
  pose proof (Z.mod_pos_bound a 100 ltac:(lia)) as Hb.
  pose proof low_pairs_checked as Hall. rewrite forallb_forall in Hall.
  specialize (Hall (a mod 100)).
  assert (Hin : In (a mod 100) (map Z.of_nat (seq 0 100))).
  { apply in_map_iff. exists (Z.to_nat (a mod 100)). split; [lia |].
    apply in_seq. lia. }
  apply Hall in Hin. apply andb_true_iff in Hin. destruct Hin as [Hv Hp].
  apply Z.eqb_eq in Hp. split; assumption.
Qed.

Lemma pack_pairs_unfold :
  forall n a, pack_pairs (S n) a = low_pair a :: pack_pairs n (a / 100).
Proof. reflexivity. Qed.

Lemma pack_pairs_snoc :
  forall n a, 0 <= a ->
    pack_pairs (S n) a = pack_pairs n a ++ [low_pair (a / 100 ^ Z.of_nat n)].
Proof.
  induction n as [| n IH]; intros a Ha.
  - cbn [pack_pairs app]. change (100 ^ Z.of_nat 0) with 1. now rewrite Z.div_1_r.
  - rewrite pack_pairs_unfold, IH by (apply Z.div_pos; lia).
    rewrite pack_pairs_unfold. cbn [app]. do 3 f_equal.
    rewrite Nat2Z.inj_succ, Z.pow_succ_r by lia.
    rewrite Z.div_div by (try apply Z.pow_pos_nonneg; lia). reflexivity.
Qed.

Lemma magnitude_pack_pairs :
  forall n a, 0 <= a ->
    magnitude (pack_pairs n a) = a mod 100 ^ Z.of_nat n
    /\ forallb valid_pair (pack_pairs n a) = true.
Proof.
  induction n as [| n IH]; intros a Ha.
  - cbn [pack_pairs magnitude forallb]. change (100 ^ Z.of_nat 0) with 1.
    now rewrite Z.mod_1_r.
  - rewrite pack_pairs_unfold. cbn [magnitude forallb].
    destruct (low_pair_facts a) as (Hv & Hp).
    destruct (IH (a / 100) ltac:(apply Z.div_pos; lia)) as (Hm & Hvs).
    rewrite Hv, Hvs, Hp, Hm. split; [| reflexivity].
    rewrite Nat2Z.inj_succ, Z.pow_succ_r by lia.
    rewrite Z.rem_mul_r by (try (pose proof (pow_100_pos n)); lia).
    reflexivity.
Qed.

(** What [new_BCD_int2] builds from an integer of at most 15 digits, the
    range in which its digit count is exact. *)
Lemma new_BCD_int2_canonical :
  forall a neg, 0 <= a < 10 ^ 15 ->
    canonical (new_BCD_int2 a neg) = true
    /\ magnitude (digits_of (new_BCD_int2 a neg)) = a
    /\ negative (new_BCD_int2 a neg) = neg
    /\ zero (new_BCD_int2 a neg) = (a =? 0).
Proof.
  intros a neg Ha.
  assert (Hfuel : 0 <= a < 10 ^ Z.of_nat 20)
    by (change (Z.of_nat 20) with 20; lia).
  destruct (count_digits_spec 20 a Hfuel) as (Hup & Hlo & Hz0).
  pose proof (count_digits_nonneg 20 a) as Hcd.
  assert (Hdd : ceil_log10 (umax (a + 1)) = count_digits 20 a).
  { unfold umax. rewrite Z.mod_small by lia.
    rewrite ceil_log10_exact by lia. f_equal. lia. }
  set (dd := count_digits 20 a) in *.
  set (bd := (dd + 1) / 2).
  assert (Hbd : 0 <= bd /\ (dd = 2 * bd \/ dd = 2 * bd - 1)).
  { subst bd. pose proof (Z.div_mod (dd + 1) 2 ltac:(lia)).
    pose proof (Z.mod_pos_bound (dd + 1) 2 ltac:(lia)). lia. }
  destruct Hbd as (Hbd0 & Hpar).
  assert (Hdig : digits_of (new_BCD_int2 a neg) = pack_pairs (Z.to_nat bd) a).
  { unfold digits_of, new_BCD_int2. cbn [data bcd_digits]. rewrite Hdd. fold bd.
    rewrite firstn_all2; [reflexivity |]. rewrite length_pack_pairs. lia. }
  destruct (magnitude_pack_pairs (Z.to_nat bd) a ltac:(lia)) as (Hmag & Hval).
  rewrite Z2Nat.id in Hmag by lia.
  assert (H100 : 100 ^ bd = 10 ^ (2 * bd)) by (symmetry; apply pow_10_even; lia).
  assert (Hlt : a < 100 ^ bd).
  { rewrite H100. eapply Z.lt_le_trans; [exact Hup |].
    apply Z.pow_le_mono_r; lia. }
  rewrite Z.mod_small in Hmag by lia.
  assert (Hzero : (a =? 0) = (bd =? 0)).
  { destruct (Z.eqb_spec a 0) as [E | E].
    - rewrite (Hz0 E) in Hpar. symmetry. apply Z.eqb_eq. lia.
    - symmetry. apply Z.eqb_neq. intro Eb. rewrite Eb in Hlt. cbn in Hlt. lia. }
  split; [| split; [now rewrite Hdig | split; reflexivity]].
  unfold canonical. rewrite Hdig, Hval.
  assert (Hfin : finite (new_BCD_int2 a neg) = true).
  { unfold finite, new_BCD_int2. cbn [nan data bcd_digits negb andb].
    rewrite Hdd. fold bd. rewrite length_pack_pairs.
    apply andb_true_iff. split; apply Z.leb_le; lia. }
  rewrite Hfin. cbn [andb].
  apply andb_true_iff. split.
  - unfold canonical_counts. rewrite Hdig.
    unfold new_BCD_int2. cbn [bcd_digits decimal_digits]. rewrite Hdd. fold bd.
    destruct (Z.eqb_spec bd 0) as [Eb | Eb].
    + apply Z.eqb_eq. lia.
    + assert (Hk : Z.to_nat bd = S (Z.to_nat (bd - 1))) by lia.
      rewrite Hk, pack_pairs_snoc by lia. rewrite last_last.
      rewrite Z2Nat.id by lia.
      set (t := a / 100 ^ (bd - 1)).
      assert (Hpw : 100 ^ bd = 100 * 100 ^ (bd - 1)).
      { replace bd with (Z.succ (bd - 1)) at 1 by lia.
        apply Z.pow_succ_r. lia. }
      assert (HW : 0 < 100 ^ (bd - 1)) by (apply Z.pow_pos_nonneg; lia).
      assert (Ht : 0 <= t < 100).
      { subst t. split; [apply Z.div_pos; lia |].
        apply Z.div_lt_upper_bound; lia. }
      destruct (low_pair_facts t) as (Hv & Hp).
      rewrite Z.mod_small in Hp by lia.
      destruct (valid_pair_facts _ Hv) as (_ & _ & _ & _ & Hnz & Hnib).
      assert (Hapos : 0 < a).
      { destruct (Z.eq_dec a 0) as [E | E]; [| lia].
        rewrite (Hz0 E) in Hpar. lia. }
      specialize (Hlo Hapos).
      assert (H10 : 10 ^ (2 * (bd - 1)) = 100 ^ (bd - 1))
        by (apply pow_10_even; lia).
      assert (Htlo : 1 <= t).
      { subst t. apply Z.div_le_lower_bound; [lia |].
        rewrite Z.mul_1_r, <- H10.
        eapply Z.le_trans; [| exact Hlo]. apply Z.pow_le_mono_r; lia. }
      apply andb_true_iff. split.
      * unfold nonzero. apply negb_true_iff, Z.eqb_neq. intro E0.
        rewrite E0 in Hp. cbn in Hp. lia.
      * apply Z.eqb_eq. destruct Hpar as [Hpar | Hpar].
        -- (* even count: the top pair is at least 10 *)
           assert (10 <= t).
           { subst t. apply Z.div_le_lower_bound; [lia |].
             eapply Z.le_trans; [| exact Hlo].
             rewrite Hpar. replace (2 * bd - 1) with (Z.succ (2 * (bd - 1))) by lia.
             rewrite Z.pow_succ_r, H10 by lia. lia. }
           destruct (nonzero (Z.land (low_pair t) 240)); lia.
        -- (* odd count: the top pair is below 10 *)
           assert (t < 10).
           { subst t. apply Z.div_lt_upper_bound; [lia |].
             eapply Z.lt_le_trans; [exact Hup |].
             rewrite Hpar. replace (2 * bd - 1) with (Z.succ (2 * (bd - 1))) by lia.
             rewrite Z.pow_succ_r, H10 by lia. lia. }
           destruct (nonzero (Z.land (low_pair t) 240)); lia.
  - unfold new_BCD_int2. cbn [zero bcd_digits]. rewrite Hdd. fold bd.
    rewrite Hzero. apply eqb_reflx.
Qed.

(** X6: for every native unsigned integer [a] of at most 15 decimal
    digits, [new_BCD_int2(a, negative)] is canonical and denotes [a],
    negated when the flag is set; its zero flag is set exactly when [a] is
    0.  (The bound is that of the double-precision digit count, see
    [new_BCD_int2_beyond_15_digits].) *)
Theorem new_BCD_int2_value (a : Z) (neg : bool) (Ha : 0 <= a < 10 ^ 15) :
  canonical (new_BCD_int2 a neg) = true
  /\ value (new_BCD_int2 a neg) = (if neg then - a else a)
  /\ zero (new_BCD_int2 a neg) = (a =? 0).
Proof.
  destruct (new_BCD_int2_canonical a neg Ha) as (Hc & Hm & Hn & Hz).
  split; [exact Hc |]. split; [| exact Hz].
  unfold value. now rewrite Hn, Hm.
Qed.

Lemma new_BCD_int2_value_witness :
  value (new_BCD_int2 999999999999999 true) = -999999999999999.
Proof.
  apply (proj1 (proj2 (new_BCD_int2_value 999999999999999 true
                         ltac:(cbn; lia)))).
Defined.

(** From 16 digits on the digit count computed in double precision can
    fall short: [10 ^ 15] gets a count of 15 (its eight bytes still hold
    the number, but the value is not canonical), and [10 ^ 16] gets a
    count of 16, hence eight bytes, all zero. *)
Example new_BCD_int2_beyond_15_digits :
  decimal_digits (new_BCD_int2 (10 ^ 15) false) = 15
  /\ value (new_BCD_int2 (10 ^ 15) false) = 10 ^ 15
  /\ canonical (new_BCD_int2 (10 ^ 15) false) = false
  /\ decimal_digits (new_BCD_int2 (10 ^ 16) false) = 16
  /\ data (new_BCD_int2 (10 ^ 16) false) = Some [0; 0; 0; 0; 0; 0; 0; 0]
  /\ value (new_BCD_int2 (10 ^ 16) false) = 0
  /\ value (new_BCD_int1 (- 10 ^ 18)) = 0.
Proof. vm_compute. repeat split. Qed.

(** X7: for every native signed integer [a] of at most 15 decimal digits,
    [new_BCD_int1(a)] is canonical, denotes [a] and is an unsigned zero
    when [a] is 0. *)
Theorem new_BCD_int1_value (a : Z) (Ha : - 10 ^ 15 < a < 10 ^ 15) :
  canonical (new_BCD_int1 a) = true
  /\ value (new_BCD_int1 a) = a
  /\ unsigned_zero (new_BCD_int1 a) = true
  /\ zero (new_BCD_int1 a) = (a =? 0).
Proof.
  unfold new_BCD_int1, unsigned_zero.
  destruct (Z.ltb_spec a 0) as [Hneg | Hpos].
  - assert (Hu : umax (- a) = - a) by (unfold umax; apply Z.mod_small; lia).
    rewrite Hu.
    destruct (new_BCD_int2_canonical (- a) true ltac:(lia)) as (Hc & Hm & Hn & Hz).
    unfold value. rewrite Hc, Hm, Hn, Hz.
    replace (- a =? 0) with false by (symmetry; apply Z.eqb_neq; lia).
    replace (a =? 0) with false by (symmetry; apply Z.eqb_neq; lia).
    repeat split. lia.
  - assert (Hu : umax a = a) by (unfold umax; apply Z.mod_small; lia).
    rewrite Hu.
    destruct (new_BCD_int2_canonical a false ltac:(lia)) as (Hc & Hm & Hn & Hz).
    unfold value. rewrite Hc, Hm, Hn, Hz. rewrite andb_false_r.
    repeat split.
Qed.

Lemma new_BCD_int1_value_witness :
  value (new_BCD_int1 (-999999999999999)) = -999999999999999.
Proof.
  apply (proj1 (proj2 (new_BCD_int1_value (-999999999999999) ltac:(cbn; lia)))).
Defined.

(** ** The decimal-adjust steps of addition *)

Lemma add_pair_checked :
  forallb (fun a => forallb (fun b => add_pair_ok a b false && add_pair_ok a b true)
                            valid_bytes) valid_bytes = true.
Proof. vm_compute. reflexivity. Qed.

Lemma add_carry_step_checked : forallb add_carry_step_ok valid_bytes = true.
Proof. vm_compute. reflexivity. Qed.

Lemma valid_bytes_in : forall b, valid_pair b = true -> In b valid_bytes.
Proof.
  intros b Hv. unfold valid_bytes. apply filter_In. split; [| exact Hv].
  pose proof (valid_pair_byte b Hv).
  apply in_map_iff. exists (Z.to_nat b). split; [lia |]. apply in_seq. lia.
Qed.

Lemma add_pair_spec :
  forall a b ov, valid_pair a = true -> valid_pair b = true ->
    valid_pair (fst (add_pair a b ov)) = true
    /\ pair_value (fst (add_pair a b ov)) + 100 * Z.b2z (snd (add_pair a b ov))
       = pair_value a + pair_value b + Z.b2z ov.
Proof.
  intros a b ov Ha Hb.
  pose proof add_pair_checked as H. rewrite forallb_forall in H.
  specialize (H a (valid_bytes_in a Ha)). rewrite forallb_forall in H.
  specialize (H b (valid_bytes_in b Hb)).
  apply andb_true_iff in H. destruct H as [Hf Ht].
  assert (Hov : add_pair_ok a b ov = true) by (destruct ov; assumption).
  unfold add_pair_ok in Hov. destruct (add_pair a b ov) as [c ov'].
  apply andb_true_iff in Hov. destruct Hov as [Hv He].
  apply Z.eqb_eq in He. split; assumption.
Qed.

(** X8: the portable decimal-adjust step of [add_bcd] is exact on digit
    pairs: for bytes [a] and [b] holding two decimal digits each and any
    incoming carry, the byte it produces holds two decimal digits and,
    with the outgoing carry counted as 100, equals [a + b + carry]. *)
Theorem add_pair_exact (a b : Z) (ov : bool)
  (Ha : valid_pair a = true) (Hb : valid_pair b = true) :
  valid_pair (fst (add_pair a b ov)) = true
  /\ pair_value (fst (add_pair a b ov)) + 100 * Z.b2z (snd (add_pair a b ov))
     = pair_value a + pair_value b + Z.b2z ov.
Proof. exact (add_pair_spec a b ov Ha Hb). Qed.

Lemma add_pair_exact_witness :
  pair_value (fst (add_pair 153 1 true)) + 100 * Z.b2z (snd (add_pair 153 1 true))
  = 99 + 1 + 1.
Proof. apply (proj2 (add_pair_exact 153 1 true eq_refl eq_refl)). Defined.

Lemma add_carry_step_exact :
  forall b, valid_pair b = true ->
    valid_pair (fst (add_carry_step b)) = true
    /\ pair_value (fst (add_carry_step b)) + 100 * Z.b2z (snd (add_carry_step b))
       = pair_value b + 1.
Proof.
  intros b Hb. pose proof add_carry_step_checked as H.
  rewrite forallb_forall in H. specialize (H b (valid_bytes_in b Hb)).
  unfold add_carry_step_ok in H. destruct (add_carry_step b) as [c ov'].
  apply andb_true_iff in H. destruct H as [Hv He].
  apply Z.eqb_eq in He. split; assumption.
Qed.

(** ** Same-sign addition is exact *)

Lemma firstn_list_set_snoc :
  forall (l : list Z) i v, (i < length l)%nat ->
    firstn (S i) (list_set l i v) = firstn i l ++ [v].
Proof.
  induction l as [| h t IH]; intros i v Hi; [cbn in Hi; lia |].
  destruct i as [| i]; [reflexivity |].
  cbn [list_set firstn app]. f_equal. apply IH. cbn in Hi. lia.
Qed.

Lemma firstn_list_set_le :
  forall (l : list Z) i j v, (j <= i)%nat ->
    firstn j (list_set l i v) = firstn j l.
Proof.
  induction l as [| h t IH]; intros i j v Hj; [reflexivity |].
  destruct j as [| j]; [reflexivity |].
  destruct i as [| i]; [lia |].
  cbn [list_set firstn]. f_equal. apply IH. lia.
Qed.

Lemma magnitude_app_list :
  forall p q,
    magnitude (p ++ q) = magnitude p + 100 ^ Z.of_nat (length p) * magnitude q.
Proof.
  induction p as [| h t IH]; intro q.
  - cbn [app magnitude length]. change (100 ^ Z.of_nat 0) with 1. lia.
  - cbn [app magnitude length]. rewrite IH.
    rewrite Nat2Z.inj_succ, Z.pow_succ_r by lia. ring.
Qed.

Lemma forallb_firstn_le :
  forall (l : list Z) n k, (k <= n)%nat ->
    forallb valid_pair (firstn n l) = true ->
    forallb valid_pair (firstn k l) = true.
Proof.
  induction l as [| h t IH]; intros n k Hk H.
  - now rewrite firstn_nil.
  - destruct k as [| k]; [reflexivity |].
    destruct n as [| n]; [lia |].
    cbn [firstn forallb] in *. apply andb_true_iff in H. destruct H as [Hh Ht].
    rewrite Hh. cbn [andb]. apply (IH n k); [lia | exact Ht].
Qed.

Lemma valid_nth_firstn :
  forall (l : list Z) n i, (i < n)%nat -> (n <= length l)%nat ->
    forallb valid_pair (firstn n l) = true ->
    valid_pair (nth i l 0) = true.
Proof.
  intros l n i Hi Hn H.
  pose proof (forallb_firstn_le l n (S i) ltac:(lia) H) as H'.
  rewrite firstn_S_snoc in H' by lia. rewrite forallb_app in H'.
  apply andb_true_iff in H'. destruct H' as [_ H'].
  cbn [forallb] in H'. now rewrite andb_true_r in H'.
Qed.

(** The carry loop of [add_bcd] keeps the running sum exact: [Sh] is the
    magnitude of the shorter operand, already consumed. *)
Lemma add_carry_exact :
  forall n i dl ov zl M Sh,
    (i + n = M)%nat -> (M <= length dl)%nat -> length zl = Datatypes.S M ->
    forallb valid_pair (firstn M dl) = true ->
    forallb valid_pair (firstn i zl) = true ->
    magnitude (firstn i zl) + Z.b2z ov * 100 ^ Z.of_nat i
    = magnitude (firstn i dl) + Sh ->
    exists i' ov' zl',
      add_carry n (Z.of_nat i) (Some dl) ov (Some zl)
      = Ok (Z.of_nat i', ov', Some zl')
      /\ length zl' = Datatypes.S M /\ (i <= i' <= M)%nat
      /\ (i' = M \/ ov' = false)
      /\ forallb valid_pair (firstn i' zl') = true
      /\ magnitude (firstn i' zl') + Z.b2z ov' * 100 ^ Z.of_nat i'
         = magnitude (firstn i' dl) + Sh.
Proof.
  induction n as [| n IH]; intros i dl ov zl M Sh Hi HM Hzl Hvd Hvz Hmag.
  - exists i, ov, zl. cbn [add_carry].
    repeat split; auto; try lia; left; lia.
  - cbn [add_carry]. destruct ov.
    + rewrite load_nth by lia. cbn [bind].
      pose proof (valid_nth_firstn dl M i ltac:(lia) HM Hvd) as Hvb.
      destruct (add_carry_step_exact _ Hvb) as (Hvc & Hsum).
      unfold add_carry_step in Hvc, Hsum. cbv zeta in Hvc, Hsum.
      cbn [fst snd] in Hvc, Hsum. cbv zeta.
      set (b := nth i dl 0) in *.
      set (a1 := if Z.land (u8 (b + Z.b2z true)) 15 =? 10
                 then u8 (u8 (b + Z.b2z true) + 6) else u8 (b + Z.b2z true)) in *.
      set (ov1 := Z.land a1 240 =? 160) in *.
      set (c := if ov1 then u8 (a1 + 96) else a1) in *.
      unfold store. rewrite in_range_true by lia. cbn [bind].
      rewrite Nat2Z.id.
      replace (Z.of_nat i + 1) with (Z.of_nat (Datatypes.S i)) by lia.
      destruct (IH (Datatypes.S i) dl ov1 (list_set zl i c) M Sh)
        as (i' & ov' & zl' & Hrun & Hlen' & Hi' & Hstop & Hv' & Hm');
        try lia; auto.
      * now rewrite length_list_set.
      * rewrite firstn_list_set_snoc by lia. rewrite forallb_app, Hvz.
        cbn [forallb andb]. now rewrite Hvc.
      * rewrite firstn_list_set_snoc by lia.
        rewrite firstn_S_snoc by lia. fold b.
        rewrite !magnitude_app.
        rewrite !length_firstn, !Nat.min_l by lia.
        rewrite Nat2Z.inj_succ, Z.pow_succ_r by lia.
        cbn [Z.b2z] in Hmag. nia.
      * exists i', ov', zl'. repeat split; auto; lia.
    + exists i, false, zl. repeat split; auto; try lia.
Qed.

Lemma firstn_plus :
  forall (l : list Z) a b,
    firstn (a + b) l = firstn a l ++ firstn b (skipn a l).
Proof.
  induction l as [| h t IH]; intros a b.
  - now rewrite skipn_nil, !firstn_nil.
  - destruct a as [| a]; [reflexivity |].
    cbn [Nat.add firstn skipn app]. f_equal. apply IH.
Qed.

(** The parts of a canonical nonzero value. *)
Lemma canonical_nonzero_elim :
  forall x, canonical x = true -> zero x = false ->
    exists dx n,
      data x = Some dx /\ bcd_digits x = Z.of_nat n
      /\ (1 <= n <= length dx)%nat
      /\ digits_of x = firstn n dx
      /\ forallb valid_pair (firstn n dx) = true
      /\ 100 ^ (Z.of_nat n - 1) <= magnitude (firstn n dx).
Proof.
  intros x Hc Hz.
  destruct (canonical_elim x Hc) as (_ & Hb0 & Hr & Hv & _ & Hzb).
  rewrite Hz in Hzb. symmetry in Hzb. apply Z.eqb_neq in Hzb.
  destruct (Hr Hzb) as (dx & Hd & Hlen).
  exists dx, (Z.to_nat (bcd_digits x)).
  assert (Hdig : digits_of x = firstn (Z.to_nat (bcd_digits x)) dx)
    by (unfold digits_of; now rewrite Hd).
  rewrite <- Hdig.
  repeat split; auto; try lia.
  destruct (canonical_magnitude x Hc) as (Hbd & [(? & _) | (_ & Hdd & Hm & _)]); [lia |].
  rewrite Z2Nat.id by lia.
  rewrite <- pow_10_even by lia.
  eapply Z.le_trans; [| exact Hm]. apply Z.pow_le_mono_r; [lia |].
  pose proof (Z.div_mod (decimal_digits x + 1) 2 ltac:(lia)).
  pose proof (Z.mod_pos_bound (decimal_digits x + 1) 2 ltac:(lia)). lia.
Qed.

(** A record built from a buffer whose first [n] bytes are decimal with a
    nonzero top byte, and whose digit count follows that byte, is
    canonical. *)
Lemma canonical_intro :
  forall zl n dd neg ev,
    (1 <= n <= length zl)%nat ->
    forallb valid_pair (firstn n zl) = true ->
    nth (n - 1) zl 0 <> 0 ->
    dd = (if nonzero (Z.land (nth (n - 1) zl 0) 240)
          then 2 * Z.of_nat n else 2 * Z.of_nat n - 1) ->
    canonical (mkBCD (Some zl) (Z.of_nat n) dd neg false ev false false
                     NON_ERR NON_ERR) = true
    /\ digits_of (mkBCD (Some zl) (Z.of_nat n) dd neg false ev false false
                        NON_ERR NON_ERR) = firstn n zl.
Proof.
  intros zl n dd neg ev Hn Hv Htop Hdd.
  assert (Hdig : digits_of (mkBCD (Some zl) (Z.of_nat n) dd neg false ev false
                                  false NON_ERR NON_ERR) = firstn n zl).
  { unfold digits_of. cbn [data bcd_digits]. now rewrite Nat2Z.id. }
  split; [| exact Hdig].
  unfold canonical, canonical_counts. rewrite Hdig.
  unfold finite. cbn [nan data bcd_digits decimal_digits zero negb andb].
  assert (Hlast : last (firstn n zl) 0 = nth (n - 1) zl 0).
  { rewrite last_nth, length_firstn, Nat.min_l by lia.
    rewrite nth_firstn.
    destruct (Nat.ltb_spec (n - 1) n); [reflexivity | lia]. }
  rewrite Hlast, Hv.
  replace (Z.of_nat n =? 0) with false by (symmetry; apply Z.eqb_neq; lia).
  cbn [Bool.eqb andb].
  repeat (apply andb_true_iff; split);
    first [ reflexivity
          | apply Z.leb_le; lia
          | now apply Z.eqb_eq
          | unfold nonzero; now apply negb_true_iff, Z.eqb_neq ].
Qed.

(** Same-sign addition of canonical nonzero values is exact and
    canonical. *)
Lemma add_magnitudes_exact :
  forall x y,
    canonical x = true -> canonical y = true ->
    zero x = false -> zero y = false ->
    exists r,
      add_magnitudes x y = Ok r
      /\ canonical r = true /\ zero r = false /\ negative r = negative x
      /\ magnitude (digits_of r)
         = magnitude (digits_of x) + magnitude (digits_of y).
Proof.
  intros x y Hx Hy Hxz Hyz.
  destruct (canonical_nonzero_elim x Hx Hxz)
    as (dx & nx & Hdx & Hbx & Hnx & Hgx & Hvx & Hlx).
  destruct (canonical_nonzero_elim y Hy Hyz)
    as (dy & ny & Hdy & Hby & Hny & Hgy & Hvy & Hly).
  rewrite Hgx, Hgy. unfold add_magnitudes. rewrite Hbx, Hby.
  set (m := Nat.min nx ny). set (M := Nat.max nx ny).
  replace (Z.min (Z.of_nat nx) (Z.of_nat ny)) with (Z.of_nat m) by (subst m; lia).
  replace (Z.max (Z.of_nat nx) (Z.of_nat ny)) with (Z.of_nat M) by (subst M; lia).
  cbv zeta.
  assert (Hlong : exists dl Sh,
             data (if Z.of_nat nx <? Z.of_nat ny then y else x) = Some dl
             /\ (M <= length dl)%nat
             /\ forallb valid_pair (firstn M dl) = true
             /\ 100 ^ (Z.of_nat M - 1) <= magnitude (firstn M dl)
             /\ 0 <= Sh
             /\ magnitude (firstn m dx) + magnitude (firstn m dy)
                = magnitude (firstn m dl) + Sh
             /\ magnitude (firstn nx dx) + magnitude (firstn ny dy)
                = magnitude (firstn M dl) + Sh).
  { destruct (Z.ltb_spec (Z.of_nat nx) (Z.of_nat ny)) as [Hlt | Hge].
    - exists dy, (magnitude (firstn nx dx)).
      replace M with ny by (subst M; lia). replace m with nx by (subst m; lia).
      pose proof (magnitude_range _ Hvx). repeat split; auto; lia.
    - exists dx, (magnitude (firstn ny dy)).
      replace M with nx by (subst M; lia). replace m with ny by (subst m; lia).
      pose proof (magnitude_range _ Hvy). repeat split; auto; lia. }
  destruct Hlong as (dl & Sh & Hdl & HlenL & HvL & HtopL & HSh & Hsplit & Htotal).
  rewrite Hdl, Hdx, Hdy. rewrite Htotal.
  assert (HmM : (1 <= m <= M)%nat) by (subst m M; lia).
  assert (Hmx : (m <= nx)%nat) by (subst m; lia).
  assert (Hmy : (m <= ny)%nat) by (subst m; lia).
  (* first loop *)
  run_for_up (fun (j : Z) (s : buffer * bool) =>
                exists zl, fst s = Some zl /\ length zl = S M
                  /\ forallb valid_pair (firstn (Z.to_nat j) zl) = true
                  /\ magnitude (firstn (Z.to_nat j) zl) + Z.b2z (snd s) * 100 ^ j
                     = magnitude (firstn (Z.to_nat j) dx)
                       + magnitude (firstn (Z.to_nat j) dy)).
  { exists (repeat 0 (S M)). cbn [fst snd]. split.
    - unfold malloc. do 2 f_equal. lia.
    - split; [apply repeat_length |]. split; reflexivity. }
  { intros j [z ov] Hj (zl & Hz & Hlen & Hvz & Hmag). cbn [fst snd] in *. subst z.
    remember (Z.to_nat j) as k eqn:Hk.
    assert (Ej : j = Z.of_nat k) by lia. rewrite Ej in *.
    rewrite Nat2Z.id in Hk. clear Hk Ej.
    rewrite !load_nth by lia. cbn [bind].
    pose proof (valid_nth_firstn dx nx k ltac:(lia) ltac:(lia) Hvx) as Hva.
    pose proof (valid_nth_firstn dy ny k ltac:(lia) ltac:(lia) Hvy) as Hvb.
    destruct (add_pair_spec (nth k dx 0) (nth k dy 0) ov Hva Hvb) as (Hvc & Hsum).
    destruct (add_pair (nth k dx 0) (nth k dy 0) ov) as [c ov'].
    cbn [fst snd] in Hvc, Hsum.
    unfold store. rewrite in_range_true by lia. cbn [bind]. rewrite Nat2Z.id.
    eexists. split; [reflexivity |]. cbn [fst snd].
    exists (list_set zl k c). split; [reflexivity |].
    split; [now rewrite length_list_set |].
    replace (Z.to_nat (Z.of_nat k + 1)) with (S k) by lia.
    rewrite firstn_list_set_snoc by lia.
    rewrite !(firstn_S_snoc _ k) by lia.
    split.
    - rewrite forallb_app, Hvz. cbn [forallb andb]. now rewrite Hvc.
    - rewrite !magnitude_app. rewrite !length_firstn, !Nat.min_l by lia.
      replace (Z.of_nat k + 1) with (Z.succ (Z.of_nat k)) by lia.
      rewrite Z.pow_succ_r by lia.
      pose proof (pow_100_pos k). nia. }
  destruct s as [z ov]. destruct HI as (zl & Hz & Hlen & Hvz & Hmag).
  cbn [fst snd] in *. subst z.
  rewrite Z.add_0_l, !Nat2Z.id in *.
  (* carry loop *)
  replace (Z.to_nat (Z.of_nat M - Z.of_nat m)) with (M - m)%nat by lia.
  destruct (add_carry_exact (M - m) m dl ov zl M Sh ltac:(lia) HlenL Hlen HvL Hvz
              ltac:(lia))
    as (i' & ov' & zl' & -> & Hlen' & Hi' & Hstop & Hv' & Hm').
  cbn [bind].
  (* copy of the remaining bytes *)
  assert (Hcopy : exists z2,
             (if Z.of_nat i' <? Z.of_nat M
              then memcpy (Some zl') (Z.of_nat i') (Some dl) (Z.of_nat i')
                          (Z.of_nat M - Z.of_nat i')
              else @Ok buffer (Some zl')) = Ok (Some z2)
             /\ length z2 = S M
             /\ forallb valid_pair (firstn M z2) = true
             /\ magnitude (firstn M z2) + Z.b2z ov' * 100 ^ Z.of_nat M
                = magnitude (firstn M dl) + Sh).
  { destruct (Z.ltb_spec (Z.of_nat i') (Z.of_nat M)) as [Hlt | Hge].
    - assert (Hov : ov' = false) by (destruct Hstop; [lia | assumption]).
      subst ov'. cbn [Z.b2z] in *.
      unfold memcpy.
      replace ((0 <=? Z.of_nat i')
               && (Z.of_nat i' + (Z.of_nat M - Z.of_nat i') <=? Z.of_nat (length dl)))
        with true by (symmetry; apply andb_true_iff; split; apply Z.leb_le; lia).
      replace ((0 <=? Z.of_nat i')
               && (Z.of_nat i' + (Z.of_nat M - Z.of_nat i') <=? Z.of_nat (length zl')))
        with true by (symmetry; apply andb_true_iff; split; apply Z.leb_le; lia).
      cbn [negb]. rewrite Nat2Z.id.
      replace (Z.to_nat (Z.of_nat M - Z.of_nat i')) with (M - i')%nat by lia.
      replace (Z.to_nat (Z.of_nat i' + (Z.of_nat M - Z.of_nat i'))) with M by lia.
      eexists. split; [reflexivity |].
      assert (HdlM : firstn M dl = firstn i' dl ++ firstn (M - i') (skipn i' dl)).
      { replace M with (i' + (M - i'))%nat at 1 by lia. apply firstn_plus. }
      assert (Hpre : firstn M (firstn i' zl' ++ firstn (M - i') (skipn i' dl)
                               ++ skipn M zl')
                     = firstn i' zl' ++ firstn (M - i') (skipn i' dl)).
      { rewrite app_assoc. rewrite firstn_app.
        rewrite !length_app, !length_firstn, length_skipn.
        replace (M - (Nat.min i' (length zl')
                      + Nat.min (M - i') (length dl - i')))%nat with 0%nat by lia.
        rewrite firstn_0, app_nil_r.
        apply firstn_all2.
        rewrite length_app, !length_firstn, length_skipn. lia. }
      rewrite Hpre. split.
      + rewrite !length_app, !length_firstn, !length_skipn. lia.
      + rewrite HdlM, forallb_app in HvL. apply andb_true_iff in HvL.
        destruct HvL as [_ HvR]. split.
        * now rewrite forallb_app, Hv', HvR.
        * rewrite HdlM, !magnitude_app_list.
          rewrite !length_firstn, !Nat.min_l by lia. lia.
    - assert (i' = M) by lia. subst i'. eexists. split; [reflexivity |].
      repeat split; assumption. }
  destruct Hcopy as (z2 & -> & Hlen2 & Hv2 & Hm2). cbn [bind].
  (* the carry byte and the counts *)
  unfold store. rewrite in_range_true by lia. cbn [bind]. rewrite Nat2Z.id.
  set (z3 := list_set z2 M (Z.b2z ov')).
  assert (Hlen3 : length z3 = S M) by (subst z3; now rewrite length_list_set).
  assert (Hpre3 : firstn M z3 = firstn M z2)
    by (subst z3; apply firstn_list_set_le; lia).
  assert (Htop3 : firstn (S M) z3 = firstn M z2 ++ [Z.b2z ov'])
    by (subst z3; apply firstn_list_set_snoc; lia).
  assert (Hnth : nth (M - 1) z3 0 = nth (M - 1) (firstn M z2) 0).
  { rewrite <- Hpre3, nth_firstn.
    destruct (Nat.ltb_spec (M - 1) M); [reflexivity | lia]. }
  assert (Hnz : ov' = false -> nth (M - 1) z3 0 <> 0).
  { intros -> Ez. cbn [Z.b2z] in Hm2.
    assert (Hs : firstn M z2 = firstn (M - 1) z2 ++ [nth (M - 1) z2 0]).
    { replace M with (S (M - 1)) at 1 by lia. apply firstn_S_snoc. lia. }
    rewrite Hnth, nth_firstn in Ez.
    destruct (Nat.ltb_spec (M - 1) M); [| lia].
    rewrite Hs, Ez in Hm2, Hv2. rewrite magnitude_app in Hm2.
    rewrite forallb_app in Hv2. apply andb_true_iff in Hv2. destruct Hv2 as [Hv2 _].
    pose proof (magnitude_range _ Hv2) as Hr.
    rewrite length_firstn, Nat.min_l in Hr, Hm2 by lia.
    replace (Z.of_nat (M - 1)) with (Z.of_nat M - 1) in Hr, Hm2 by lia.
    change (pair_value 0) with 0 in Hm2. lia. }
  destruct ov'; cbn [Z.b2z bind] in *.
  - change (load (Some z3) 0) with (load (Some z3) (Z.of_nat 0)).
    rewrite load_nth by lia. cbn [bind].
    replace (Z.of_nat M + 1) with (Z.of_nat (S M)) by lia.
    assert (Hn1 : nth M z3 0 = 1).
    { assert (En : nth M (firstn (S M) z3) 0 = 1).
      { rewrite Htop3, app_nth2; rewrite length_firstn; [| lia].
        replace (M - Nat.min M (length z2))%nat with 0%nat by lia. reflexivity. }
      rewrite nth_firstn in En.
      destruct (Nat.ltb_spec M (S M)); [exact En | lia]. }
    destruct (canonical_intro z3 (S M) (Z.of_nat M * 2 + 1) (negative x)
                (nth 0 z3 0 mod 2 =? 0)) as (Hcan & Hdig).
    + lia.
    + rewrite Htop3, forallb_app, Hv2. reflexivity.
    + replace (S M - 1)%nat with M by lia. rewrite Hn1. discriminate.
    + replace (S M - 1)%nat with M by lia. rewrite Hn1.
      change (nonzero (Z.land 1 240)) with false. cbv iota. lia.
    + eexists. split; [reflexivity |]. split; [exact Hcan |].
      split; [reflexivity |]. split; [reflexivity |].
      rewrite Hdig, Htop3, magnitude_app.
      rewrite length_firstn, Nat.min_l by lia.
      change (pair_value 1) with 1. lia.
  - replace (Z.of_nat M - 1) with (Z.of_nat (M - 1)) by lia.
    rewrite load_nth by lia. cbn [bind].
    change (load (Some z3) 0) with (load (Some z3) (Z.of_nat 0)).
    rewrite load_nth by lia. cbn [bind]. rewrite Z.add_0_r.
    destruct (canonical_intro z3 M
                (if nonzero (Z.land (nth (M - 1) z3 0) 240)
                 then Z.of_nat M * 2 else Z.of_nat M * 2 - 1)
                (negative x) (nth 0 z3 0 mod 2 =? 0)) as (Hcan & Hdig).
    + lia.
    + now rewrite Hpre3.
    + now apply Hnz.
    + destruct (nonzero (Z.land (nth (M - 1) z3 0) 240)); lia.
    + eexists. split; [reflexivity |]. split; [exact Hcan |].
      split; [reflexivity |]. split; [reflexivity |].
      rewrite Hdig, Hpre3. lia.
Qed.

Lemma canonical_set_negative :
  forall x b, canonical (set_negative x b) = canonical x.
Proof. reflexivity. Qed.

Lemma canonical_zero_magnitude :
  forall x, canonical x = true -> zero x = true -> magnitude (digits_of x) = 0.
Proof.
  intros x Hc Hz. destruct (canonical_elim x Hc) as (_ & _ & _ & _ & _ & Hzb).
  rewrite Hz in Hzb. symmetry in Hzb. apply Z.eqb_eq in Hzb.
  destruct (canonical_magnitude x Hc) as (_ & [(_ & _ & Hm) | (? & _)]); [exact Hm | lia].
Qed.

Lemma canonical_zero_value :
  forall x, canonical x = true -> zero x = true -> value x = 0.
Proof.
  intros x Hc Hz. unfold value. rewrite (canonical_zero_magnitude x Hc Hz).
  now destruct (negative x).
Qed.

(** What the copy of a canonical value is. *)
Lemma copy_canonical :
  forall x, canonical x = true ->
    exists r, copy_BCD_int x = Ok r /\ canonical r = true /\ value r = value x
              /\ zero r = zero x /\ negative r = negative x.
Proof.
  intros x Hc. pose proof (canonical_finite x Hc) as Hf.
  pose proof (copy_BCD_int_finite x Hf) as Hr.
  destruct (digits_of_copy x _ Hf Hr) as (Hd & Hb & Hdd & Hs & Hz & _ & _ & Hfr).
  eexists. split; [exact Hr |].
  split; [eapply canonical_transfer; eassumption |].
  split; [unfold value; now rewrite Hd, Hs |]. split; assumption.
Qed.

(** Addition of canonical operands of one sign, or with a zero operand. *)
Lemma add_bcd_depth_exact :
  forall d x y,
    canonical x = true -> canonical y = true ->
    negative x = negative y \/ zero x = true \/ zero y = true ->
    exists r,
      add_bcd_depth (S d) x y = Ok r
      /\ canonical r = true /\ value r = value x + value y
      /\ (zero x = false -> zero y = false ->
          zero r = false /\ negative r = negative x).
Proof.
  intros d x y Hx Hy Hs.
  destruct (canonical_elim x Hx) as (Hxn & _).
  destruct (canonical_elim y Hy) as (Hyn & _).
  cbn [add_bcd_depth]. rewrite Hxn, Hyn. cbn [orb].
  destruct (zero x) eqn:Hxz, (zero y) eqn:Hyz; cbn [andb].
  - exists BCD_zero. split; [reflexivity |]. split; [reflexivity |].
    rewrite (canonical_zero_value x Hx Hxz), (canonical_zero_value y Hy Hyz).
    split; [reflexivity | discriminate].
  - destruct (copy_canonical y Hy) as (r & Hr & Hc & Hv & _).
    exists r. split; [exact Hr |]. split; [exact Hc |].
    rewrite (canonical_zero_value x Hx Hxz). split; [lia | discriminate].
  - destruct (copy_canonical x Hx) as (r & Hr & Hc & Hv & _).
    exists r. split; [exact Hr |]. split; [exact Hc |].
    rewrite (canonical_zero_value y Hy Hyz). split; [lia | discriminate].
  - destruct Hs as [Hs | [Hs | Hs]]; try discriminate.
    rewrite Hs, eqb_reflx. cbn [negb].
    destruct (add_magnitudes_exact x y Hx Hy Hxz Hyz)
      as (r & Hr & Hc & Hz & Hn & Hm).
    exists r. split; [exact Hr |]. split; [exact Hc |].
    split; [| intros _ _; split; [exact Hz | congruence]].
    unfold value. rewrite Hn, Hm, <- Hs. destruct (negative x); lia.
Qed.

(** X9: addition of canonical operands of one sign, or with a zero
    operand, succeeds and is exact: the result is canonical and denotes
    the sum, in either operand order; incrementing a non-negative value
    adds one. *)
Theorem add_bcd_exact (x y : BCD_int)
  (Hx : canonical x = true) (Hy : canonical y = true)
  (Hs : negative x = negative y \/ zero x = true \/ zero y = true) :
  (exists r, add_bcd x y = Ok r /\ canonical r = true
             /\ value r = value x + value y)
  /\ (exists r', add_bcd y x = Ok r' /\ canonical r' = true
                 /\ value r' = value x + value y)
  /\ (negative x = false ->
      exists i, inc_bcd x = Ok i /\ canonical i = true
                /\ value i = value x + 1).
Proof.
  split; [| split].
  - destruct (add_bcd_depth_exact 1 x y Hx Hy Hs) as (r & Hr & Hc & Hv & _).
    exists r. repeat split; assumption.
  - destruct (add_bcd_depth_exact 1 y x Hy Hx) as (r & Hr & Hc & Hv & _).
    { destruct Hs as [Hs | [Hs | Hs]]; auto. }
    exists r. repeat split; try assumption. lia.
  - intro Hn.
    destruct (add_bcd_depth_exact 1 x BCD_one Hx eq_refl) as (r & Hr & Hc & Hv & _).
    { left. rewrite Hn. reflexivity. }
    exists r. repeat split; assumption.
Qed.

Lemma add_bcd_exact_witness :
  exists r, add_bcd (new_BCD_int1 (-999)) (new_BCD_int1 (-1)) = Ok r
            /\ canonical r = true /\ value r = -999 + -1.
Proof.
  apply (proj1 (add_bcd_exact (new_BCD_int1 (-999)) (new_BCD_int1 (-1))
                  eq_refl eq_refl (or_introl eq_refl))).
Defined.

Lemma value_set_negative :
  forall x b,
    value (set_negative x b)
    = if b then - magnitude (digits_of x) else magnitude (digits_of x).
Proof. reflexivity. Qed.

(** Subtraction of canonical operands of opposite signs, or with a zero
    operand. *)
Lemma sub_bcd_mixed :
  forall x y,
    canonical x = true -> canonical y = true ->
    negative x <> negative y \/ zero x = true \/ zero y = true ->
    exists r, sub_bcd x y = Ok r /\ canonical r = true
              /\ value r = value x - value y.
Proof.
  intros x y Hx Hy Hs.
  destruct (canonical_elim x Hx) as (Hxn & _).
  destruct (canonical_elim y Hy) as (Hyn & _).
  unfold sub_bcd. cbn [sub_bcd_depth]. rewrite Hxn, Hyn. cbn [orb].
  unfold opp_bcd, sign_bcd. rewrite Hyn. cbn [negb].
  destruct (zero x) eqn:Hxz, (zero y) eqn:Hyz; cbn [andb].
  - exists BCD_zero. split; [reflexivity |]. split; [reflexivity |].
    now rewrite (canonical_zero_value x Hx Hxz), (canonical_zero_value y Hy Hyz).
  - destruct (copy_canonical (set_negative y (negb (negative y))) Hy)
      as (r & Hr & Hc & Hv & _).
    exists r. split; [exact Hr |]. split; [exact Hc |].
    rewrite Hv, value_set_negative, (canonical_zero_value x Hx Hxz).
    unfold value. destruct (negative y); cbn [negb]; lia.
  - destruct (copy_canonical x Hx) as (r & Hr & Hc & Hv & _).
    exists r. split; [exact Hr |]. split; [exact Hc |].
    rewrite (canonical_zero_value y Hy Hyz). lia.
  - destruct Hs as [Hs | [Hs | Hs]]; try discriminate.
    replace (Bool.eqb (negative x) (negative y)) with false
      by (symmetry; now apply eqb_false_iff).
    cbn [negb bind].
    destruct (add_bcd_depth_exact 0 x (set_negative y (negb (negative y))) Hx Hy)
      as (r & Hr & Hc & Hv & _).
    { left. cbn [negative set_negative].
      destruct (negative x), (negative y); try reflexivity; contradiction. }
    exists r. split; [exact Hr |]. split; [exact Hc |].
    rewrite Hv, value_set_negative. unfold value.
    destruct (negative y); cbn [negb]; lia.
Qed.

(** X10: subtraction of canonical operands of opposite signs, or with a
    zero operand, succeeds and is exact: the result is canonical and
    denotes the difference; decrementing a negative or zero value
    subtracts one. *)
Theorem sub_bcd_mixed_exact (x y : BCD_int)
  (Hx : canonical x = true) (Hy : canonical y = true)
  (Hs : negative x <> negative y \/ zero x = true \/ zero y = true) :
  (exists r, sub_bcd x y = Ok r /\ canonical r = true
             /\ value r = value x - value y)
  /\ (negative x = true \/ zero x = true ->
      exists d, dec_bcd x = Ok d /\ canonical d = true
                /\ value d = value x - 1).
Proof.
  split; [exact (sub_bcd_mixed x y Hx Hy Hs) |].
  intro Hd. apply (sub_bcd_mixed x BCD_one Hx eq_refl).
  destruct Hd as [Hd | Hd]; [left | right; left; exact Hd].
  rewrite Hd. discriminate.
Qed.

Lemma sub_bcd_mixed_exact_witness :
  exists r, sub_bcd (new_BCD_int1 (-95)) (new_BCD_int1 7) = Ok r
            /\ canonical r = true /\ value r = -95 - 7.
Proof.
  assert (Hs : negative (new_BCD_int1 (-95)) <> negative (new_BCD_int1 7))
    by (vm_compute; discriminate).
  apply (proj1 (sub_bcd_mixed_exact (new_BCD_int1 (-95)) (new_BCD_int1 7)
                  eq_refl eq_refl (or_introl Hs))).
Defined.

(** Two finite records over one buffer, with the same counts and sign,
    compare equal. *)
Lemma cmp_bcd_same_digits :
  forall x y,
    finite x = true -> nan y = false ->
    data y = data x -> bcd_digits y = bcd_digits x ->
    decimal_digits y = decimal_digits x -> negative y = negative x ->
    cmp_bcd x y = Ok EQUAL_TO.
Proof.
  intros x y Hf Hyn Hd Hb Hdd Hs.
  destruct (finite_elim x Hf) as (Hn & Hb0 & Hr).
  unfold cmp_bcd. rewrite Hn, Hyn, Hs, eqb_reflx, Hdd, Z.eqb_refl. cbn [orb negb].
  destruct (Z.eq_dec (bcd_digits x) 0) as [-> | Hnz]; [reflexivity |].
  destruct (Hr Hnz) as (l & Hl & Hlen).
  apply cmp_scan_same with (l := l); [exact Hl | congruence | lia].
Qed.

(** X11: a finite value cancels itself: [sub_bcd(x, x)] is the zero
    constant, and so is [add_bcd] of [x] and its opposite. *)
Theorem sub_bcd_self (x : BCD_int) (Hf : finite x = true) :
  sub_bcd x x = Ok BCD_zero
  /\ exists o, opp_bcd x true = Ok o /\ add_bcd x o = Ok BCD_zero.
Proof.
  destruct (finite_elim x Hf) as (Hn & _).
  split.
  - unfold sub_bcd. cbn [sub_bcd_depth]. rewrite Hn. cbn [orb].
    destruct (zero x) eqn:Hz; cbn [andb]; [reflexivity |].
    rewrite eqb_reflx. cbn [negb]. unfold sub_magnitudes.
    rewrite (cmp_bcd_self x Hf). reflexivity.
  - unfold opp_bcd, sign_bcd. rewrite Hn. cbn [negb].
    eexists. split; [reflexivity |].
    unfold add_bcd. cbn [add_bcd_depth sub_bcd_depth].
    cbn [nan zero negative set_negative]. rewrite Hn. cbn [orb].
    destruct (zero x) eqn:Hz; cbn [andb]; [reflexivity |].
    unfold opp_bcd, sign_bcd. cbn [nan negative set_negative]. rewrite Hn.
    destruct (negative x) eqn:Hs; cbn [negb Bool.eqb bind];
      cbn [nan zero negative set_negative]; rewrite ?Hn, ?Hz;
      cbn [orb andb negb Bool.eqb];
      unfold sub_magnitudes;
      rewrite cmp_bcd_same_digits; auto.
Qed.

Lemma sub_bcd_self_witness :
  sub_bcd (new_BCD_int1 1234) (new_BCD_int1 1234) = Ok BCD_zero.
Proof. apply (proj1 (sub_bcd_self (new_BCD_int1 1234) eq_refl)). Defined.

(** ** Products of digit pairs *)

Lemma mul_dig_pair_checked :
  forallb (fun a => forallb (fun b => mul_dig_pair a b =? pair_value a * pair_value b)
                            valid_bytes) valid_bytes = true.
Proof. vm_compute. reflexivity. Qed.

Lemma mul_dig_pair_spec :
  forall a b, valid_pair a = true -> valid_pair b = true ->
    mul_dig_pair a b = pair_value a * pair_value b.
Proof.
  intros a b Ha Hb.
  pose proof mul_dig_pair_checked as H.
  rewrite forallb_forall in H. specialize (H a (valid_bytes_in a Ha)).
  rewrite forallb_forall in H. specialize (H b (valid_bytes_in b Hb)).
  now apply Z.eqb_eq in H.
Qed.

(** X12: on bytes holding two decimal digits each, [mul_dig_pair] is the
    product of the two numbers in [0, 99]; it is at most 9801 and is zero
    exactly when one of the bytes is zero. *)
Theorem mul_dig_pair_exact (a b : Z)
  (Ha : valid_pair a = true) (Hb : valid_pair b = true) :
  mul_dig_pair a b = pair_value a * pair_value b
  /\ 0 <= mul_dig_pair a b <= 9801
  /\ (mul_dig_pair a b = 0 <-> a = 0 \/ b = 0).
Proof.
  rewrite (mul_dig_pair_spec a b Ha Hb).
  destruct (valid_pair_facts a Ha) as (_ & Ra & _ & _ & Na & _).
  destruct (valid_pair_facts b Hb) as (_ & Rb & _ & _ & Nb & _).
  split; [reflexivity |]. split; [nia |].
  split.
  - intro H.
    destruct (Z.eq_dec a 0) as [-> | Ha0]; [now left |].
    destruct (Z.eq_dec b 0) as [-> | Hb0]; [now right |].
    specialize (Na Ha0). specialize (Nb Hb0). nia.
  - intros [-> | ->]; [reflexivity |]. cbn. lia.
Qed.

Lemma mul_dig_pair_exact_witness :
  mul_dig_pair 153 153 = 99 * 99.
Proof. apply (proj1 (mul_dig_pair_exact 153 153 eq_refl eq_refl)). Defined.

(** ** Shifts by an even number of decimal digits *)

(** The most significant byte of a canonical nonzero value. *)
Lemma canonical_nonzero_top :
  forall x dx n, canonical x = true -> zero x = false ->
    data x = Some dx -> bcd_digits x = Z.of_nat n ->
    nth (n - 1) dx 0 <> 0
    /\ decimal_digits x
       = (if nonzero (Z.land (nth (n - 1) dx 0) 240)
          then 2 * Z.of_nat n else 2 * Z.of_nat n - 1).
Proof.
  intros x dx n Hc Hz Hd Hb.
  destruct (canonical_elim x Hc) as (_ & Hb0 & Hr & Hv & Hcc & Hzb).
  rewrite Hz in Hzb. symmetry in Hzb. apply Z.eqb_neq in Hzb.
  destruct (Hr Hzb) as (dx' & Hd' & Hlen).
  rewrite Hd in Hd'. injection Hd' as <-.
  unfold canonical_counts in Hcc.
  replace (bcd_digits x =? 0) with false in Hcc by (symmetry; now apply Z.eqb_neq).
  assert (Hdig : digits_of x = firstn n dx).
  { unfold digits_of. now rewrite Hd, Hb, Nat2Z.id. }
  assert (Hlast : last (digits_of x) 0 = nth (n - 1) dx 0).
  { rewrite Hdig, last_nth, length_firstn, Nat.min_l by lia.
    rewrite nth_firstn.
    destruct (Nat.ltb_spec (n - 1) n); [reflexivity | lia]. }
  rewrite Hlast in Hcc. apply andb_true_iff in Hcc. destruct Hcc as [Hnz Hdd].
  apply Z.eqb_eq in Hdd. rewrite Hb in Hdd.
  split; [| exact Hdd].
  unfold nonzero in Hnz. now apply negb_true_iff, Z.eqb_neq in Hnz.
Qed.

Lemma magnitude_repeat_0 : forall k, magnitude (repeat 0 k) = 0.
Proof.
  induction k as [| k IH]; [reflexivity |].
  cbn [repeat magnitude]. rewrite IH. reflexivity.
Qed.

Lemma forallb_valid_repeat_0 : forall k, forallb valid_pair (repeat 0 k) = true.
Proof. induction k as [| k IH]; [reflexivity |]. cbn [repeat forallb]. now rewrite IH. Qed.

Lemma firstn_repeat_0 :
  forall k m, firstn k (repeat 0 (k + m)) = repeat 0 k.
Proof.
  induction k as [| k IH]; intro m; [reflexivity |].
  cbn [Nat.add repeat firstn]. now rewrite IH.
Qed.

(** A left shift by an even number of digits prepends zero bytes. *)
Lemma mul_bcd_pow_10_even_exact :
  forall x tens,
    canonical x = true -> 0 <= tens -> tens mod 2 = 0 ->
    decimal_digits x + tens < 2 ^ 64 - 1 ->
    exists r,
      mul_bcd_pow_10 x tens = Ok r
      /\ canonical r = true
      /\ magnitude (digits_of r) = magnitude (digits_of x) * 10 ^ tens
      /\ zero r = zero x
      /\ (zero x = false -> negative r = negative x)
      /\ decimal_digits r = (if zero x then 0 else decimal_digits x + tens).
Proof.
  intros x tens Hc Ht Hev Hfit.
  destruct (canonical_elim x Hc) as (Hn & _).
  unfold mul_bcd_pow_10. rewrite Hn.
  destruct (zero x) eqn:Hz.
  { exists BCD_zero. repeat split; try reflexivity.
    - rewrite (canonical_zero_magnitude x Hc Hz). reflexivity.
    - discriminate. }
  destruct (tens =? 0) eqn:Ht0.
  { apply Z.eqb_eq in Ht0. subst tens.
    destruct (digits_of_copy x _ (canonical_finite x Hc)
                (copy_BCD_int_finite x (canonical_finite x Hc)))
      as (Hd & Hb & Hdd & Hs & Hzr & Hnr & _ & Hf).
    rewrite (copy_BCD_int_finite x (canonical_finite x Hc)).
    eexists. split; [reflexivity |].
    split; [eapply canonical_transfer; eauto |].
    rewrite Hd, Hzr, Hz, Hdd. repeat split; auto; lia. }
  apply Z.eqb_neq in Ht0.
  destruct (canonical_nonzero_elim x Hc Hz) as (dx & n & Hd & Hb & Hlen & Hdig & Hv & Hm).
  destruct (canonical_nonzero_top x dx n Hc Hz Hd Hb) as (Htop & Hdd).
  destruct (canonical_magnitude x Hc) as (Hbd & _).
  set (K := Z.to_nat (tens / 2)).
  assert (HK : tens = 2 * Z.of_nat K).
  { unfold K. rewrite Z2Nat.id by (apply Z.div_pos; lia).
    pose proof (Z.div_mod tens 2 ltac:(lia)). lia. }
  assert (Hret : (decimal_digits x + tens + 1) / 2 = Z.of_nat (K + n)).
  { rewrite HK. replace (decimal_digits x + 2 * Z.of_nat K + 1)
      with (decimal_digits x + 1 + Z.of_nat K * 2) by lia.
    rewrite Z.div_add by lia. lia. }
  replace (tens mod 2 =? 0) with true by (symmetry; now apply Z.eqb_eq).
  assert (Hdd0 : 0 <= decimal_digits x)
    by (destruct (nonzero (Z.land (nth (n - 1) dx 0) 240)); lia).
  assert (U1 : umax (decimal_digits x + tens) = decimal_digits x + tens)
    by (apply Z.mod_small; lia).
  assert (U2 : umax (decimal_digits x + tens + 1) = decimal_digits x + tens + 1)
    by (apply Z.mod_small; lia).
  assert (U3 : umax (Z.of_nat (K + n) - Z.of_nat n) = Z.of_nat (K + n) - Z.of_nat n).
  { apply Z.mod_small. split; [lia |].
    assert (Z.of_nat (K + n) < 2 ^ 64)
      by (rewrite <- Hret; apply Z.div_lt_upper_bound; lia).
    lia. }
  rewrite U1, U2, Hret, Hb, Hd, U3.
  assert (Hcpy : memcpy (malloc (Z.of_nat (K + n))) (Z.of_nat (K + n) - Z.of_nat n)
                        (Some dx) 0 (Z.of_nat n)
                 = Ok (Some (repeat 0 K ++ firstn n dx))).
  { unfold memcpy, malloc. rewrite repeat_length, !Nat2Z.id.
    replace ((0 <=? 0) && (0 + Z.of_nat n <=? Z.of_nat (length dx)))
      with true by (symmetry; apply andb_true_iff; split; apply Z.leb_le; lia).
    replace ((0 <=? Z.of_nat (K + n) - Z.of_nat n)
             && (Z.of_nat (K + n) - Z.of_nat n + Z.of_nat n <=? Z.of_nat (K + n)))
      with true by (symmetry; apply andb_true_iff; split; apply Z.leb_le; lia).
    cbn [negb]. do 2 f_equal.
    replace (Z.to_nat (Z.of_nat (K + n) - Z.of_nat n)) with K by lia.
    replace (Z.to_nat (Z.of_nat (K + n) - Z.of_nat n + Z.of_nat n)) with (K + n)%nat by lia.
    rewrite firstn_repeat_0.
    cbn [Z.to_nat skipn].
    rewrite skipn_all2 by (rewrite repeat_length; lia).
    now rewrite app_nil_r. }
  rewrite Hcpy. cbn [bind].
  assert (Hnth : nth (K + n - 1) (repeat 0 K ++ firstn n dx) 0 = nth (n - 1) dx 0).
  { rewrite app_nth2 by (rewrite repeat_length; lia).
    rewrite repeat_length, nth_firstn.
    replace (K + n - 1 - K)%nat with (n - 1)%nat by lia.
    destruct (Nat.ltb_spec (n - 1) n); [reflexivity | lia]. }
  assert (Hfst : firstn (K + n) (repeat 0 K ++ firstn n dx) = repeat 0 K ++ firstn n dx).
  { apply firstn_all2. rewrite length_app, repeat_length, length_firstn. lia. }
  destruct (canonical_intro (repeat 0 K ++ firstn n dx) (K + n)
              (decimal_digits x + tens) (negative x) (even x || nonzero tens))
    as (Hcr & Hdr).
  - rewrite length_app, repeat_length, length_firstn. lia.
  - rewrite Hfst, forallb_app, forallb_valid_repeat_0, Hv. reflexivity.
  - now rewrite Hnth.
  - rewrite Hnth, Hdd. destruct (nonzero (Z.land (nth (n - 1) dx 0) 240)); lia.
  - eexists. split; [reflexivity |].
    split; [exact Hcr |].
    rewrite Hdr, Hfst, Hdig, magnitude_app_list, magnitude_repeat_0, repeat_length.
    rewrite HK, pow_10_even by lia.
    repeat split; try reflexivity. lia.
Qed.

(** A right shift by an even number of digits drops the low bytes and
    the sign. *)
Lemma div_bcd_pow_10_even_exact :
  forall a tens,
    canonical a = true -> 0 < tens -> tens mod 2 = 0 ->
    exists r,
      div_bcd_pow_10 a tens = Ok r
      /\ canonical r = true
      /\ magnitude (digits_of r) = magnitude (digits_of a) / 10 ^ tens
      /\ negative r = false
      /\ zero r = (tens >=? decimal_digits a).
Proof.
  intros a tens Hc Ht Hev.
  destruct (canonical_elim a Hc) as (Hn & _).
  unfold div_bcd_pow_10. rewrite Hn.
  replace (tens =? 0) with false by (symmetry; apply Z.eqb_neq; lia).
  destruct (canonical_magnitude a Hc) as (Hbd & Hmag).
  destruct (tens >=? decimal_digits a) eqn:Hge.
  { exists BCD_zero. repeat split; try reflexivity.
    symmetry. apply Z.div_small.
    assert (Hle : decimal_digits a <= tens) by lia.
    destruct Hmag as [(_ & _ & ->) | (_ & Hdd & Hlo & Hhi)].
    - split; [lia |]. apply Z.pow_pos_nonneg; lia.
    - split; [pose proof (Z.pow_pos_nonneg 10 (decimal_digits a - 1)); lia |].
      eapply Z.lt_le_trans; [exact Hhi |]. apply Z.pow_le_mono_r; lia. }
  assert (Hlt : tens < decimal_digits a) by lia.
  assert (Hz : zero a = false).
  { destruct (canonical_elim a Hc) as (_ & _ & _ & _ & _ & Hzb).
    rewrite Hzb. apply Z.eqb_neq.
    destruct Hmag as [(_ & ? & _) | (? & _)]; lia. }
  destruct (canonical_nonzero_elim a Hc Hz) as (dx & n & Hd & Hb & Hlen & Hdig & Hv & Hm).
  destruct (canonical_nonzero_top a dx n Hc Hz Hd Hb) as (Htop & Hdd).
  set (K := Z.to_nat (tens / 2)).
  assert (HK : tens = 2 * Z.of_nat K).
  { unfold K. rewrite Z2Nat.id by (apply Z.div_pos; lia).
    pose proof (Z.div_mod tens 2 ltac:(lia)). lia. }
  assert (HKn : (K < n)%nat).
  { destruct (nonzero (Z.land (nth (n - 1) dx 0) 240)); lia. }
  assert (Hret : (decimal_digits a - tens + 1) / 2 = Z.of_nat (n - K)).
  { rewrite HK. replace (decimal_digits a - 2 * Z.of_nat K + 1)
      with (decimal_digits a + 1 + (- Z.of_nat K) * 2) by lia.
    rewrite Z.div_add by lia. lia. }
  replace (tens mod 2 =? 0) with true by (symmetry; now apply Z.eqb_eq).
  rewrite Hret, Hb, Hd.
  set (zl := firstn (n - K) (skipn K dx)).
  assert (Hzlen : length zl = (n - K)%nat).
  { unfold zl. rewrite length_firstn, length_skipn. lia. }
  assert (Hcpy : memcpy (malloc (Z.of_nat (n - K))) 0 (Some dx)
                        (Z.of_nat n - Z.of_nat (n - K)) (Z.of_nat (n - K))
                 = Ok (Some zl)).
  { unfold memcpy, malloc. rewrite repeat_length, !Nat2Z.id.
    replace ((0 <=? Z.of_nat n - Z.of_nat (n - K))
             && (Z.of_nat n - Z.of_nat (n - K) + Z.of_nat (n - K)
                 <=? Z.of_nat (length dx)))
      with true by (symmetry; apply andb_true_iff; split; apply Z.leb_le; lia).
    replace ((0 <=? 0) && (0 + Z.of_nat (n - K) <=? Z.of_nat (n - K)))
      with true by (symmetry; apply andb_true_iff; split; apply Z.leb_le; lia).
    cbn [negb]. do 2 f_equal.
    replace (Z.to_nat (Z.of_nat n - Z.of_nat (n - K))) with K by lia.
    replace (Z.to_nat (0 + Z.of_nat (n - K))) with (n - K)%nat by lia.
    cbn [Z.to_nat firstn app].
    rewrite (skipn_all2 (n := (n - K)%nat) (repeat 0 (n - K))) by (rewrite repeat_length; lia).
    now rewrite app_nil_r. }
  rewrite Hcpy. cbn [bind].
  assert (Hsplit : firstn n dx = firstn K dx ++ zl).
  { unfold zl. replace n with (K + (n - K))%nat at 1 by lia. apply firstn_plus. }
  assert (Hl0 : load (Some zl) 0 = Ok (nth 0 zl 0)).
  { change 0 with (Z.of_nat 0) at 1. apply load_nth. lia. }
  rewrite Hl0. cbn [bind].
  assert (Hnth : nth (n - K - 1) zl 0 = nth (n - 1) dx 0).
  { unfold zl. rewrite nth_firstn.
    destruct (Nat.ltb_spec (n - K - 1) (n - K)); [| lia].
    rewrite nth_skipn. f_equal. lia. }
  rewrite Hsplit, forallb_app in Hv. apply andb_true_iff in Hv. destruct Hv as [Hv1 Hv2].
  destruct (canonical_intro zl (n - K) (decimal_digits a - tens) false
              (nth 0 zl 0 mod 2 =? 0)) as (Hcr & Hdr).
  - lia.
  - rewrite firstn_all2 by lia. exact Hv2.
  - now rewrite Hnth.
  - rewrite Hnth, Hdd. destruct (nonzero (Z.land (nth (n - 1) dx 0) 240)); lia.
  - eexists. split; [reflexivity |].
    split; [exact Hcr |].
    rewrite Hdr, Hdig, Hsplit, magnitude_app_list.
    rewrite firstn_all2 by lia.
    repeat split; try reflexivity.
    pose proof (magnitude_range _ Hv1) as R1.
    rewrite HK, pow_10_even by lia.
    rewrite length_firstn, Nat.min_l in * by lia.
    assert (0 < 100 ^ Z.of_nat K) by (apply Z.pow_pos_nonneg; lia).
    symmetry. rewrite Z.add_comm, Z.mul_comm, Z.div_add_l by lia.
    rewrite Z.div_small by lia. lia.
Qed.

Lemma value_magnitude_abs :
  forall x, canonical x = true -> magnitude (digits_of x) = Z.abs (value x).
Proof.
  intros x Hc. pose proof (canonical_magnitude_nonneg x Hc).
  unfold value. destruct (negative x); lia.
Qed.

Lemma value_of_magnitude :
  forall r x k,
    magnitude (digits_of r) = magnitude (digits_of x) * k ->
    zero r = zero x -> (zero x = false -> negative r = negative x) ->
    canonical x = true ->
    value r = value x * k.
Proof.
  intros r x k Hm Hz Hs Hc. unfold value. rewrite Hm.
  destruct (zero x) eqn:Hzx.
  - rewrite (canonical_zero_magnitude x Hc Hzx).
    destruct (negative r), (negative x); lia.
  - rewrite (Hs eq_refl). destruct (negative x); lia.
Qed.

(** X13: multiplying a canonical value by an even power of ten succeeds,
    by either name and in place, when the digit count of the result and
    its successor are [size_t] values (no wrap-around); the result is
    canonical and denotes [x * 10^tens], with [tens] more decimal digits
    unless [x] is zero. *)
Theorem mul_bcd_pow_10_even_value (x : BCD_int) (tens : Z)
  (Hc : canonical x = true) (Ht : 0 <= tens) (Hev : tens mod 2 = 0)
  (Hfit : decimal_digits x + tens < 2 ^ 64 - 1) :
  exists r,
    mul_bcd_pow_10 x tens = Ok r
    /\ shift_bcd_left x tens = Ok r
    /\ imul_bcd_pow_10 x tens = Ok r
    /\ canonical r = true
    /\ value r = value x * 10 ^ tens
    /\ decimal_digits r = (if zero x then 0 else decimal_digits x + tens).
Proof.
  destruct (mul_bcd_pow_10_even_exact x tens Hc Ht Hev Hfit)
    as (r & Hr & Hcr & Hm & Hz & Hs & Hdd).
  exists r. unfold shift_bcd_left, imul_bcd_pow_10, replace_with.
  rewrite Hr. cbn [bind].
  repeat split; auto.
  now apply value_of_magnitude.
Qed.

Lemma mul_bcd_pow_10_even_value_witness :
  exists r,
    mul_bcd_pow_10 (new_BCD_int1 (-123)) 4 = Ok r
    /\ canonical r = true /\ value r = -123 * 10 ^ 4.
Proof.
  destruct (mul_bcd_pow_10_even_value (new_BCD_int1 (-123)) 4 eq_refl
              ltac:(lia) eq_refl eq_refl) as (r & Hr & _ & _ & Hc & Hv & _).
  exists r. repeat split; assumption.
Defined.

(** X14: dividing a canonical value by an even positive power of ten
    succeeds, by either name; the result is canonical and non-negative and
    denotes the magnitude of [a] divided by [10^tens], rounded down: the
    sign of [a] is dropped.  Whatever the parity, a shift by at least the
    digit count of a finite value gives the zero constant. *)
Theorem div_bcd_pow_10_even_value (a : BCD_int) (tens : Z)
  (Hc : canonical a = true) (Ht : 0 < tens) (Hev : tens mod 2 = 0) :
  (exists r,
      div_bcd_pow_10 a tens = Ok r
      /\ shift_bcd_right a tens = Ok r
      /\ canonical r = true
      /\ value r = Z.abs (value a) / 10 ^ tens
      /\ negative r = false)
  /\ (forall t, 0 < t -> decimal_digits a <= t ->
        div_bcd_pow_10 a t = Ok BCD_zero).
Proof.
  split.
  - destruct (div_bcd_pow_10_even_exact a tens Hc Ht Hev)
      as (r & Hr & Hcr & Hm & Hs & _).
    exists r. unfold shift_bcd_right. repeat split; auto.
    unfold value at 1. rewrite Hs, Hm. now rewrite value_magnitude_abs.
  - intros t Ht0 Hle. unfold div_bcd_pow_10.
    destruct (canonical_elim a Hc) as (-> & _).
    replace (t =? 0) with false by (symmetry; apply Z.eqb_neq; lia).
    replace (t >=? decimal_digits a) with true; [reflexivity |].
    symmetry. apply Z.geb_le. lia.
Qed.

Lemma div_bcd_pow_10_even_value_witness :
  exists r,
    div_bcd_pow_10 (new_BCD_int1 (-12345)) 2 = Ok r
    /\ canonical r = true /\ value r = Z.abs (-12345) / 10 ^ 2.
Proof.
  destruct (proj1 (div_bcd_pow_10_even_value (new_BCD_int1 (-12345)) 2 eq_refl
                     ltac:(lia) eq_refl)) as (r & Hr & _ & Hc & Hv & _).
  exists r. repeat split; assumption.
Defined.

(** X15: shifting a canonical value left and then right by the same even
    positive number of digits gives back its magnitude, when the digit
    count of the shifted value and its successor are [size_t] values. *)
Theorem shift_left_right_even (x : BCD_int) (tens : Z)
  (Hc : canonical x = true) (Ht : 0 < tens) (Hev : tens mod 2 = 0)
  (Hfit : decimal_digits x + tens < 2 ^ 64 - 1) :
  exists m r,
    shift_bcd_left x tens = Ok m
    /\ shift_bcd_right m tens = Ok r
    /\ canonical r = true
    /\ value r = Z.abs (value x).
Proof.
  destruct (mul_bcd_pow_10_even_exact x tens Hc ltac:(lia) Hev Hfit)
    as (m & Hm & Hcm & Hmm & _).
  destruct (div_bcd_pow_10_even_exact m tens Hcm Ht Hev)
    as (r & Hr & Hcr & Hmr & Hs & _).
  exists m, r. unfold shift_bcd_left, shift_bcd_right.
  repeat split; auto.
  unfold value at 1. rewrite Hs, Hmr, Hmm.
  rewrite Z.div_mul by (apply Z.pow_nonzero; lia).
  now apply value_magnitude_abs.
Qed.

Lemma shift_left_right_even_witness :
  exists m r,
    shift_bcd_left (new_BCD_int1 (-907)) 6 = Ok m
    /\ shift_bcd_right m 6 = Ok r
    /\ canonical r = true
    /\ value r = Z.abs (value (new_BCD_int1 (-907))).
Proof.
  apply (shift_left_right_even (new_BCD_int1 (-907)) 6 eq_refl);
    [lia | reflexivity | reflexivity].
Defined.

(** ** Multiplication is exact *)

Lemma load_nth_Z :
  forall l i, 0 <= i < Z.of_nat (length l) ->
    load (Some l) i = Ok (nth (Z.to_nat i) l 0).
Proof.
  intros l i Hi. rewrite <- (Z2Nat.id i) at 1 by lia. apply load_nth. lia.
Qed.

Lemma magnitude_firstn_succ :
  forall (l : list Z) j, 0 <= j < Z.of_nat (length l) ->
    magnitude (firstn (Z.to_nat (j + 1)) l)
    = magnitude (firstn (Z.to_nat j) l) + 100 ^ j * pair_value (nth (Z.to_nat j) l 0).
Proof.
  intros l j Hj.
  replace (Z.to_nat (j + 1)) with (S (Z.to_nat j)) by lia.
  rewrite firstn_S_snoc by lia.
  rewrite magnitude_app, length_firstn, Nat.min_l by lia.
  now rewrite Z2Nat.id by lia.
Qed.

Lemma value_nonneg_magnitude :
  forall x, negative x = false -> value x = magnitude (digits_of x).
Proof. intros x H. unfold value. now rewrite H. Qed.

Lemma value_pos_not_negative :
  forall x, canonical x = true -> 0 < value x -> negative x = false.
Proof.
  intros x Hc Hv. pose proof (canonical_magnitude_nonneg x Hc).
  unfold value in Hv. destruct (negative x); [lia | reflexivity].
Qed.

(** One partial product of [mul_bcd], shifted to its position. *)
Lemma mul_addend_exact :
  forall st pw, 0 < st <= 9801 -> 0 <= pw <= 2 ^ 64 - 6 -> pw mod 2 = 0 ->
    exists ad,
      (if nonzero pw
       then imul_bcd_pow_10 (new_BCD_int2 st false) pw
       else Ok (new_BCD_int2 st false)) = Ok ad
      /\ canonical ad = true /\ negative ad = false /\ zero ad = false
      /\ value ad = st * 10 ^ pw.
Proof.
  intros st pw Hst Hpw Hev.
  destruct (new_BCD_int2_canonical st false ltac:(lia)) as (Hc & Hm & Hs & Hz).
  replace (st =? 0) with false in Hz by (symmetry; apply Z.eqb_neq; lia).
  unfold nonzero. destruct (Z.eqb_spec pw 0) as [-> | Hnz]; cbn [negb].
  - eexists. split; [reflexivity |]. repeat split; auto.
    rewrite value_nonneg_magnitude by exact Hs. rewrite Hm. cbn. lia.
  - assert (Hd4 : decimal_digits (new_BCD_int2 st false) <= 4).
    { rewrite new_BCD_int2_digits by lia.
      apply count_digits_le; [lia | lia | change (Z.of_nat 20) with 20; lia]. }
    destruct (mul_bcd_pow_10_even_exact (new_BCD_int2 st false) pw Hc
                ltac:(lia) Hev ltac:(lia))
      as (r & Hr & Hcr & Hmr & Hzr & Hsr & _).
    unfold imul_bcd_pow_10, replace_with. rewrite Hr. cbn [bind].
    eexists. split; [reflexivity |].
    rewrite Hz in Hzr. specialize (Hsr Hz). rewrite Hs in Hsr.
    repeat split; auto.
    rewrite value_nonneg_magnitude by exact Hsr. now rewrite Hmr, Hm.
Qed.

(** The running sum of [mul_bcd] after one more partial product. *)
Lemma mul_iadd_exact :
  forall acc ad,
    canonical acc = true -> negative acc = false ->
    canonical ad = true -> negative ad = false -> 0 < value ad ->
    exists r,
      iadd_bcd acc ad = Ok r
      /\ canonical r = true /\ negative r = false
      /\ value r = value acc + value ad.
Proof.
  intros acc ad Hca Hna Hcd Hnd Hpos.
  destruct (add_bcd_depth_exact 1 acc ad Hca Hcd) as (r & Hr & Hc & Hv & _).
  { left. congruence. }
  unfold iadd_bcd, replace_with, add_bcd. rewrite Hr. cbn [bind].
  exists r. repeat split; auto.
  apply value_pos_not_negative; [exact Hc |].
  pose proof (canonical_magnitude_nonneg acc Hca).
  rewrite Hv, (value_nonneg_magnitude acc Hna). lia.
Qed.

Lemma mul_accumulate_exact :
  forall x y,
    canonical x = true -> canonical y = true ->
    zero x = false -> zero y = false ->
    2 * (bcd_digits x + bcd_digits y) < 2 ^ 64 ->
    exists acc p,
      mul_accumulate x y BCD_zero = Ok (acc, p)
      /\ canonical acc = true /\ negative acc = false
      /\ value acc = magnitude (digits_of x) * magnitude (digits_of y).
Proof.
  intros x y Hx Hy Hxz Hyz Hsz.
  destruct (canonical_nonzero_elim x Hx Hxz)
    as (dx & nx & Hdx & Hbx & Hlx & Hgx & Hvx & _).
  destruct (canonical_nonzero_elim y Hy Hyz)
    as (dy & ny & Hdy & Hby & Hly & Hgy & Hvy & _).
  rewrite Hgx, Hgy.
  set (MY := magnitude (firstn ny dy)).
  pose (Inv := fun (i : Z) (t : BCD_int * Z) =>
                 canonical (fst t) = true /\ negative (fst t) = false
                 /\ snd t = 2 * i
                 /\ value (fst t) = magnitude (firstn (Z.to_nat i) dx) * MY).
  unfold mul_accumulate. rewrite Hbx, Hby, Hdx, Hdy in *.
  run_for_up Inv.
  { subst Inv. cbn [fst snd]. repeat split. }
  { intros i [acc ip] Hi (Hca & Hna & Hip & Hva). cbn [fst snd] in *.
    rewrite Nat2Z.id in Hi.
    set (xi := nth (Z.to_nat i) dx 0).
    assert (Hxi : valid_pair xi = true).
    { apply (valid_nth_firstn dx nx); [lia | lia | exact Hvx]. }
    pose (Inv2 := fun (j : Z) (t : BCD_int * Z) =>
                    canonical (fst t) = true /\ negative (fst t) = false
                    /\ snd t = 2 * (i + j)
                    /\ value (fst t)
                       = magnitude (firstn (Z.to_nat i) dx) * MY
                         + 100 ^ i * pair_value xi
                           * magnitude (firstn (Z.to_nat j) dy)).
    run_for_up Inv2.
    { subst Inv2. cbn [fst snd]. repeat split; auto; [lia |].
      cbn [Z.to_nat firstn magnitude]. lia. }
    { intros j [acc' pw] Hj (Hca' & Hna' & Hpw & Hva'). cbn [fst snd] in *.
      rewrite Nat2Z.id in Hj.
      rewrite (load_nth_Z dx i) by lia. cbn [bind]. fold xi.
      rewrite (load_nth_Z dy j) by lia. cbn [bind].
      set (yj := nth (Z.to_nat j) dy 0).
      assert (Hyj : valid_pair yj = true).
      { apply (valid_nth_firstn dy ny); [lia | lia | exact Hvy]. }
      cbv zeta.
      rewrite (mul_dig_pair_spec xi yj Hxi Hyj).
      destruct (valid_pair_facts xi Hxi) as (_ & Rx & _).
      destruct (valid_pair_facts yj Hyj) as (_ & Ry & _).
      assert (Hum : umax (pw + 2) = 2 * (i + (j + 1))).
      { unfold umax. rewrite Z.mod_small; lia. }
      assert (Hstep : magnitude (firstn (Z.to_nat (j + 1)) dy)
                      = magnitude (firstn (Z.to_nat j) dy) + 100 ^ j * pair_value yj).
      { apply magnitude_firstn_succ. lia. }
      destruct (Z.eqb_spec (pair_value xi * pair_value yj) 0) as [Hz0 | Hnz0].
      - eexists. split; [reflexivity |]. subst Inv2. cbn [fst snd].
        repeat split; auto.
        rewrite Hva', Hstep.
        replace (100 ^ i * pair_value xi
                 * (magnitude (firstn (Z.to_nat j) dy) + 100 ^ j * pair_value yj))
          with (100 ^ i * pair_value xi * magnitude (firstn (Z.to_nat j) dy)
                + 100 ^ i * 100 ^ j * (pair_value xi * pair_value yj)) by ring.
        rewrite Hz0. ring.
      - destruct (mul_addend_exact (pair_value xi * pair_value yj) pw)
          as (ad & Had & Hcd & Hnd & Hzd & Hvd); [nia | lia | | ].
        { rewrite Hpw. replace (2 * (i + j)) with ((i + j) * 2) by lia.
          apply Z.mod_mul. lia. }
        rewrite Had. cbn [bind].
        assert (Hpos : 0 < value ad).
        { rewrite Hvd. apply Z.mul_pos_pos; [nia |]. apply Z.pow_pos_nonneg; lia. }
        destruct (mul_iadd_exact acc' ad Hca' Hna' Hcd Hnd Hpos)
          as (r & Hr & Hcr & Hnr & Hvr).
        rewrite Hr. cbn [bind].
        eexists. split; [reflexivity |]. subst Inv2. cbn [fst snd].
        repeat split; auto.
        rewrite Hvr, Hva', Hvd, Hstep, Hpw.
        rewrite pow_10_even by lia. rewrite Z.pow_add_r by lia. ring. }
    destruct s as [acc' pw]. subst Inv2. cbn [fst snd] in HI.
    destruct HI as (Hca' & Hna' & _ & Hva').
    eexists. split; [reflexivity |]. subst Inv. cbn [fst snd].
    repeat split; auto.
    - unfold umax. rewrite Z.mod_small; lia.
    - rewrite Hva'. rewrite magnitude_firstn_succ by lia. fold xi.
      rewrite Z.add_0_l, !Nat2Z.id. fold MY. ring. }
  destruct s as [acc p]. subst Inv. cbn [fst snd] in HI.
  destruct HI as (Hca & Hna & _ & Hva).
  exists acc, p. split; [reflexivity |]. repeat split; auto.
  rewrite Hva, Z.add_0_l, !Nat2Z.id. reflexivity.
Qed.

Lemma mul_bcd_value :
  forall x y,
    canonical x = true -> canonical y = true ->
    2 * (bcd_digits x + bcd_digits y) < 2 ^ 64 ->
    exists r,
      mul_bcd x y = Ok r /\ canonical r = true /\ value r = value x * value y
      /\ zero r = zero x || zero y.
Proof.
  intros x y Hx Hy Hsz.
  destruct (canonical_elim x Hx) as (Hxn & _).
  destruct (canonical_elim y Hy) as (Hyn & _).
  unfold mul_bcd. rewrite Hxn, Hyn. cbn [orb].
  destruct (zero x) eqn:Hxz; cbn [orb].
  { exists BCD_zero. repeat split.
    rewrite (canonical_zero_value x Hx Hxz). reflexivity. }
  destruct (zero y) eqn:Hyz.
  { exists BCD_zero. repeat split.
    rewrite (canonical_zero_value y Hy Hyz). cbn. lia. }
  destruct (mul_accumulate_exact x y Hx Hy Hxz Hyz Hsz)
    as (acc & p & Hr & Hc & Hn & Hv).
  rewrite Hr. cbn [bind].
  eexists. split; [reflexivity |].
  split; [rewrite canonical_set_negative; exact Hc |].
  rewrite value_nonneg_magnitude in Hv by exact Hn.
  split.
  - rewrite value_set_negative, Hv. unfold value.
    destruct (negative x), (negative y); cbn [Bool.eqb negb]; ring.
  - cbn [zero set_negative].
    destruct (zero acc) eqn:Hza; [| reflexivity].
    pose proof (canonical_zero_magnitude acc Hc Hza) as H0.
    pose proof (canonical_nonzero_magnitude x Hx Hxz).
    pose proof (canonical_nonzero_magnitude y Hy Hyz).
    nia.
Qed.

(** X16: multiplication of canonical operands succeeds and is exact: the
    result is canonical and denotes the product, whatever the signs; the
    in-place form stores the same value.  (The byte counts are those of
    buffers that fit the address space.) *)
Theorem mul_bcd_exact (x y : BCD_int)
  (Hx : canonical x = true) (Hy : canonical y = true)
  (Hsz : 2 * (bcd_digits x + bcd_digits y) < 2 ^ 64) :
  exists r,
    mul_bcd x y = Ok r /\ imul_bcd x y = Ok r
    /\ canonical r = true /\ value r = value x * value y.
Proof.
  destruct (mul_bcd_value x y Hx Hy Hsz) as (r & Hr & Hc & Hv & _).
  exists r. unfold imul_bcd, replace_with. rewrite Hr. cbn [bind].
  repeat split; assumption.
Qed.

Lemma mul_bcd_exact_witness :
  exists r,
    mul_bcd (new_BCD_int1 (-9999)) (new_BCD_int1 10203) = Ok r
    /\ canonical r = true /\ value r = -9999 * 10203.
Proof.
  destruct (mul_bcd_exact (new_BCD_int1 (-9999)) (new_BCD_int1 10203)
              eq_refl eq_refl eq_refl) as (r & Hr & _ & Hc & Hv).
  exists r. repeat split; assumption.
Defined.

(** ** Same-sign subtraction *)

Lemma sub_carry_ok :
  forall n i xd c z M,
    buf_len z M -> readable xd M -> 0 <= i -> i + Z.of_nat n = M ->
    exists i' c' z',
      sub_carry n i xd c z = Ok (i', c', z')
      /\ buf_len z' M /\ i <= i' <= M.
Proof.
  induction n as [| n IH]; intros i xd c z M Hz Hx Hi HM.
  - exists i, c, z. cbn [sub_carry]. repeat split; auto; lia.
  - cbn [sub_carry]. destruct c.
    + destruct (load_readable _ _ i Hx ltac:(lia)) as (b & ->). cbn [bind].
      match goal with
      | |- context [store z i ?v] =>
          destruct (store_buf_len z M i v Hz ltac:(lia)) as (z1 & -> & Hz1)
      end.
      cbn [bind].
      match goal with
      | |- context [sub_carry n (i + 1) xd ?o z1] =>
          destruct (IH (i + 1) xd o z1 M Hz1 Hx ltac:(lia) ltac:(lia))
            as (i' & c' & z' & -> & Hz' & Hi')
      end.
      exists i', c', z'. repeat split; auto; lia.
    + exists i, false, z. repeat split; auto; lia.
Qed.

Lemma top_nonzero_ok :
  forall n d, readable d (Z.of_nat n) ->
    exists o, top_nonzero n d = Ok o
              /\ forall k, o = Some k -> 0 <= k < Z.of_nat n.
Proof.
  induction n as [| n IH]; intros d Hd.
  - exists None. split; [reflexivity | discriminate].
  - cbn [top_nonzero].
    destruct (load_readable _ _ (Z.of_nat n) Hd ltac:(lia)) as (b & ->).
    cbn [bind]. destruct (nonzero b).
    + eexists. split; [reflexivity |]. intros k [= <-]. lia.
    + destruct (IH d) as (o & Ho & Hk).
      { destruct Hd as (l & -> & Hl). exists l. split; [reflexivity | lia]. }
      exists o. split; [exact Ho |]. intros k Hs. specialize (Hk k Hs). lia.
Qed.

(** Same-sign subtraction of canonical nonzero values returns, and its
    result never carries the negative flag. *)
Lemma sub_magnitudes_not_negative :
  forall x y,
    canonical x = true -> canonical y = true ->
    zero x = false -> zero y = false ->
    exists r, sub_magnitudes x y = Ok r /\ nan r = false /\ negative r = false.
Proof.
  intros x y Hx Hy Hxz Hyz.
  destruct (canonical_nonzero_elim x Hx Hxz)
    as (dx & nx & Hdx & Hbx & Hlx & _).
  destruct (canonical_nonzero_elim y Hy Hyz)
    as (dy & ny & Hdy & Hby & Hly & _).
  assert (Hxr : readable (data x) (bcd_digits x)).
  { exists dx. split; [exact Hdx | lia]. }
  assert (Hyr : readable (data y) (bcd_digits y)).
  { exists dy. split; [exact Hdy | lia]. }
  unfold sub_magnitudes.
  destruct (cmp_bcd_swap x y Hx Hy) as (c & -> & _). cbn [bind].
  destruct (comp_code c =? 0); [exists BCD_zero; repeat split |].
  assert (Hneg : (comp_code c =? -1) = false) by (destruct c; reflexivity).
  rewrite Hneg.
  set (M := Z.max (bcd_digits x) (bcd_digits y)).
  set (m := Z.min (bcd_digits x) (bcd_digits y)).
  assert (HmM : 1 <= m <= M) by (subst m M; lia).
  assert (Hlong : readable (data (if bcd_digits x <? bcd_digits y then y else x)) M).
  { subst M. destruct (Z.ltb_spec (bcd_digits x) (bcd_digits y)).
    - now rewrite Z.max_r by lia.
    - now rewrite Z.max_l by lia. }
  run_for_up (fun (_ : Z) (t : buffer * bool) => buf_len (fst t) M).
  { apply buf_len_malloc. lia. }
  { intros j [z cy] Hj Hz. cbn [fst] in Hz.
    destruct (load_readable _ _ j Hxr ltac:(lia)) as (a & ->). cbn [bind].
    destruct (load_readable _ _ j Hyr ltac:(lia)) as (b & ->). cbn [bind].
    destruct (sub_pair a b cy) as [v cy'].
    destruct (store_buf_len z M j v Hz ltac:(lia)) as (z1 & -> & Hz1).
    cbn [bind]. eexists. split; [reflexivity | exact Hz1]. }
  destruct s as [z cy]. cbn [fst] in HI.
  destruct (sub_carry_ok (Z.to_nat (M - m)) m _ cy z M HI Hlong ltac:(lia) ltac:(lia))
    as (i' & cy' & z' & -> & Hz' & Hi').
  cbn [bind].
  assert (Hcp : exists z2,
             (if i' <? M
              then memcpy z' i' (data (if bcd_digits x <? bcd_digits y then y else x))
                          i' (M - i')
              else Ok z') = Ok z2 /\ buf_len z2 M).
  { destruct (Z.ltb_spec i' M).
    - apply memcpy_buf_len with (m := M); auto; lia.
    - eauto. }
  destruct Hcp as (z2 & -> & Hz2). cbn [bind].
  destruct (top_nonzero_ok (Z.to_nat i') z2) as (o & -> & Hk).
  { destruct Hz2 as (l & -> & Hl). exists l. split; [reflexivity | lia]. }
  cbn [bind]. destruct o as [k |].
  - specialize (Hk k eq_refl).
    destruct (load_readable z2 M k (buf_len_readable _ _ Hz2) ltac:(lia)) as (t & ->).
    cbn [bind].
    destruct (load_readable z2 M 0 (buf_len_readable _ _ Hz2) ltac:(lia)) as (b0 & ->).
    cbn [bind]. eexists. split; [reflexivity |]. split; reflexivity.
  - exists BCD_zero. repeat split.
Qed.

(** X17: subtraction of canonical nonzero operands of one sign always
    returns a value, and that value is never an Error and never carries
    the negative flag, whichever operand is larger; so does decrementing
    a positive value. *)
Theorem sub_bcd_same_sign_not_negative (x y : BCD_int)
  (Hx : canonical x = true) (Hy : canonical y = true)
  (Hxz : zero x = false) (Hyz : zero y = false)
  (Hs : negative x = negative y) :
  (exists r, sub_bcd x y = Ok r /\ nan r = false /\ negative r = false)
  /\ (negative x = false ->
      exists d, dec_bcd x = Ok d /\ nan d = false /\ negative d = false).
Proof.
  destruct (canonical_elim x Hx) as (Hxn & _).
  destruct (canonical_elim y Hy) as (Hyn & _).
  split.
  - unfold sub_bcd. cbn [sub_bcd_depth].
    rewrite Hxn, Hyn, Hxz, Hyz, Hs, eqb_reflx. cbn [orb andb negb].
    now apply sub_magnitudes_not_negative.
  - intro Hn. unfold dec_bcd, sub_bcd. cbn [sub_bcd_depth].
    rewrite Hxn, Hxz, Hn. cbn [orb andb negb nan zero negative BCD_one Bool.eqb].
    now apply sub_magnitudes_not_negative.
Qed.

Lemma sub_bcd_same_sign_not_negative_witness :
  exists r, sub_bcd (new_BCD_int1 3) (new_BCD_int1 5) = Ok r
            /\ nan r = false /\ negative r = false.
Proof.
  apply (proj1 (sub_bcd_same_sign_not_negative (new_BCD_int1 3) (new_BCD_int1 5)
                  eq_refl eq_refl eq_refl eq_refl eq_refl)).
Defined.

(** ** Construction from bytes *)

Lemma forallb_nth_firstn :
  forall (f : Z -> bool) (l : list Z) n i, (i < n)%nat -> (n <= length l)%nat ->
    forallb f (firstn n l) = true -> f (nth i l 0) = true.
Proof.
  intros f l n i Hi Hn H. rewrite forallb_forall in H.
  assert (E : nth i (firstn n l) 0 = nth i l 0).
  { rewrite nth_firstn. destruct (Nat.ltb_spec i n); [reflexivity | lia]. }
  rewrite <- E. apply H, nth_In. rewrite length_firstn. lia.
Qed.

(** The scan for the most significant nonzero byte: what it finds, and
    that the bytes above it add nothing to the magnitude. *)
Lemma top_nonzero_spec :
  forall z n, (n <= length z)%nat ->
    exists o,
      top_nonzero n (Some z) = Ok o
      /\ match o with
         | None => magnitude (firstn n z) = 0
                   /\ forallb (Z.eqb 0) (firstn n z) = true
         | Some k => exists K, k = Z.of_nat K /\ (K < n)%nat /\ nth K z 0 <> 0
                               /\ magnitude (firstn n z) = magnitude (firstn (S K) z)
         end.
Proof.
  intros z n. induction n as [| n IH]; intro Hn.
  - exists None. repeat split.
  - cbn [top_nonzero]. rewrite load_nth by lia. cbn [bind].
    unfold nonzero. destruct (Z.eqb_spec (nth n z 0) 0) as [H0 | H0]; cbn [negb].
    + destruct (IH ltac:(lia)) as (o & Ho & Hspec). exists o. split; [exact Ho |].
      rewrite firstn_S_snoc by lia. rewrite magnitude_app, H0.
      change (pair_value 0) with 0. rewrite Z.mul_0_r, Z.add_0_r.
      destruct o as [k |].
      * destruct Hspec as (K & -> & HK & Hnz & Hm). exists K. repeat split; auto.
      * destruct Hspec as (Hm & Hall). split; [exact Hm |].
        rewrite forallb_app, Hall. reflexivity.
    + eexists. split; [reflexivity |]. exists n. repeat split; auto.
Qed.

Lemma BCD_from_bytes_le_spec :
  forall l chars neg, 0 <= chars <= Z.of_nat (length l) ->
    exists r,
      BCD_from_bytes (Some l) chars neg true = Ok r
      /\ finite r = true
      /\ magnitude (digits_of r) = magnitude (firstn (Z.to_nat chars) l)
      /\ zero r = forallb (Z.eqb 0) (firstn (Z.to_nat chars) l)
      /\ (zero r = false -> negative r = neg)
      /\ (zero r = true -> r = BCD_zero).
Proof.
  intros l chars neg Hc. unfold BCD_from_bytes.
  destruct (Z.eqb_spec chars 0) as [-> | Hnz].
  { exists BCD_zero. repeat split. discriminate. }
  rewrite memcpy_prefix by lia. cbn [bind].
  set (z := firstn (Z.to_nat chars) l).
  assert (Hzl : length z = Z.to_nat chars).
  { unfold z. rewrite length_firstn. lia. }
  destruct (top_nonzero_spec z (Z.to_nat chars) ltac:(lia)) as (o & -> & Hspec).
  cbn [bind]. rewrite <- Hzl, firstn_all in Hspec.
  destruct o as [k |].
  - destruct Hspec as (K & -> & HK & Htop & Hm).
    rewrite load_nth by lia. cbn [bind].
    change 0 with (Z.of_nat 0) at 1. rewrite load_nth by lia. cbn [bind].
    eexists. split; [reflexivity |].
    assert (Hall : forallb (Z.eqb 0) z = false).
    { destruct (forallb (Z.eqb 0) z) eqn:Hall; [| reflexivity].
      pose proof (forallb_nth_firstn (Z.eqb 0) z (length z) K HK (le_n _)) as H.
      rewrite firstn_all in H. specialize (H Hall). apply Z.eqb_eq in H. congruence. }
    unfold finite, digits_of.
    cbn [nan data bcd_digits zero negative negb andb].
    replace (Z.to_nat (Z.of_nat K + 1)) with (S K) by lia.
    rewrite Hall, <- Hm. repeat split; try discriminate.
    apply andb_true_iff. split; apply Z.leb_le; lia.
  - destruct Hspec as (Hm & Hall). exists BCD_zero.
    rewrite Hall, Hm. repeat split. discriminate.
Qed.

(** The reversing loop of the big-endian branch. *)
Lemma reverse_loop :
  forall l chars, 0 <= chars <= Z.of_nat (length l) ->
    for_up (Z.to_nat chars) 0
      (fun i d => b <- load (Some l) (chars - 1 - i) ;; store d i b)
      (malloc chars)
    = Ok (Some (rev (firstn (Z.to_nat chars) l))).
Proof.
  intros l chars Hc.
  set (C := Z.to_nat chars).
  set (T := rev (firstn C l)).
  assert (HT : length T = C).
  { unfold T. rewrite length_rev, length_firstn. lia. }
  pose (Inv := fun (i : Z) (d : buffer) =>
                 exists z, d = Some z /\ length z = C
                           /\ firstn (Z.to_nat i) z = firstn (Z.to_nat i) T).
  run_for_up Inv.
  { exists (repeat 0 C). unfold malloc. fold C.
    rewrite repeat_length. repeat split. }
  { intros i d Hi (z & -> & Hz & Hpre).
    rewrite load_nth_Z by lia. cbn [bind].
    unfold store, in_range.
    replace ((0 <=? i) && (i <? Z.of_nat (length z))) with true
      by (symmetry; apply andb_true_iff; split; [apply Z.leb_le | apply Z.ltb_lt]; lia).
    eexists. split; [reflexivity |].
    eexists. split; [reflexivity |].
    rewrite length_list_set. split; [exact Hz |].
    replace (Z.to_nat (i + 1)) with (S (Z.to_nat i)) by lia.
    rewrite firstn_list_set_snoc by lia.
    rewrite firstn_S_snoc by lia. rewrite Hpre. do 2 f_equal.
    unfold T. rewrite rev_nth by (rewrite length_firstn; lia).
    rewrite length_firstn, Nat.min_l by lia.
    rewrite nth_firstn.
    destruct (Nat.ltb_spec (C - S (Z.to_nat i)) C); [| lia].
    f_equal. lia. }
  destruct HI as (z & -> & Hz & Hpre). do 2 f_equal.
  rewrite Z.add_0_l, Nat2Z.id in Hpre.
  rewrite <- (firstn_all z), <- (firstn_all T), Hz, HT. exact Hpre.
Qed.

Lemma BCD_from_bytes_be_le :
  forall l chars neg, 0 <= chars <= Z.of_nat (length l) ->
    BCD_from_bytes (Some l) chars neg false
    = BCD_from_bytes (Some (rev (firstn (Z.to_nat chars) l))) chars neg true.
Proof.
  intros l chars neg Hc. unfold BCD_from_bytes.
  destruct (chars =? 0); [reflexivity |].
  rewrite reverse_loop by exact Hc.
  rewrite memcpy_prefix
    by (rewrite length_rev, length_firstn; lia).
  rewrite (firstn_all2 (n := Z.to_nat chars) (rev (firstn (Z.to_nat chars) l)))
    by (rewrite length_rev, length_firstn; lia).
  reflexivity.
Qed.

Lemma BCD_from_bytes_le_value :
  forall l chars neg, 0 <= chars <= Z.of_nat (length l) ->
    exists r,
      BCD_from_bytes (Some l) chars neg true = Ok r
      /\ finite r = true
      /\ value r = (if neg then - magnitude (firstn (Z.to_nat chars) l)
                    else magnitude (firstn (Z.to_nat chars) l))
      /\ zero r = forallb (Z.eqb 0) (firstn (Z.to_nat chars) l)
      /\ (zero r = true -> r = BCD_zero).
Proof.
  intros l chars neg Hc.
  destruct (BCD_from_bytes_le_spec l chars neg Hc)
    as (r & Hr & Hf & Hm & Hz & Hs & Hzero).
  exists r. repeat split; auto.
  unfold value. rewrite Hm.
  destruct (zero r) eqn:Ez.
  - rewrite (Hzero eq_refl) in Hm. cbn in Hm. rewrite <- Hm.
    destruct (negative r), neg; reflexivity.
  - now rewrite (Hs eq_refl).
Qed.

(** X18: [BCD_from_bytes] on [chars] little-endian bytes of a buffer
    returns a finite value that denotes the number the bytes spell in
    base 100, negated when the flag is set; zero bytes above the most
    significant nonzero byte are not counted, and when every byte is zero
    (or there is none, or the buffer is null) the result is the zero
    constant, whatever the sign flag. *)
Theorem BCD_from_bytes_value (l : list Z) (chars : Z) (neg : bool)
  (Hc : 0 <= chars <= Z.of_nat (length l)) :
  (exists r,
      BCD_from_bytes (Some l) chars neg true = Ok r
      /\ finite r = true
      /\ value r = (if neg then - magnitude (firstn (Z.to_nat chars) l)
                    else magnitude (firstn (Z.to_nat chars) l))
      /\ zero r = forallb (Z.eqb 0) (firstn (Z.to_nat chars) l)
      /\ (zero r = true -> r = BCD_zero))
  /\ (forall n e, BCD_from_bytes None n neg e = Ok BCD_zero).
Proof.
  split; [exact (BCD_from_bytes_le_value l chars neg Hc) | reflexivity].
Qed.

Lemma BCD_from_bytes_value_witness :
  exists r,
    BCD_from_bytes (Some [52; 18; 0; 7]) 3 true true = Ok r
    /\ finite r = true /\ value r = - 1234.
Proof.
  destruct (proj1 (BCD_from_bytes_value [52; 18; 0; 7] 3 true
                     ltac:(cbn; lia))) as (r & Hr & Hf & Hv & _).
  exists r. repeat split; assumption.
Defined.

Lemma BCD_from_bytes_be_value :
  forall l chars neg, 0 <= chars <= Z.of_nat (length l) ->
    exists r,
      BCD_from_bytes (Some l) chars neg false = Ok r
      /\ finite r = true
      /\ value r = (if neg then - magnitude (rev (firstn (Z.to_nat chars) l))
                    else magnitude (rev (firstn (Z.to_nat chars) l))).
Proof.
  intros l chars neg Hc. rewrite (BCD_from_bytes_be_le l chars neg Hc).
  set (T := rev (firstn (Z.to_nat chars) l)).
  assert (HT : length T = Z.to_nat chars).
  { unfold T. rewrite length_rev, length_firstn. lia. }
  destruct (BCD_from_bytes_le_value T chars neg ltac:(lia))
    as (r & Hr & Hf & Hv & _).
  exists r. rewrite <- HT, firstn_all in Hv. repeat split; assumption.
Qed.

(** X19: reading [chars] bytes as big-endian is reading their reversal as
    little-endian; the result denotes the number the bytes spell with the
    most significant pair first. *)
Theorem BCD_from_bytes_big_endian (l : list Z) (chars : Z) (neg : bool)
  (Hc : 0 <= chars <= Z.of_nat (length l)) :
  BCD_from_bytes (Some l) chars neg false
  = BCD_from_bytes (Some (rev (firstn (Z.to_nat chars) l))) chars neg true
  /\ exists r,
       BCD_from_bytes (Some l) chars neg false = Ok r
       /\ finite r = true
       /\ value r = (if neg then - magnitude (rev (firstn (Z.to_nat chars) l))
                     else magnitude (rev (firstn (Z.to_nat chars) l))).
Proof.
  split; [exact (BCD_from_bytes_be_le l chars neg Hc) |].
  exact (BCD_from_bytes_be_value l chars neg Hc).
Qed.

Lemma BCD_from_bytes_big_endian_witness :
  exists r,
    BCD_from_bytes (Some [0; 18; 52; 7]) 3 false false = Ok r
    /\ finite r = true /\ value r = 1234.
Proof.
  destruct (proj2 (BCD_from_bytes_big_endian [0; 18; 52; 7] 3 false
                     ltac:(cbn; lia))) as (r & Hr & Hf & Hv).
  exists r. repeat split; assumption.
Defined.

(** ** Conversion to and comparison with native integers *)

Lemma low_byte_checked :
  forallb (fun b => Bool.eqb (b mod 15 =? b mod 16) (b / 16 =? 0)) valid_bytes = true.
Proof. vm_compute. reflexivity. Qed.

Lemma low_byte_spec :
  forall b, valid_pair b = true -> (b mod 15 =? b mod 16) = (b / 16 =? 0).
Proof.
  intros b Hb. pose proof low_byte_checked as H.
  rewrite forallb_forall in H. specialize (H b (valid_bytes_in b Hb)).
  now apply eqb_prop in H.
Qed.

(** The accumulation loop of [abs_bcd_cuint] computes the magnitude
    modulo [2^64]. *)
Lemma abs_bcd_cuint_loop :
  forall dx n, (n <= length dx)%nat ->
    for_up n 0
      (fun i '(answer, pow_10) =>
         b <- load (Some dx) i ;;
         Ok (umax (answer + umax (pow_10 * (Z.land b 15 + 10 * Z.shiftr b 4))),
             umax (pow_10 * 100)))
      (0, 1)
    = Ok (umax (magnitude (firstn n dx)), umax (100 ^ Z.of_nat n)).
Proof.
  intros dx n Hn.
  pose (Inv := fun (i : Z) (t : Z * Z) =>
                 t = (umax (magnitude (firstn (Z.to_nat i) dx)), umax (100 ^ i))).
  run_for_up Inv.
  { reflexivity. }
  { intros i [a p] Hi Ht. injection Ht as -> ->.
    rewrite load_nth_Z by lia. cbn [bind].
    eexists. split; [reflexivity |]. subst Inv. cbv beta. f_equal.
    - rewrite magnitude_firstn_succ by lia. unfold umax, pair_value.
      rewrite Z.mul_mod_idemp_l by lia.
      rewrite Z.add_mod_idemp_l, Z.add_mod_idemp_r by lia. f_equal. ring.
    - unfold umax. rewrite Z.mul_mod_idemp_l by lia.
      rewrite Z.pow_add_r by lia. reflexivity. }
  rewrite HI. rewrite Z.add_0_l, Nat2Z.id. reflexivity.
Qed.

Lemma abs_bcd_cuint_spec :
  forall P x,
    canonical x = true -> zero x = false ->
    decimal_digits x <= P + 2 ->
    magnitude (digits_of x) < 2 ^ 64 ->
    abs_bcd_cuint P x
    = Ok (if (magnitude (digits_of x) / 10) mod 10 =? 0
          then magnitude (digits_of x) else UINTMAX_MAX).
Proof.
  intros P x Hc Hz Hdd Hfit.
  destruct (canonical_elim x Hc) as (Hn & _).
  destruct (canonical_nonzero_elim x Hc Hz)
    as (dx & n & Hd & Hb & Hlen & Hdig & Hv & _).
  pose proof (canonical_magnitude_nonneg x Hc) as Hnn.
  unfold abs_bcd_cuint. rewrite Hn. cbn [orb].
  replace (decimal_digits x >? P + 2) with false
    by (symmetry; rewrite Z.gtb_ltb; apply Z.ltb_ge; lia).
  rewrite Hd, Hb, Nat2Z.id, abs_bcd_cuint_loop by lia. cbn [bind].
  change 0 with (Z.of_nat 0) at 1. rewrite load_nth by lia. cbn [bind].
  rewrite Hdig in *.
  assert (Hum : umax (magnitude (firstn n dx)) = magnitude (firstn n dx)).
  { unfold umax. apply Z.mod_small. lia. }
  rewrite Hum.
  set (b0 := nth 0 dx 0).
  assert (Hb0 : valid_pair b0 = true).
  { apply (valid_nth_firstn dx n); [lia | lia | exact Hv]. }
  assert (Hsplit : exists rest, magnitude (firstn n dx) = pair_value b0 + 100 * rest).
  { destruct n as [| n']; [lia |]. destruct dx as [| h t]; [cbn in Hlen; lia |].
    cbn [firstn magnitude]. eexists. reflexivity. }
  destruct Hsplit as (rest & HM). rewrite HM.
  destruct (valid_pair_facts b0 Hb0) as (H160 & _ & Hpv & Hlo & _).
  pose proof (valid_pair_byte b0 Hb0) as Hbyte.
  pose proof (Z.mod_pos_bound b0 16 ltac:(lia)) as Hm16.
  assert (Hhi : 0 <= b0 / 16) by (apply Z.div_pos; lia).
  assert (E10 : (pair_value b0 + 100 * rest) mod 10 = b0 mod 16).
  { rewrite Hpv.
    replace (10 * (b0 / 16) + b0 mod 16 + 100 * rest)
      with (b0 mod 16 + (b0 / 16 + 10 * rest) * 10) by ring.
    rewrite Z.mod_add by lia. apply Z.mod_small. lia. }
  assert (Eten : ((pair_value b0 + 100 * rest) / 10) mod 10 = b0 / 16).
  { rewrite Hpv.
    replace (10 * (b0 / 16) + b0 mod 16 + 100 * rest)
      with (b0 mod 16 + (b0 / 16 + 10 * rest) * 10) by ring.
    rewrite Z.div_add by lia. rewrite (Z.div_small (b0 mod 16)) by lia.
    rewrite Z.add_0_l.
    replace (b0 / 16 + 10 * rest) with (b0 / 16 + rest * 10) by ring.
    rewrite Z.mod_add by lia. apply Z.mod_small.
    assert (b0 / 16 < 10) by (apply Z.div_lt_upper_bound; lia). lia. }
  rewrite E10, Eten, (low_byte_spec b0 Hb0).
  destruct (b0 / 16 =? 0); reflexivity.
Qed.

(** Decides a closed order statement on integers by evaluation. *)
Ltac by_evaluation := vm_compute; first [reflexivity | discriminate].

(** X20: for a canonical nonzero value that fits 64 bits (and is within
    the digit bound), [abs_bcd_cuint] returns the magnitude exactly when
    its tens digit is zero, and the overflow sentinel [UINTMAX_MAX]
    otherwise: the final check compares the low byte modulo 15 with the
    last decimal digit.  On a finite value without a buffer, as the zero
    constant, it reads through the null pointer. *)
Theorem abs_bcd_cuint_tens_digit (P : Z) (x : BCD_int)
  (Hc : canonical x = true) (Hz : zero x = false)
  (Hdd : decimal_digits x <= P + 2) (Hfit : Z.abs (value x) < 2 ^ 64) :
  abs_bcd_cuint P x
  = Ok (if (Z.abs (value x) / 10) mod 10 =? 0
        then Z.abs (value x) else UINTMAX_MAX)
  /\ (forall z, nan z = false -> data z = None -> decimal_digits z = 0 ->
        abs_bcd_cuint P z = Fault NullDeref).
Proof.
  rewrite <- (value_magnitude_abs x Hc) in *.
  split; [now apply abs_bcd_cuint_spec |].
  intros z Hzn Hzd Hz0. unfold abs_bcd_cuint. rewrite Hzn, Hzd, Hz0. cbn [orb].
  assert (H1 : 1 <= decimal_digits x).
  { destruct (canonical_elim x Hc) as (_ & _ & _ & _ & _ & Hzb).
    rewrite Hz in Hzb. symmetry in Hzb. apply Z.eqb_neq in Hzb.
    destruct (canonical_magnitude x Hc) as (_ & [(? & _) | (_ & ? & _)]);
      [lia | assumption]. }
  replace (0 >? P + 2) with false
    by (symmetry; rewrite Z.gtb_ltb; apply Z.ltb_ge; lia).
  destruct (Z.to_nat (bcd_digits z)); reflexivity.
Qed.

Lemma abs_bcd_cuint_tens_digit_witness :
  abs_bcd_cuint 19 (new_BCD_int1 4711) = Ok UINTMAX_MAX
  /\ abs_bcd_cuint 19 (new_BCD_int1 4701) = Ok 4701.
Proof.
  split.
  - apply (proj1 (abs_bcd_cuint_tens_digit 19 (new_BCD_int1 4711) eq_refl eq_refl
                    ltac:(by_evaluation) ltac:(by_evaluation))).
  - apply (proj1 (abs_bcd_cuint_tens_digit 19 (new_BCD_int1 4701) eq_refl eq_refl
                    ltac:(by_evaluation) ltac:(by_evaluation))).
Defined.

(** X21: for a canonical nonzero value that fits the signed native range
    (and is within the digit bound), [val_bcd_cint] returns the value
    exactly when its tens digit is zero, and the sentinel [INTMAX_MIN]
    otherwise. *)
Theorem val_bcd_cint_tens_digit (P : Z) (x : BCD_int)
  (Hc : canonical x = true) (Hz : zero x = false)
  (Hdd : decimal_digits x <= P + 1) (Hfit : Z.abs (value x) <= INTMAX_MAX) :
  val_bcd_cint P x
  = Ok (if (Z.abs (value x) / 10) mod 10 =? 0 then value x else INTMAX_MIN).
Proof.
  destruct (canonical_elim x Hc) as (Hn & _).
  pose proof (canonical_magnitude_nonneg x Hc) as Hnn.
  unfold val_bcd_cint. rewrite Hn. cbn [orb].
  replace (decimal_digits x >? P + 1) with false
    by (symmetry; rewrite Z.gtb_ltb; apply Z.ltb_ge; lia).
  rewrite <- (value_magnitude_abs x Hc) in *.
  unfold INTMAX_MAX in Hfit.
  rewrite abs_bcd_cuint_spec by (auto; lia). cbn [bind].
  destruct ((magnitude (digits_of x) / 10) mod 10 =? 0).
  - replace (magnitude (digits_of x) >? INTMAX_MAX) with false
      by (symmetry; rewrite Z.gtb_ltb; apply Z.ltb_ge; unfold INTMAX_MAX; lia).
    reflexivity.
  - reflexivity.
Qed.

Lemma val_bcd_cint_tens_digit_witness :
  val_bcd_cint 19 (new_BCD_int1 (-905)) = Ok (-905)
  /\ val_bcd_cint 19 (new_BCD_int1 (-915)) = Ok INTMAX_MIN.
Proof.
  split.
  - apply (val_bcd_cint_tens_digit 19 (new_BCD_int1 (-905)) eq_refl eq_refl);
      by_evaluation.
  - apply (val_bcd_cint_tens_digit 19 (new_BCD_int1 (-915)) eq_refl eq_refl);
      by_evaluation.
Defined.

Lemma cmp_bcd_cuint_spec :
  forall P x y,
    canonical x = true ->
    decimal_digits x <= P + 2 -> magnitude (digits_of x) < 2 ^ 64 ->
    cmp_bcd_cuint P x y
    = Ok (if zero x then (if y =? 0 then EQUAL_TO else GREATER_THAN)
          else if negative x then LESS_THAN
          else if (magnitude (digits_of x) / 10) mod 10 =? 0
               then comp_of (magnitude (digits_of x) ?= y)
               else NO_COMP).
Proof.
  intros P x y Hc Hdd Hfit.
  destruct (canonical_elim x Hc) as (Hn & _).
  unfold cmp_bcd_cuint. rewrite Hn.
  destruct (zero x) eqn:Hz.
  { unfold nonzero. destruct (y =? 0); reflexivity. }
  destruct (negative x); [reflexivity |].
  replace (decimal_digits x >? P + 2) with false
    by (symmetry; rewrite Z.gtb_ltb; apply Z.ltb_ge; lia).
  rewrite abs_bcd_cuint_spec by auto. cbn [bind].
  set (M := magnitude (digits_of x)) in *.
  destruct ((M / 10) mod 10 =? 0) eqn:Ht; [| reflexivity].
  destruct (Z.eqb_spec M UINTMAX_MAX) as [HM | _].
  { rewrite HM in Ht. discriminate. }
  rewrite Z.gtb_ltb.
  destruct (Z.compare_spec M y) as [-> | Hlt | Hgt]; cbn [comp_of].
  - now rewrite !Z.ltb_irrefl.
  - replace (y <? M) with false by (symmetry; apply Z.ltb_ge; lia).
    now replace (M <? y) with true by (symmetry; apply Z.ltb_lt; lia).
  - now replace (y <? M) with true by (symmetry; apply Z.ltb_lt; lia).
Qed.

(** X22: [cmp_bcd_cuint] on a canonical value that fits 64 bits (and is
    within the digit bound): a zero value is greater than every nonzero
    [y]; a negative value is less; a positive value is ordered against
    [y] as integers are when its tens digit is zero, and is not
    comparable otherwise. *)
Theorem cmp_bcd_cuint_cases (P : Z) (x : BCD_int) (y : Z)
  (Hc : canonical x = true)
  (Hdd : decimal_digits x <= P + 2) (Hfit : Z.abs (value x) < 2 ^ 64) :
  cmp_bcd_cuint P x y
  = Ok (if zero x then (if y =? 0 then EQUAL_TO else GREATER_THAN)
        else if negative x then LESS_THAN
        else if (value x / 10) mod 10 =? 0
             then comp_of (value x ?= y)
             else NO_COMP).
Proof.
  rewrite <- (value_magnitude_abs x Hc) in Hfit.
  rewrite (cmp_bcd_cuint_spec P x y Hc Hdd Hfit).
  unfold value. destruct (zero x), (negative x); reflexivity.
Qed.

Lemma cmp_bcd_cuint_cases_witness :
  cmp_bcd_cuint 19 (new_BCD_int1 0) 5 = Ok GREATER_THAN
  /\ cmp_bcd_cuint 19 (new_BCD_int1 12) 12 = Ok NO_COMP
  /\ cmp_bcd_cuint 19 (new_BCD_int1 102) 777 = Ok LESS_THAN.
Proof.
  split; [| split].
  - apply (cmp_bcd_cuint_cases 19 (new_BCD_int1 0) 5 eq_refl); by_evaluation.
  - apply (cmp_bcd_cuint_cases 19 (new_BCD_int1 12) 12 eq_refl); by_evaluation.
  - apply (cmp_bcd_cuint_cases 19 (new_BCD_int1 102) 777 eq_refl); by_evaluation.
Defined.

(** X23: [cmp_bcd_cint] against a negative native integer [y] on a
    canonical value that fits 64 bits: a zero value is reported less than
    [y]; a positive value is greater; a negative value is ordered against
    [y] as integers are when its tens digit is zero, and is not
    comparable otherwise.  Against a non-negative [y] it is
    [cmp_bcd_cuint]. *)
Theorem cmp_bcd_cint_cases (P : Z) (x : BCD_int) (y : Z)
  (Hc : canonical x = true)
  (Hdd : decimal_digits x <= P + 2) (Hfit : Z.abs (value x) < 2 ^ 64)
  (Hy : - 2 ^ 63 < y < 2 ^ 63) :
  cmp_bcd_cint P x y
  = (if y <? 0 then
       Ok (if zero x then LESS_THAN
           else if negative x
                then if (Z.abs (value x) / 10) mod 10 =? 0
                     then comp_of (value x ?= y) else NO_COMP
                else GREATER_THAN)
     else cmp_bcd_cuint P x y).
Proof.
  destruct (canonical_elim x Hc) as (Hn & _).
  rewrite <- (value_magnitude_abs x Hc) in *.
  unfold cmp_bcd_cint.
  destruct (Z.ltb_spec y 0) as [Hneg | Hpos].
  - unfold opp_bcd, sign_bcd. rewrite Hn. cbn [negb bind].
    assert (Hu : umax (- y) = - y) by (unfold umax; apply Z.mod_small; lia).
    rewrite Hu.
    rewrite cmp_bcd_cuint_spec by (auto; rewrite ?canonical_set_negative; auto).
    cbn [zero negative set_negative].
    change (digits_of (set_negative x (negb (negative x)))) with (digits_of x).
    cbn [bind].
    destruct (zero x).
    { replace (- y =? 0) with false by (symmetry; apply Z.eqb_neq; lia). reflexivity. }
    unfold value.
    destruct (negative x); cbn [negb]; [| reflexivity].
    destruct ((magnitude (digits_of x) / 10) mod 10 =? 0); [| reflexivity].
    destruct (Z.compare_spec (magnitude (digits_of x)) (- y)) as [E | E | E];
      destruct (Z.compare_spec (- magnitude (digits_of x)) y) as [E' | E' | E'];
      cbn [comp_of]; first [reflexivity | lia].
  - assert (Hu : umax y = y) by (unfold umax; apply Z.mod_small; lia).
    now rewrite Hu.
Qed.

Lemma cmp_bcd_cint_cases_witness :
  cmp_bcd_cint 19 (new_BCD_int1 0) (-5) = Ok LESS_THAN
  /\ cmp_bcd_cint 19 (new_BCD_int1 (-102)) (-5) = Ok LESS_THAN.
Proof.
  split.
  - apply (cmp_bcd_cint_cases 19 (new_BCD_int1 0) (-5) eq_refl);
      first [by_evaluation | lia].
  - apply (cmp_bcd_cint_cases 19 (new_BCD_int1 (-102)) (-5) eq_refl);
      first [by_evaluation | lia].
Defined.

(** ** Text rendering *)

Lemma fmt_checked : forallb fmt_facts valid_bytes = true.
Proof. vm_compute. reflexivity. Qed.

Lemma decimal_value_shift :
  forall s acc,
    decimal_value acc s
    = acc * 10 ^ Z.of_nat (String.length s) + decimal_value 0 s.
Proof.
  induction s as [| c t IH]; intro acc.
  - cbn [decimal_value String.length]. change (10 ^ Z.of_nat 0) with 1. lia.
  - cbn [decimal_value String.length].
    rewrite IH, (IH (10 * 0 + (char_code c - 48))).
    rewrite Nat2Z.inj_succ, Z.pow_succ_r by lia. ring.
Qed.

Lemma decimal_value_append :
  forall s t acc,
    decimal_value acc (append s t) = decimal_value (decimal_value acc s) t.
Proof.
  induction s as [| c s IH]; intros t acc; [reflexivity |].
  cbn [append decimal_value]. apply IH.
Qed.

Lemma all_digits_append :
  forall s t, all_digits (append s t) = all_digits s && all_digits t.
Proof.
  induction s as [| c s IH]; intro t; [reflexivity |].
  cbn [append all_digits]. rewrite IH. now rewrite andb_assoc.
Qed.

Lemma length_append :
  forall s t, String.length (append s t) = (String.length s + String.length t)%nat.
Proof.
  induction s as [| c s IH]; intro t; [reflexivity |].
  cbn [append String.length]. now rewrite IH.
Qed.

Lemma fmt_02x_spec :
  forall b, valid_pair b = true ->
    all_digits (fmt_02x b) = true
    /\ String.length (fmt_02x b) = 2%nat
    /\ decimal_value 0 (fmt_02x b) = pair_value b
    /\ (if nonzero (Z.land b 240) then fmt_x b = fmt_02x b
        else String "0" (fmt_x b) = fmt_02x b).
Proof.
  intros b Hb. pose proof fmt_checked as H.
  rewrite forallb_forall in H. specialize (H b (valid_bytes_in b Hb)).
  unfold fmt_facts in H.
  apply andb_true_iff in H. destruct H as [H H3].
  apply andb_true_iff in H. destruct H as [H1 H2].
  apply Z.eqb_eq in H2.
  repeat split; auto.
  destruct (nonzero (Z.land b 240)); now apply String.eqb_eq in H3.
Qed.

(** The low bytes are printed as two decimal digits each, most
    significant first. *)
Lemma print_rest_spec :
  forall dx n, (n <= length dx)%nat ->
    forallb valid_pair (firstn n dx) = true ->
    exists s,
      print_rest n (Some dx) = Ok s
      /\ all_digits s = true
      /\ String.length s = (2 * n)%nat
      /\ decimal_value 0 s = magnitude (firstn n dx).
Proof.
  intros dx n. induction n as [| n IH]; intros Hn Hv.
  - exists EmptyString. repeat split.
  - cbn [print_rest]. rewrite load_nth by lia. cbn [bind].
    destruct (IH ltac:(lia) (forallb_firstn_le dx (S n) n ltac:(lia) Hv))
      as (s & -> & Hs1 & Hs2 & Hs3).
    cbn [bind]. eexists. split; [reflexivity |].
    assert (Hb : valid_pair (nth n dx 0) = true).
    { apply (valid_nth_firstn dx (S n)); [lia | lia | exact Hv]. }
    destruct (fmt_02x_spec _ Hb) as (F1 & F2 & F3 & _).
    rewrite all_digits_append, length_append, decimal_value_append, F1, F2, Hs1, Hs2.
    repeat split; [lia |].
    rewrite decimal_value_shift, F3, Hs2, Hs3.
    rewrite firstn_S_snoc by lia. rewrite magnitude_app.
    rewrite length_firstn, Nat.min_l by lia.
    replace (Z.of_nat (2 * n)) with (2 * Z.of_nat n) by lia.
    rewrite pow_10_even by lia. ring.
Qed.

Lemma print_bcd_spec :
  forall x, canonical x = true -> zero x = false ->
    exists digits,
      print_bcd x
      = Ok (append (if negative x then "-"%string else EmptyString) digits)
      /\ all_digits digits = true
      /\ Z.of_nat (String.length digits) = decimal_digits x
      /\ decimal_value 0 digits = magnitude (digits_of x).
Proof.
  intros x Hc Hz.
  destruct (canonical_elim x Hc) as (Hn & _).
  destruct (canonical_nonzero_elim x Hc Hz)
    as (dx & n & Hd & Hb & Hlen & Hdig & Hv & _).
  destruct (canonical_nonzero_top x dx n Hc Hz Hd Hb) as (Htop & Hdd).
  unfold print_bcd. rewrite Hn, Hz, Hd, Hb.
  replace (Z.of_nat n - 1) with (Z.of_nat (n - 1)) by lia.
  rewrite load_nth by lia. cbn [bind]. rewrite Nat2Z.id.
  destruct (print_rest_spec dx (n - 1) ltac:(lia)
              (forallb_firstn_le dx n (n - 1) ltac:(lia) Hv))
    as (s & -> & Hs1 & Hs2 & Hs3).
  cbn [bind].
  set (top := nth (n - 1) dx 0) in *.
  assert (Ht : valid_pair top = true).
  { apply (valid_nth_firstn dx n); [lia | lia | exact Hv]. }
  destruct (fmt_02x_spec top Ht) as (F1 & F2 & F3 & F4).
  exists (append (fmt_x top) s). split; [reflexivity |].
  assert (Hmag : magnitude (firstn n dx)
                 = magnitude (firstn (n - 1) dx) + 100 ^ Z.of_nat (n - 1) * pair_value top).
  { replace n with (S (n - 1)) at 1 by lia.
    rewrite firstn_S_snoc by lia. rewrite magnitude_app.
    now rewrite length_firstn, Nat.min_l by lia. }
  rewrite Hdig, Hmag, Hdd.
  rewrite all_digits_append, length_append, decimal_value_append.
  rewrite (decimal_value_shift s), Hs1, Hs2, Hs3.
  replace (Z.of_nat (2 * (n - 1))) with (2 * Z.of_nat (n - 1)) by lia.
  rewrite pow_10_even by lia.
  destruct (nonzero (Z.land top 240)).
  - rewrite F4, F1, F2, F3. repeat split; [lia | ring].
  - rewrite <- F4 in F1, F2, F3.
    cbn [all_digits String.length decimal_value] in F1, F2, F3.
    change (char_code "0") with 48 in *.
    apply andb_true_iff in F1. destruct F1 as [_ F1].
    replace (10 * 0 + (48 - 48)) with 0 in F3 by lia.
    rewrite F1, F3. repeat split; [lia | ring].
Qed.

(** X24: for a canonical nonzero value, [print_bcd] writes a minus sign
    when the value is negative and then exactly [decimal_digits] decimal
    digit characters, which spell the magnitude of the value; an Error
    prints as NaN and a zero value as a single 0. *)
Theorem print_bcd_decimal (x : BCD_int)
  (Hc : canonical x = true) (Hz : zero x = false) :
  (exists digits,
      print_bcd x
      = Ok (append (if negative x then "-"%string else EmptyString) digits)
      /\ all_digits digits = true
      /\ Z.of_nat (String.length digits) = decimal_digits x
      /\ decimal_value 0 digits = Z.abs (value x))
  /\ (forall e o, print_bcd (bcd_error e o) = Ok "NaN"%string)
  /\ (forall z, nan z = false -> zero z = true -> print_bcd z = Ok "0"%string).
Proof.
  split; [| split].
  - rewrite <- (value_magnitude_abs x Hc). now apply print_bcd_spec.
  - reflexivity.
  - intros z Hzn Hzz. unfold print_bcd. now rewrite Hzn, Hzz.
Qed.

Lemma print_bcd_decimal_witness :
  exists digits,
    print_bcd (new_BCD_int1 (-12045)) = Ok (append "-" digits)
    /\ all_digits digits = true
    /\ Z.of_nat (String.length digits) = 5
    /\ decimal_value 0 digits = 12045.
Proof.
  apply (proj1 (print_bcd_decimal (new_BCD_int1 (-12045)) eq_refl eq_refl)).
Defined.

(** ** Construction from decimal text *)

Lemma pack_chars_checked :
  forallb (fun h => forallb (fun l =>
             pair_value (pack_chars (48 + h) (48 + l)) =? 10 * h + l)
             (map Z.of_nat (seq 0 10)))
          (map Z.of_nat (seq 0 10)) = true.
Proof. vm_compute. reflexivity. Qed.

Lemma pack_chars_spec :
  forall hi lo, 48 <= hi <= 57 -> 48 <= lo <= 57 ->
    pair_value (pack_chars hi lo) = 10 * (hi - 48) + (lo - 48).
Proof.
  intros hi lo Hh Hl. pose proof pack_chars_checked as H.
  rewrite forallb_forall in H.
  assert (In10 : forall v, 0 <= v <= 9 -> In v (map Z.of_nat (seq 0 10))).
  { intros v Hv. apply in_map_iff. exists (Z.to_nat v). split; [lia |].
    apply in_seq. lia. }
  specialize (H (hi - 48) (In10 (hi - 48) ltac:(lia))).
  rewrite forallb_forall in H. specialize (H (lo - 48) (In10 (lo - 48) ltac:(lia))).
  apply Z.eqb_eq in H.
  now replace (48 + (hi - 48)) with hi in H by lia;
      replace (48 + (lo - 48)) with lo in H by lia.
Qed.

Lemma prefix_all : forall s, prefix (String.length s) s = s.
Proof.
  induction s as [| c t IH]; [reflexivity |].
  cbn [String.length prefix]. now rewrite IH.
Qed.

Lemma prefix_snoc :
  forall s n, (n < String.length s)%nat ->
    exists c,
      String.get n s = Some c
      /\ prefix (S n) s = append (prefix n s) (String c EmptyString).
Proof.
  induction s as [| h t IH]; intros n Hn; [cbn in Hn; lia |].
  destruct n as [| n].
  - exists h. split; reflexivity.
  - cbn [String.length] in Hn. destruct (IH n ltac:(lia)) as (c & Hg & Hp).
    exists c. split; [exact Hg |].
    change (prefix (S (S n)) (String h t)) with (String h (prefix (S n) t)).
    rewrite Hp. reflexivity.
Qed.

Lemma all_digits_get :
  forall s n c, all_digits s = true -> String.get n s = Some c ->
    48 <= char_code c <= 57.
Proof.
  induction s as [| h t IH]; intros n c Hd Hg; [discriminate |].
  cbn [all_digits] in Hd. apply andb_true_iff in Hd. destruct Hd as [Hh Ht].
  apply andb_true_iff in Hh. destruct Hh as [H1 H2].
  destruct n as [| n].
  - injection Hg as <-. lia.
  - exact (IH n c Ht Hg).
Qed.

(** Reading the character at [j] and the prefix it extends. *)
Lemma char_at_digit :
  forall s j, all_digits s = true -> 0 <= j < Z.of_nat (String.length s) ->
    exists v,
      char_at s j = Ok v /\ 48 <= v <= 57
      /\ decimal_value 0 (prefix (Z.to_nat (j + 1)) s)
         = 10 * decimal_value 0 (prefix (Z.to_nat j) s) + (v - 48).
Proof.
  intros s j Hd Hj.
  destruct (prefix_snoc s (Z.to_nat j) ltac:(lia)) as (c & Hg & Hp).
  exists (char_code c). unfold char_at, in_range.
  replace ((0 <=? j) && (j <? Z.of_nat (String.length s))) with true
    by (symmetry; apply andb_true_iff; split; [apply Z.leb_le | apply Z.ltb_lt]; lia).
  rewrite Hg. split; [reflexivity |].
  split; [exact (all_digits_get s _ c Hd Hg) |].
  replace (Z.to_nat (j + 1)) with (S (Z.to_nat j)) by lia.
  rewrite Hp, decimal_value_append. reflexivity.
Qed.

Lemma magnitude_rev_snoc :
  forall l v, magnitude (rev (l ++ [v])) = pair_value v + 100 * magnitude (rev l).
Proof. intros l v. rewrite rev_app_distr. reflexivity. Qed.

Lemma BCD_from_ascii_spec :
  forall str neg, all_digits str = true ->
    exists r,
      BCD_from_ascii str (Z.of_nat (String.length str)) neg = Ok r
      /\ finite r = true
      /\ value r = (if neg then - decimal_value 0 str else decimal_value 0 str).
Proof.
  intros str neg Hd.
  unfold BCD_from_ascii.
  set (digits := Z.of_nat (String.length str)).
  set (len := (digits + 1) / 2).
  set (i0 := digits mod 2).
  assert (Hi0 : i0 = 0 \/ i0 = 1).
  { pose proof (Z.mod_pos_bound digits 2 ltac:(lia)). unfold i0. lia. }
  assert (Hlen : 2 * len - i0 = digits).
  { unfold len, i0.
    pose proof (Z.div_mod digits 2 ltac:(lia)).
    pose proof (Z.mod_pos_bound digits 2 ltac:(lia)).
    pose proof (Z.div_mod (digits + 1) 2 ltac:(lia)).
    pose proof (Z.mod_pos_bound (digits + 1) 2 ltac:(lia)).
    assert ((digits + 1) mod 2 = 1 - digits mod 2).
    { rewrite Z.add_mod by lia.
      destruct Hi0 as [E | E]; unfold i0 in E; rewrite E; reflexivity. }
    lia. }
  assert (Hlen0 : 0 <= len) by (unfold len; apply Z.div_pos; lia).
  pose (Inv := fun (i : Z) (t : buffer * Z) =>
                 exists z, fst t = Some z /\ Z.of_nat (length z) = len
                           /\ snd t = 2 * i - i0
                           /\ magnitude (rev (firstn (Z.to_nat i) z))
                              = decimal_value 0 (prefix (Z.to_nat (snd t)) str)).
  assert (Hinit : exists b0,
             (if nonzero i0
              then c <- char_at str 0 ;; store (malloc len) 0 (u8 (c - 48))
              else Ok (malloc len)) = Ok b0
             /\ Inv i0 (b0, i0)).
  { unfold nonzero. destruct Hi0 as [E | E]; rewrite E; cbn [Z.eqb negb].
    - eexists. split; [reflexivity |]. exists (repeat 0 (Z.to_nat len)).
      cbn [fst snd]. rewrite repeat_length. repeat split; lia.
    - destruct (char_at_digit str 0 Hd ltac:(lia)) as (v & -> & Hv & Hp).
      cbn [bind].
      assert (Hl1 : 1 <= len) by lia.
      unfold store, malloc, in_range. rewrite repeat_length.
      replace ((0 <=? 0) && (0 <? Z.of_nat (Z.to_nat len))) with true
        by (symmetry; apply andb_true_iff; split; [apply Z.leb_le | apply Z.ltb_lt]; lia).
      eexists. split; [reflexivity |].
      eexists. cbn [fst snd]. split; [reflexivity |].
      rewrite length_list_set, repeat_length.
      repeat split; try lia.
      change (Z.to_nat 1) with 1%nat. change (Z.to_nat 0) with 0%nat.
      rewrite (firstn_list_set_snoc _ 0) by (rewrite repeat_length; lia).
      cbn [firstn app rev magnitude].
      change (Z.to_nat (0 + 1)) with 1%nat in Hp.
      change (Z.to_nat 0) with 0%nat in Hp. rewrite Hp.
      cbn [prefix decimal_value].
      unfold u8. rewrite Z.mod_small by lia.
      unfold pair_value.
      replace (Z.shiftr (v - 48) 4) with 0.
      + replace (Z.land (v - 48) 15) with (v - 48); [lia |].
        change 15 with (Z.ones 4). rewrite Z.land_ones by lia.
        symmetry. apply Z.mod_small. change (2 ^ 4) with 16. lia.
      + rewrite Z.shiftr_div_pow2 by lia. symmetry. apply Z.div_small.
        change (2 ^ 4) with 16. lia. }
  destruct Hinit as (b0 & -> & Hinv0). cbn [bind].
  run_for_up Inv.
  { exact Hinv0. }
  { intros i [b j] Hi (z & Hz & Hzl & Hj & Hm). cbn [fst snd] in *. subst b j.
    destruct (char_at_digit str (2 * i - i0) Hd ltac:(lia)) as (hi & -> & Hhi & Hp1).
    cbn [bind].
    destruct (char_at_digit str (2 * i - i0 + 1) Hd ltac:(lia)) as (lo & -> & Hlo & Hp2).
    cbn [bind].
    unfold store, in_range.
    replace ((0 <=? i) && (i <? Z.of_nat (length z))) with true
      by (symmetry; apply andb_true_iff; split; [apply Z.leb_le | apply Z.ltb_lt]; lia).
    cbn [bind]. eexists. split; [reflexivity |].
    eexists. cbn [fst snd]. split; [reflexivity |].
    rewrite length_list_set. repeat split; try lia.
    replace (Z.to_nat (i + 1)) with (S (Z.to_nat i)) by lia.
    rewrite firstn_list_set_snoc by lia.
    rewrite magnitude_rev_snoc, Hm.
    replace (2 * i - i0 + 2) with (2 * i - i0 + 1 + 1) by lia.
    rewrite Hp2, Hp1.
    fold (pack_chars hi lo). rewrite (pack_chars_spec hi lo Hhi Hlo). ring. }
  destruct s as [b j]. destruct HI as (z & Hz & Hzl & Hj & Hm).
  cbn [fst snd] in *. subst b j.
  replace (i0 + Z.of_nat (Z.to_nat (len - i0))) with len in * by lia.
  rewrite Hlen in Hm. unfold digits in Hm. rewrite Nat2Z.id, prefix_all in Hm.
  destruct (BCD_from_bytes_be_value z len neg ltac:(lia)) as (r & Hr & Hf & Hv).
  exists r. rewrite Hm in Hv. repeat split; assumption.
Qed.

(** X25: [BCD_from_ascii] on a string of decimal digit characters, with
    its length as digit count, returns a finite value that denotes the
    number the string spells, negated when the flag is set; leading zero
    characters and the empty string are accepted. *)
Theorem BCD_from_ascii_value (str : string) (neg : bool)
  (Hd : all_digits str = true) :
  exists r,
    BCD_from_ascii str (Z.of_nat (String.length str)) neg = Ok r
    /\ finite r = true
    /\ value r = (if neg then - decimal_value 0 str else decimal_value 0 str).
Proof. exact (BCD_from_ascii_spec str neg Hd). Qed.

Lemma BCD_from_ascii_value_witness :
  exists r,
    BCD_from_ascii "0031415" 7 true = Ok r
    /\ finite r = true /\ value r = - 31415.
Proof. apply (BCD_from_ascii_value "0031415" true eq_refl). Defined.

Lemma substring_full : forall s, substring 0 (String.length s) s = s.
Proof.
  induction s as [| c t IH]; [reflexivity |].
  cbn [String.length substring]. now rewrite IH.
Qed.

(** X26: printing a canonical value and reading the digits back with the
    same sign succeeds and gives a value that denotes the same integer. *)
Theorem print_parse_value (x : BCD_int) (Hc : canonical x = true) :
  exists r, reparse x = Ok r /\ finite r = true /\ value r = value x.
Proof.
  destruct (canonical_elim x Hc) as (Hn & _).
  unfold reparse.
  destruct (zero x) eqn:Hz.
  - unfold print_bcd. rewrite Hn, Hz. cbn [bind].
    rewrite (canonical_zero_value x Hc Hz).
    destruct (negative x).
    + destruct (BCD_from_ascii_spec EmptyString true eq_refl) as (r & Hr & Hf & Hv).
      exists r. repeat split; assumption.
    + destruct (BCD_from_ascii_spec "0" false eq_refl) as (r & Hr & Hf & Hv).
      exists r. repeat split; assumption.
  - destruct (print_bcd_spec x Hc Hz) as (digits & -> & Hd & _ & Hv).
    cbn [bind]. unfold value.
    destruct (negative x).
    + cbn [append String.length substring].
      replace (S (String.length digits) - 1)%nat with (String.length digits) by lia.
      rewrite substring_full.
      destruct (BCD_from_ascii_spec digits true Hd) as (r & Hr & Hf & Hvr).
      exists r. rewrite <- Hv. repeat split; assumption.
    + cbn [append].
      destruct (BCD_from_ascii_spec digits false Hd) as (r & Hr & Hf & Hvr).
      exists r. rewrite <- Hv. repeat split; assumption.
Qed.

Lemma print_parse_value_witness :
  exists r, reparse (new_BCD_int1 (-120)) = Ok r
            /\ finite r = true /\ value r = value (new_BCD_int1 (-120)).
Proof. apply (print_parse_value (new_BCD_int1 (-120)) eq_refl). Defined.

(** ** Powers and factorials with a single-byte counter *)

Lemma sub_one_checked : forallb sub_one_ok valid_bytes = true.
Proof. vm_compute. reflexivity. Qed.

Lemma sub_one_spec :
  forall b, valid_pair b = true -> 2 <= b ->
    valid_pair (fst (sub_pair b 1 false)) = true
    /\ fst (sub_pair b 1 false) <> 0
    /\ pair_value (fst (sub_pair b 1 false)) = pair_value b - 1.
Proof.
  intros b Hb H2. pose proof sub_one_checked as H.
  rewrite forallb_forall in H. specialize (H b (valid_bytes_in b Hb)).
  unfold sub_one_ok in H.
  replace (2 <=? b) with true in H by (symmetry; apply Z.leb_le; lia).
  cbn [implb] in H. destruct (sub_pair b 1 false) as [c cy]. cbn [fst].
  apply andb_true_iff in H. destruct H as [H H3].
  apply andb_true_iff in H. destruct H as [H1 H2'].
  unfold nonzero in H2'. apply negb_true_iff, Z.eqb_neq in H2'.
  apply Z.eqb_eq in H3. repeat split; assumption.
Qed.

Lemma canonical_value_nonzero :
  forall x, canonical x = true -> value x <> 0 -> zero x = false.
Proof.
  intros x Hc Hv. destruct (zero x) eqn:Hz; [| reflexivity].
  now rewrite (canonical_zero_value x Hc Hz) in Hv.
Qed.

Lemma canonical_value_zero :
  forall x, canonical x = true -> value x = 0 -> zero x = true.
Proof.
  intros x Hc Hv. destruct (zero x) eqn:Hz; [reflexivity |].
  pose proof (canonical_nonzero_magnitude x Hc Hz). unfold value in Hv.
  destruct (negative x); lia.
Qed.

(** A canonical value between 1 and 99: its only byte. *)
Lemma canonical_single_byte :
  forall t, canonical t = true -> negative t = false -> 0 < value t < 100 ->
    exists b rest,
      data t = Some (b :: rest) /\ bcd_digits t = 1
      /\ valid_pair b = true /\ b <> 0 /\ value t = pair_value b
      /\ decimal_digits t = (if nonzero (Z.land b 240) then 2 else 1).
Proof.
  intros t Hc Hs Hv.
  assert (Hz : zero t = false) by (apply canonical_value_nonzero; [assumption | lia]).
  destruct (canonical_nonzero_elim t Hc Hz)
    as (dx & n & Hd & Hb & Hlen & Hdig & Hval & Hm).
  rewrite value_nonneg_magnitude in Hv by exact Hs.
  rewrite Hdig in Hv.
  assert (Hn1 : n = 1%nat).
  { destruct (Nat.eq_dec n 1) as [E | E]; [exact E |].
    assert (100 ^ 1 <= 100 ^ (Z.of_nat n - 1)) by (apply Z.pow_le_mono_r; lia).
    change (100 ^ 1) with 100 in *. lia. }
  subst n.
  destruct (canonical_nonzero_top t dx 1 Hc Hz Hd Hb) as (Htop & Hdd).
  destruct dx as [| b rest]; [cbn in Hlen; lia |].
  cbn [Nat.sub nth] in Htop, Hdd.
  cbn [firstn forallb] in Hval. rewrite andb_true_r in Hval.
  exists b, rest. repeat split; auto.
  rewrite value_nonneg_magnitude by exact Hs. rewrite Hdig.
  cbn [firstn magnitude]. lia.
Qed.

(** Decrementing a canonical value between 1 and 99. *)
Lemma dec_bcd_single :
  forall t, canonical t = true -> negative t = false -> 0 < value t < 100 ->
    exists t',
      dec_bcd t = Ok t' /\ canonical t' = true /\ negative t' = false
      /\ value t' = value t - 1.
Proof.
  intros t Hc Hs Hv.
  destruct (canonical_elim t Hc) as (Hn & _).
  assert (Hz : zero t = false) by (apply canonical_value_nonzero; [assumption | lia]).
  destruct (canonical_single_byte t Hc Hs Hv)
    as (b & rest & Hd & Hb & Hvb & Hb0 & Hval & Hdd).
  pose proof (valid_pair_byte b Hvb) as Hbyte.
  unfold dec_bcd, sub_bcd. cbn [sub_bcd_depth].
  rewrite Hn, Hz, Hs. cbn [orb andb negb nan zero negative BCD_one Bool.eqb].
  unfold sub_magnitudes, cmp_bcd.
  rewrite Hn, Hs, Hb, Hd, Hdd.
  cbn [orb andb negb nan zero negative BCD_one Bool.eqb bcd_digits decimal_digits data].
  assert (L1 : load (Some (b :: rest)) 0 = Ok b).
  { apply (load_nth (b :: rest) 0). cbn [length]. lia. }
  assert (Hcmp :
            (if negb ((if nonzero (Z.land b 240) then 2 else 1) =? 1)
             then if (if nonzero (Z.land b 240) then 2 else 1) >? 1
                  then Ok GREATER_THAN else Ok LESS_THAN
             else cmp_scan (Z.to_nat 1) t BCD_one)
            = Ok (if b =? 1 then EQUAL_TO else GREATER_THAN)).
  { destruct (nonzero (Z.land b 240)) eqn:Hhi.
    - cbn [Z.eqb Z.gtb Z.compare Pos.compare Pos.compare_cont negb].
      destruct (Z.eqb_spec b 1) as [-> | _]; [discriminate Hhi | reflexivity].
    - cbn [Z.eqb Pos.eqb negb]. change (Z.to_nat 1) with 1%nat.
      cbn [cmp_scan]. change (Z.of_nat 0) with 0. rewrite Hd, L1. cbn [bind].
      cbn [data BCD_one]. change (load (Some [1]) 0) with (@Ok Z 1). cbn [bind].
      destruct (Z.eqb_spec b 1) as [-> | Hne]; cbn [negb]; [reflexivity |].
      rewrite Hs. replace (b >? 1) with true; [reflexivity |].
      symmetry. rewrite Z.gtb_ltb. apply Z.ltb_lt. lia. }
  rewrite Hcmp. cbn [bind].
  destruct (Z.eqb_spec b 1) as [-> | Hne].
  { exists BCD_zero. cbn [comp_code Z.eqb]. repeat split.
    rewrite Hval. reflexivity. }
  cbn [comp_code Z.eqb].
  change (Z.min 1 1) with 1. change (Z.max 1 1) with 1.
  change (1 <? 1) with false. change (Z.to_nat (1 - 1)) with 0%nat.
  change (Z.to_nat 1) with 1%nat.
  cbn [for_up]. rewrite L1. cbn [bind].
  change (load (Some [1]) 0) with (@Ok Z 1). cbn [bind].
  destruct (sub_one_spec b Hvb ltac:(lia)) as (Hvc & Hc0 & Hpc).
  destruct (sub_pair b 1 false) as [c cy]. cbn [fst] in Hvc, Hc0, Hpc.
  change (store (malloc 1) 0 c) with (@Ok buffer (Some [c])).
  cbn [bind sub_carry]. rewrite Hd.
  change (1 <? 1) with false. cbn [bind]. change (Z.to_nat 1) with 1%nat.
  change (top_nonzero 1 (Some [c]))
    with (b1 <- load (Some [c]) 0 ;;
          if nonzero b1 then Ok (Some 0) else top_nonzero 0 (Some [c])).
  change (load (Some [c]) 0) with (@Ok Z c). cbn [bind].
  assert (Hnz : nonzero c = true) by (unfold nonzero; now apply negb_true_iff, Z.eqb_neq).
  rewrite Hnz. cbn [bind].
  change (load (Some [c]) 0) with (@Ok Z c). cbn [bind].
  eexists. split; [reflexivity |].
  destruct (canonical_intro [c] 1
              (if nonzero (Z.land c 240) then 2 * (0 + 1) else 2 * (0 + 1) - 1)
              false (c mod 2 =? 0)) as (Hcr & Hdr).
  - cbn [length]. lia.
  - cbn [firstn forallb]. now rewrite Hvc.
  - exact Hc0.
  - reflexivity.
  - split; [exact Hcr |]. split; [reflexivity |].
    rewrite value_nonneg_magnitude by reflexivity.
    change (digits_of _) with [c]. cbn [magnitude]. rewrite Hval. lia.
Qed.

Lemma canonical_magnitude_upper :
  forall x, canonical x = true -> magnitude (digits_of x) < 100 ^ bcd_digits x.
Proof.
  intros x Hc.
  destruct (canonical_elim x Hc) as (_ & _ & _ & Hv & _).
  pose proof (magnitude_range _ Hv) as R.
  rewrite (digits_of_length x (canonical_finite x Hc)) in R. lia.
Qed.

(** A product has at most as many bytes as its factors together. *)
Lemma mul_digits_bound :
  forall r x y,
    canonical r = true -> canonical x = true -> canonical y = true ->
    value r = value x * value y ->
    bcd_digits r <= bcd_digits x + bcd_digits y.
Proof.
  intros r x y Hr Hx Hy Hv.
  destruct (canonical_elim x Hx) as (_ & Hx0 & _).
  destruct (canonical_elim y Hy) as (_ & Hy0 & _).
  destruct (zero r) eqn:Hz.
  { destruct (canonical_elim r Hr) as (_ & _ & _ & _ & _ & Hzb).
    rewrite Hz in Hzb. symmetry in Hzb. apply Z.eqb_eq in Hzb. lia. }
  destruct (canonical_nonzero_elim r Hr Hz) as (dr & n & _ & Hb & Hlen & Hdig & _ & Hm).
  rewrite <- Hdig in Hm.
  pose proof (canonical_magnitude_upper x Hx) as Ux.
  pose proof (canonical_magnitude_upper y Hy) as Uy.
  pose proof (canonical_magnitude_nonneg x Hx) as Nx.
  pose proof (canonical_magnitude_nonneg y Hy) as Ny.
  assert (HM : magnitude (digits_of r) = magnitude (digits_of x) * magnitude (digits_of y)).
  { rewrite !value_magnitude_abs by assumption. rewrite Hv. apply Z.abs_mul. }
  assert (Hlt : 100 ^ (Z.of_nat n - 1) < 100 ^ (bcd_digits x + bcd_digits y)).
  { rewrite Z.pow_add_r by lia.
    assert (0 < 100 ^ (Z.of_nat n - 1)) by (apply Z.pow_pos_nonneg; lia).
    nia. }
  apply Z.pow_lt_mono_r_iff in Hlt; lia.
Qed.

Lemma pow_loop_small :
  forall e fuel x answer tmp,
    canonical x = true -> canonical answer = true -> canonical tmp = true ->
    negative tmp = false -> value tmp = Z.of_nat e ->
    (e < 100)%nat -> (e < fuel)%nat ->
    2 * (bcd_digits answer + Z.of_nat e * bcd_digits x) < 2 ^ 64 ->
    exists r,
      pow_loop fuel x answer tmp = Ok r
      /\ canonical r = true
      /\ value r = value answer * value x ^ Z.of_nat e.
Proof.
  induction e as [| e IH]; intros fuel x answer tmp Hx Ha Ht Hs Hv He Hf Hsz;
    (destruct fuel as [| f]; [lia |]); cbn [pow_loop];
    destruct (canonical_elim tmp Ht) as (Hn & _); rewrite Hn.
  - rewrite (canonical_value_zero tmp Ht Hv). cbn [orb negb].
    exists answer. repeat split; auto. cbn. lia.
  - rewrite (canonical_value_nonzero tmp Ht ltac:(lia)). cbn [orb negb].
    destruct (canonical_elim x Hx) as (_ & Hx0 & _).
    destruct (mul_bcd_value answer x Ha Hx ltac:(nia)) as (r1 & Hr1 & Hc1 & Hv1 & _).
    unfold imul_bcd, replace_with. rewrite Hr1. cbn [bind].
    destruct (dec_bcd_single tmp Ht Hs ltac:(lia)) as (t' & Ht' & Hct & Hst & Hvt).
    unfold idec_bcd, replace_with. rewrite Ht'. cbn [bind].
    pose proof (mul_digits_bound r1 answer x Hc1 Ha Hx Hv1) as Hbd.
    destruct (IH f x r1 t' Hx Hc1 Hct Hst ltac:(lia) ltac:(lia) ltac:(lia)
                ltac:(nia)) as (r & Hr & Hcr & Hvr).
    exists r. repeat split; auto.
    rewrite Hvr, Hv1, Nat2Z.inj_succ, Z.pow_succ_r by lia. ring.
Qed.

(** X27: for a canonical base and a canonical exponent between 0 and 99,
    [pow_bcd] returns a canonical value that denotes the power; in
    particular every value, zero included, raised to zero is one.  (The
    loop counter is decremented with [sub_bcd], which is exact on one
    byte.) *)
Theorem pow_bcd_small_exponent (fuel : nat) (x y : BCD_int)
  (Hx : canonical x = true) (Hy : canonical y = true)
  (Hs : negative y = false) (He : value y < 100)
  (Hf : (Z.to_nat (value y) < fuel)%nat)
  (Hsz : bcd_digits x < 2 ^ 56) :
  exists r,
    pow_bcd fuel x y = Ok r /\ canonical r = true
    /\ value r = value x ^ value y.
Proof.
  destruct (canonical_elim x Hx) as (Hxn & Hx0 & _).
  destruct (canonical_elim y Hy) as (Hyn & _).
  pose proof (canonical_magnitude_nonneg y Hy) as Hy0.
  rewrite <- (value_nonneg_magnitude y Hs) in Hy0.
  unfold pow_bcd. rewrite Hxn, Hyn, Hs. cbn [orb].
  destruct (copy_canonical y Hy) as (tmp & -> & Hct & Hvt & _ & Hst).
  cbn [bind].
  destruct (pow_loop_small (Z.to_nat (value y)) fuel x BCD_one tmp Hx eq_refl Hct)
    as (r & Hr & Hcr & Hvr); try lia.
  { congruence. }
  { cbn [bcd_digits BCD_one]. nia. }
  exists r. repeat split; auto.
  rewrite Hvr, Z2Nat.id by lia. change (value BCD_one) with 1. lia.
Qed.

Lemma pow_bcd_small_exponent_witness :
  exists r,
    pow_bcd 8 (new_BCD_int1 (-12)) (new_BCD_int1 7) = Ok r
    /\ canonical r = true /\ value r = (-12) ^ 7.
Proof.
  apply (pow_bcd_small_exponent 8 (new_BCD_int1 (-12)) (new_BCD_int1 7)
           eq_refl eq_refl eq_refl); by_evaluation.
Defined.

Lemma factorial_loop_small :
  forall e fuel ret i,
    canonical ret = true -> canonical i = true ->
    negative i = false -> value i = Z.of_nat e ->
    (e < 100)%nat -> (e < fuel)%nat ->
    bcd_digits ret + Z.of_nat e < 2 ^ 62 ->
    exists r,
      factorial_loop fuel ret i = Ok r
      /\ canonical r = true
      /\ value r = value ret * factorial_of e.
Proof.
  induction e as [| e IH]; intros fuel ret i Hr Hi Hs Hv He Hf Hsz;
    (destruct fuel as [| f]; [lia |]); cbn [factorial_loop].
  - rewrite (canonical_value_zero i Hi Hv). cbn [negb].
    exists ret. repeat split; auto. cbn. lia.
  - rewrite (canonical_value_nonzero i Hi ltac:(lia)). cbn [negb].
    destruct (canonical_elim ret Hr) as (_ & Hr0 & _).
    destruct (canonical_single_byte i Hi Hs ltac:(lia)) as (_ & _ & _ & Hbi & _).
    destruct (mul_bcd_value ret i Hr Hi ltac:(lia)) as (r1 & Hr1 & Hc1 & Hv1 & _).
    unfold imul_bcd, replace_with. rewrite Hr1. cbn [bind].
    destruct (dec_bcd_single i Hi Hs ltac:(lia)) as (i' & Hi' & Hci & Hsi & Hvi).
    unfold idec_bcd, replace_with. rewrite Hi'. cbn [bind].
    pose proof (mul_digits_bound r1 ret i Hc1 Hr Hi Hv1) as Hbd.
    destruct (IH f r1 i' Hc1 Hci Hsi ltac:(lia) ltac:(lia) ltac:(lia)
                ltac:(lia)) as (r & Hrr & Hcr & Hvr).
    exists r. repeat split; auto.
    rewrite Hvr, Hv1, Hv.
    change (factorial_of (S e)) with (Z.of_nat (S e) * factorial_of e). ring.
Qed.

(** X28: for a canonical value between 0 and 99, [factorial_bcd] returns
    a canonical value that denotes the factorial; the factorial of zero
    and of one is the constant one. *)
Theorem factorial_bcd_small (fuel : nat) (x : BCD_int)
  (Hx : canonical x = true) (Hs : negative x = false) (He : value x < 100)
  (Hf : (Z.to_nat (value x) < fuel)%nat) :
  exists r,
    factorial_bcd fuel x = Ok r /\ canonical r = true
    /\ value r = factorial_of (Z.to_nat (value x)).
Proof.
  destruct (canonical_elim x Hx) as (Hxn & _).
  pose proof (canonical_magnitude_nonneg x Hx) as Hx0.
  rewrite <- (value_nonneg_magnitude x Hs) in Hx0.
  unfold factorial_bcd. rewrite Hxn, Hs.
  destruct (zero x) eqn:Hz.
  { cbn [bind]. exists BCD_one. rewrite (canonical_zero_value x Hx Hz).
    repeat split. }
  assert (Hpos : 0 < value x).
  { pose proof (canonical_nonzero_magnitude x Hx Hz).
    now rewrite value_nonneg_magnitude by exact Hs. }
  destruct (canonical_single_byte x Hx Hs ltac:(lia))
    as (b & rest & Hd & Hb & Hvb & Hb0 & Hval & Hdd).
  pose proof (valid_pair_byte b Hvb) as Hbyte.
  assert (L1 : load (Some (b :: rest)) 0 = Ok b).
  { apply (load_nth (b :: rest) 0). cbn [length]. lia. }
  assert (Hunit : is_unit_magnitude x = Ok (b =? 1)).
  { unfold is_unit_magnitude. rewrite Hdd, Hd.
    destruct (nonzero (Z.land b 240)) eqn:Hhi.
    - cbn [Z.eqb Pos.eqb].
      destruct (Z.eqb_spec b 1) as [-> | _]; [discriminate Hhi | reflexivity].
    - cbn [Z.eqb Pos.eqb]. rewrite L1. reflexivity. }
  rewrite Hunit. cbn [bind].
  destruct (Z.eqb_spec b 1) as [-> | Hne].
  { exists BCD_one. rewrite Hval. repeat split. }
  destruct (dec_bcd_single x Hx Hs ltac:(lia)) as (i & -> & Hci & Hsi & Hvi).
  cbn [bind].
  destruct (copy_canonical x Hx) as (ret & -> & Hcr & Hvr & _ & Hsr).
  cbn [bind].
  destruct (canonical_single_byte ret Hcr ltac:(congruence) ltac:(lia))
    as (_ & _ & _ & Hbr & _).
  destruct (factorial_loop_small (Z.to_nat (value x - 1)) fuel ret i Hcr Hci Hsi)
    as (r & Hr & Hc & Hv); try lia.
  exists r. repeat split; auto.
  rewrite Hv, Hvr.
  replace (Z.to_nat (value x)) with (S (Z.to_nat (value x - 1))) by lia.
  change (factorial_of (S (Z.to_nat (value x - 1))))
    with (Z.of_nat (S (Z.to_nat (value x - 1)))
          * factorial_of (Z.to_nat (value x - 1))).
  rewrite Nat2Z.inj_succ, Z2Nat.id by lia. ring.
Qed.

Lemma factorial_bcd_small_witness :
  exists r,
    factorial_bcd 13 (new_BCD_int1 12) = Ok r
    /\ canonical r = true /\ value r = 479001600.
Proof.
  apply (factorial_bcd_small 13 (new_BCD_int1 12) eq_refl eq_refl);
    by_evaluation.
Defined.

(** ** Shifts by an odd number of decimal digits *)

Lemma nibble_merge_checked :
  forallb (fun c => forallb (nibble_merge_ok c) valid_bytes) valid_bytes = true.
Proof. vm_compute. reflexivity. Qed.

Lemma high_digit_checked : forallb high_digit_ok valid_bytes = true.
Proof. vm_compute. reflexivity. Qed.

Lemma nibble_merge_spec :
  forall c p, valid_pair c = true -> valid_pair p = true ->
    valid_pair (u8 (Z.lor (u8 (Z.shiftl c 4)) (Z.shiftr p 4))) = true
    /\ pair_value (u8 (Z.lor (u8 (Z.shiftl c 4)) (Z.shiftr p 4)))
       = 10 * (c mod 16) + p / 16
    /\ u8 (Z.lor (Z.shiftr p 4) (Z.shiftl c 4))
       = u8 (Z.lor (u8 (Z.shiftl c 4)) (Z.shiftr p 4)).
Proof.
  intros c p Hc Hp. pose proof nibble_merge_checked as H.
  rewrite forallb_forall in H. specialize (H c (valid_bytes_in c Hc)).
  rewrite forallb_forall in H. specialize (H p (valid_bytes_in p Hp)).
  unfold nibble_merge_ok in H.
  apply andb_true_iff in H. destruct H as [H H3].
  apply andb_true_iff in H. destruct H as [H1 H2].
  apply Z.eqb_eq in H2, H3. repeat split; assumption.
Qed.

Lemma high_digit_spec :
  forall p, valid_pair p = true ->
    valid_pair (p / 16) = true
    /\ u8 (Z.lor 0 (Z.shiftr p 4)) = p / 16
    /\ Z.shiftr p 4 = p / 16
    /\ pair_value (p / 16) = p / 16
    /\ Z.land (p / 16) 240 = 0
    /\ nonzero (Z.land p 240) = nonzero (p / 16)
    /\ u8 (Z.shiftl p 4) = u8 (Z.lor (u8 (Z.shiftl p 4)) (Z.shiftr 0 4)).
Proof.
  intros p Hp. pose proof high_digit_checked as H.
  rewrite forallb_forall in H. specialize (H p (valid_bytes_in p Hp)).
  unfold high_digit_ok in H. cbv zeta in H.
  apply andb_true_iff in H. destruct H as [H H7].
  apply andb_true_iff in H. destruct H as [H H6].
  apply andb_true_iff in H. destruct H as [H H5].
  apply andb_true_iff in H. destruct H as [H H4].
  apply andb_true_iff in H. destruct H as [H H3].
  apply andb_true_iff in H. destruct H as [H1 H2].
  apply Z.eqb_eq in H2, H3, H4, H5, H7. apply eqb_prop in H6.
  rewrite H2 in H1, H4, H5, H6.
  repeat split; assumption.
Qed.

Lemma store_some :
  forall z i v, 0 <= i < Z.of_nat (length z) ->
    store (Some z) i v = Ok (Some (list_set z (Z.to_nat i) v)).
Proof.
  intros z i v Hi. unfold store, in_range.
  now replace ((0 <=? i) && (i <? Z.of_nat (length z))) with true
    by (symmetry; apply andb_true_iff; split; [apply Z.leb_le | apply Z.ltb_lt]; lia).
Qed.

Lemma or_store_some :
  forall z i v, 0 <= i < Z.of_nat (length z) ->
    or_store (Some z) i v
    = Ok (Some (list_set z (Z.to_nat i) (u8 (Z.lor (nth (Z.to_nat i) z 0) v)))).
Proof.
  intros z i v Hi. rewrite or_store_store. now apply store_some.
Qed.

Lemma nth_list_set_eq :
  forall (l : list Z) i v, (i < length l)%nat -> nth i (list_set l i v) 0 = v.
Proof.
  induction l as [| h t IH]; intros i v Hi; [cbn in Hi; lia |].
  destruct i as [| i]; [reflexivity |].
  cbn [list_set nth]. apply IH. cbn in Hi. lia.
Qed.

Lemma nth_list_set_neq :
  forall (l : list Z) i j v, i <> j -> nth j (list_set l i v) 0 = nth j l 0.
Proof.
  induction l as [| h t IH]; intros i j v Hij; [reflexivity |].
  destruct i as [| i], j as [| j]; try reflexivity; try lia.
  cbn [list_set nth]. apply IH. lia.
Qed.

Lemma list_set_twice :
  forall (l : list Z) i v w, list_set (list_set l i v) i w = list_set l i w.
Proof.
  induction l as [| h t IH]; intros i v w; [reflexivity |].
  destruct i as [| i]; [reflexivity |].
  cbn [list_set]. now rewrite IH.
Qed.

(** A left shift by an odd number of digits of a value with an even
    number of digits moves every digit by half a byte. *)
Lemma mul_bcd_pow_10_odd_exact :
  forall x tens,
    canonical x = true -> zero x = false ->
    Z.even (decimal_digits x) = true -> 0 < tens -> Z.odd tens = true ->
    decimal_digits x + tens < 2 ^ 64 - 1 ->
    exists r,
      mul_bcd_pow_10 x tens = Ok r
      /\ canonical r = true
      /\ magnitude (digits_of r) = magnitude (digits_of x) * 10 ^ tens
      /\ negative r = negative x /\ zero r = false
      /\ decimal_digits r = decimal_digits x + tens.
Proof.
  intros x tens Hc Hz Hev Ht Hodd Hfit.
  destruct (canonical_elim x Hc) as (Hn & _).
  destruct (canonical_nonzero_elim x Hc Hz)
    as (dx & n & Hd & Hb & Hlen & Hdig & Hv & _).
  destruct (canonical_nonzero_top x dx n Hc Hz Hd Hb) as (Htop & Hdd).
  set (top := nth (n - 1) dx 0) in *.
  assert (Hhi : nonzero (Z.land top 240) = true).
  { destruct (nonzero (Z.land top 240)); [reflexivity |].
    rewrite Hdd in Hev.
    replace (2 * Z.of_nat n - 1) with (1 + 2 * (Z.of_nat n - 1)) in Hev by lia.
    rewrite Z.even_add_mul_2 in Hev. discriminate. }
  rewrite Hhi in Hdd.
  apply Z.odd_spec in Hodd. destruct Hodd as (k & Hk).
  set (K := Z.to_nat k).
  assert (HK : tens = 2 * Z.of_nat K + 1) by (unfold K; lia).
  set (L := (K + n + 1)%nat).
  assert (E1 : (decimal_digits x + tens + 1) / 2 = Z.of_nat L).
  { rewrite Hdd, HK.
    replace (2 * Z.of_nat n + (2 * Z.of_nat K + 1) + 1) with (Z.of_nat L * 2)
      by (unfold L; lia).
    apply Z.div_mul. lia. }
  assert (E2 : (decimal_digits x + tens) mod 2 = 1).
  { rewrite Hdd, HK.
    replace (2 * Z.of_nat n + (2 * Z.of_nat K + 1))
      with (1 + (Z.of_nat n + Z.of_nat K) * 2) by lia.
    rewrite Z.mod_add by lia. reflexivity. }
  assert (E3 : (tens mod 2 =? 0) = false).
  { apply Z.eqb_neq. rewrite HK.
    replace (2 * Z.of_nat K + 1) with (1 + Z.of_nat K * 2) by lia.
    rewrite Z.mod_add by lia. discriminate. }
  assert (E4 : (tens =? 0) = false) by (apply Z.eqb_neq; lia).
  assert (U1 : umax (decimal_digits x + tens) = decimal_digits x + tens)
    by (apply Z.mod_small; lia).
  assert (U2 : umax (decimal_digits x + tens + 1) = decimal_digits x + tens + 1)
    by (apply Z.mod_small; lia).
  assert (U3 : umax (Z.of_nat L - Z.of_nat n - 1) = Z.of_nat K)
    by (unfold umax, L; rewrite Z.mod_small; lia).
  assert (U4 : forall i, 0 <= i <= Z.of_nat n ->
                         umax (i + Z.of_nat K) = i + Z.of_nat K)
    by (intros i Hi; apply Z.mod_small; lia).
  unfold mul_bcd_pow_10. rewrite Hn, Hz, E4, E3, U1, U2, E1, E2, Hb, Hd, U3.
  assert (Hbyte : forall i, (i < n)%nat -> valid_pair (nth i dx 0) = true).
  { intros i Hi. apply (valid_nth_firstn dx n); [lia | lia | exact Hv]. }
  rewrite (load_nth_Z dx 0) by lia. cbn [bind].
  change (Z.to_nat 0) with 0%nat.
  unfold malloc. rewrite Nat2Z.id.
  rewrite store_some by (rewrite repeat_length; unfold L; lia). cbn [bind].
  rewrite Nat2Z.id.
  set (x0 := nth 0 dx 0).
  pose proof (Hbyte 0%nat ltac:(lia)) as Hx0. fold x0 in Hx0.
  pose (Inv := fun (i : Z) (d : buffer) =>
                 exists z W,
                   d = Some z /\ length z = L /\ length W = Z.to_nat i
                   /\ firstn (K + Z.to_nat i) z = repeat 0 K ++ W
                   /\ forallb valid_pair W = true
                   /\ magnitude W + 100 ^ i * (nth (Z.to_nat (i - 1)) dx 0 / 16)
                      = 10 * magnitude (firstn (Z.to_nat i) dx)
                   /\ nth (K + n) z 0 = 0).
  run_for_up Inv.
  { exists (list_set (repeat 0 L) K (u8 (Z.shiftl x0 4))), [u8 (Z.shiftl x0 4)].
    destruct (nibble_merge_spec x0 0 Hx0 eq_refl) as (V1 & V2 & _).
    destruct (high_digit_spec x0 Hx0) as (_ & _ & _ & _ & _ & _ & V3).
    rewrite <- V3 in V1, V2.
    destruct (valid_pair_facts x0 Hx0) as (_ & _ & Hpv & _).
    split; [reflexivity |].
    split; [now rewrite length_list_set, repeat_length |].
    split; [reflexivity |].
    change (Z.to_nat 1) with 1%nat.
    replace (K + 1)%nat with (S K) by lia.
    split.
    { rewrite firstn_list_set_snoc by (rewrite repeat_length; unfold L; lia).
      unfold L. now rewrite <- Nat.add_assoc, firstn_repeat_0. }
    split; [cbn [forallb]; now rewrite V1 |].
    split.
    { cbn [magnitude firstn]. change (Z.to_nat (1 - 1)) with 0%nat.
      destruct dx as [| h t]; [cbn in Hlen; lia |].
      cbn [firstn magnitude nth] in *. fold x0. subst x0. cbn [nth] in *.
      rewrite V2, Hpv. change (0 / 16) with 0. lia. }
    rewrite nth_list_set_neq by lia. apply nth_repeat. }
  { intros i d Hi (z & W & -> & Hzl & HW & Hpre & HWv & Hmag & Hlast).
    rewrite Z2Nat.id in Hi by lia.
    rewrite U4 by lia.
    rewrite (load_nth_Z dx i) by lia. cbn [bind].
    rewrite store_some by lia. cbn [bind].
    rewrite (load_nth_Z dx (i - 1)) by lia. cbn [bind].
    rewrite or_store_some by (rewrite length_list_set; lia). cbn [bind].
    replace (Z.to_nat (i + Z.of_nat K)) with (K + Z.to_nat i)%nat by lia.
    rewrite nth_list_set_eq by lia. rewrite list_set_twice.
    set (xi := nth (Z.to_nat i) dx 0).
    set (xp := nth (Z.to_nat (i - 1)) dx 0) in *.
    pose proof (Hbyte (Z.to_nat i) ltac:(lia)) as Hxi. fold xi in Hxi.
    pose proof (Hbyte (Z.to_nat (i - 1)) ltac:(lia)) as Hxp. fold xp in Hxp.
    destruct (nibble_merge_spec xi xp Hxi Hxp) as (V1 & V2 & _).
    destruct (high_digit_spec xp Hxp) as (_ & _ & Hsh & _).
    set (v := u8 (Z.lor (u8 (Z.shiftl xi 4)) (Z.shiftr xp 4))) in *.
    eexists. split; [reflexivity |].
    exists (list_set z (K + Z.to_nat i) v), (W ++ [v]).
    split; [reflexivity |].
    split; [now rewrite length_list_set |].
    split; [rewrite length_app, HW; cbn [length]; lia |].
    replace (K + Z.to_nat (i + 1))%nat with (S (K + Z.to_nat i)) by lia.
    split.
    { rewrite firstn_list_set_snoc by lia. rewrite Hpre. now rewrite <- app_assoc. }
    split; [rewrite forallb_app, HWv; cbn [forallb]; now rewrite V1 |].
    split.
    { rewrite magnitude_app, HW, Z2Nat.id by lia.
      replace (i + 1 - 1) with i by lia. fold xi.
      rewrite magnitude_firstn_succ by lia. fold xi.
      destruct (valid_pair_facts xi Hxi) as (_ & _ & Hpv & _).
      rewrite V2, Hpv, Z.pow_add_r by lia. change (100 ^ 1) with 100.
      replace (10 * (magnitude (firstn (Z.to_nat i) dx)
                     + 100 ^ i * (10 * (xi / 16) + xi mod 16)))
        with (10 * magnitude (firstn (Z.to_nat i) dx)
              + 100 ^ i * (100 * (xi / 16) + 10 * (xi mod 16))) by ring.
      rewrite <- Hmag. ring. }
    rewrite nth_list_set_neq by lia. exact Hlast. }
  destruct HI as (z & W & -> & Hzl & HW & Hpre & HWv & Hmag & Hlast).
  replace (1 + Z.of_nat (Z.to_nat (Z.of_nat n - 1))) with (Z.of_nat n) in * by lia.
  rewrite Nat2Z.id in *.
  replace (Z.to_nat (Z.of_nat n - 1)) with (n - 1)%nat in * by lia.
  rewrite (load_nth_Z dx (Z.of_nat n - 1)) by lia. cbn [bind].
  replace (Z.to_nat (Z.of_nat n - 1)) with (n - 1)%nat by lia. fold top.
  rewrite U4 by lia.
  rewrite or_store_some by lia. cbn [bind].
  replace (Z.to_nat (Z.of_nat n + Z.of_nat K)) with (K + n)%nat by lia.
  rewrite Hlast.
  pose proof (Hbyte (n - 1)%nat ltac:(lia)) as Htopv. fold top in Htopv.
  destruct (high_digit_spec top Htopv) as (T1 & T2 & _ & T4 & T5 & T6 & _).
  rewrite T2.
  set (t := top / 16) in *.
  set (zf := list_set z (K + n) t).
  assert (Hzf : firstn L zf = repeat 0 K ++ W ++ [t]).
  { unfold zf, L. replace (K + n + 1)%nat with (S (K + n)) by lia.
    rewrite firstn_list_set_snoc by lia. rewrite Hpre. now rewrite <- app_assoc. }
  assert (Hnzt : t <> 0).
  { rewrite Hhi in T6. unfold nonzero in T6. symmetry in T6.
    now apply negb_true_iff, Z.eqb_neq in T6. }
  destruct (canonical_intro zf L (decimal_digits x + tens) (negative x)
              (even x || nonzero tens)) as (Hcr & Hdr).
  - unfold zf. rewrite length_list_set. unfold L. lia.
  - rewrite Hzf, !forallb_app, forallb_valid_repeat_0, HWv. cbn [forallb].
    now rewrite T1.
  - unfold zf. replace (L - 1)%nat with (K + n)%nat by (unfold L; lia).
    rewrite nth_list_set_eq by lia. exact Hnzt.
  - unfold zf. replace (L - 1)%nat with (K + n)%nat by (unfold L; lia).
    rewrite nth_list_set_eq by lia. rewrite T5. cbn [nonzero Z.eqb negb].
    rewrite Hdd, HK. unfold L. lia.
  - eexists. split; [reflexivity |].
    split; [exact Hcr |].
    split; [| split; [reflexivity | split; reflexivity]].
    rewrite Hdr, Hzf, Hdig.
    rewrite magnitude_app_list, magnitude_repeat_0, repeat_length.
    rewrite magnitude_app, HW, T4.
    rewrite HK, Z.pow_add_r, pow_10_even by lia. change (10 ^ 1) with 10.
    change (nth (n - 1) dx 0 / 16) with t in Hmag. rewrite Hmag. ring.
Qed.

Lemma firstn_snoc_inv :
  forall (z W : list Z) h m,
    length W = m -> firstn (S m) z = W ++ [h] ->
    firstn m z = W /\ nth m z 0 = h.
Proof.
  intros z W h m HW H. split.
  - assert (E : firstn m (firstn (S m) z) = firstn m z).
    { rewrite firstn_firstn. f_equal. lia. }
    rewrite <- E, H. rewrite firstn_app, HW, Nat.sub_diag.
    cbn [firstn]. rewrite app_nil_r. rewrite <- HW. apply firstn_all.
  - assert (E : nth m (firstn (S m) z) 0 = nth m z 0).
    { rewrite nth_firstn. destruct (Nat.ltb_spec m (S m)); [reflexivity | lia]. }
    rewrite <- E, H. rewrite app_nth2 by lia. rewrite HW, Nat.sub_diag. reflexivity.
Qed.

(** A right shift by an odd number of digits of a value with an even
    number of digits moves every digit by half a byte and drops the
    sign. *)
Lemma div_bcd_pow_10_odd_exact :
  forall a tens,
    canonical a = true -> Z.even (decimal_digits a) = true ->
    0 < tens < decimal_digits a -> Z.odd tens = true ->
    exists r,
      div_bcd_pow_10 a tens = Ok r
      /\ canonical r = true
      /\ magnitude (digits_of r) = magnitude (digits_of a) / 10 ^ tens
      /\ negative r = false /\ zero r = false.
Proof.
  intros a tens Hc Hev Ht Hodd.
  destruct (canonical_elim a Hc) as (Hn & _).
  destruct (canonical_magnitude a Hc) as (_ & Hmag0).
  assert (Hz : zero a = false).
  { destruct (canonical_elim a Hc) as (_ & _ & _ & _ & _ & Hzb).
    rewrite Hzb. apply Z.eqb_neq.
    destruct Hmag0 as [(_ & ? & _) | (? & _)]; lia. }
  destruct (canonical_nonzero_elim a Hc Hz)
    as (dx & n & Hd & Hb & Hlen & Hdig & Hv & _).
  destruct (canonical_nonzero_top a dx n Hc Hz Hd Hb) as (Htop & Hdd).
  set (top := nth (n - 1) dx 0) in *.
  assert (Hhi : nonzero (Z.land top 240) = true).
  { destruct (nonzero (Z.land top 240)); [reflexivity |].
    rewrite Hdd in Hev.
    replace (2 * Z.of_nat n - 1) with (1 + 2 * (Z.of_nat n - 1)) in Hev by lia.
    rewrite Z.even_add_mul_2 in Hev. discriminate. }
  rewrite Hhi in Hdd.
  apply Z.odd_spec in Hodd. destruct Hodd as (k & Hk).
  set (K := Z.to_nat k).
  assert (HK : tens = 2 * Z.of_nat K + 1) by (unfold K; lia).
  assert (HKn : (K < n)%nat) by lia.
  set (R := (n - K)%nat).
  assert (E1 : (decimal_digits a - tens + 1) / 2 = Z.of_nat R).
  { rewrite Hdd, HK.
    replace (2 * Z.of_nat n - (2 * Z.of_nat K + 1) + 1) with (Z.of_nat R * 2)
      by (unfold R; lia).
    apply Z.div_mul. lia. }
  assert (E2 : nonzero (decimal_digits a mod 2) = false).
  { rewrite Hdd. replace (2 * Z.of_nat n) with (Z.of_nat n * 2) by lia.
    rewrite Z.mod_mul by lia. reflexivity. }
  assert (E3 : (tens mod 2 =? 0) = false).
  { apply Z.eqb_neq. rewrite HK.
    replace (2 * Z.of_nat K + 1) with (1 + Z.of_nat K * 2) by lia.
    rewrite Z.mod_add by lia. discriminate. }
  assert (E4 : (tens =? 0) = false) by (apply Z.eqb_neq; lia).
  assert (E5 : (tens >=? decimal_digits a) = false).
  { rewrite Z.geb_leb. apply Z.leb_gt. lia. }
  unfold div_bcd_pow_10. rewrite Hn, E4, E5, E3, E1, E2, Hb, Hd.
  replace (Z.of_nat n - Z.of_nat R) with (Z.of_nat K) by (unfold R; lia).
  assert (Hbyte : forall i, (i < n)%nat -> valid_pair (nth i dx 0) = true).
  { intros i Hi. apply (valid_nth_firstn dx n); [lia | lia | exact Hv]. }
  set (A := skipn K dx).
  assert (HA : forall j, nth j A 0 = nth (K + j) dx 0).
  { intro j. unfold A. apply nth_skipn. }
  assert (HAl : (R <= length A)%nat).
  { unfold A, R. rewrite length_skipn. lia. }
  rewrite (load_nth_Z dx (Z.of_nat K)) by lia. cbn [bind].
  rewrite Nat2Z.id.
  unfold malloc. rewrite Nat2Z.id.
  rewrite store_some by (rewrite repeat_length; unfold R; lia). cbn [bind].
  change (Z.to_nat 0) with 0%nat.
  pose (Inv := fun (i : Z) (d : buffer) =>
                 exists z W,
                   d = Some z /\ length z = R /\ S (length W) = Z.to_nat i
                   /\ firstn (Z.to_nat i) z = W ++ [nth (Z.to_nat (i - 1)) A 0 / 16]
                   /\ forallb valid_pair W = true
                   /\ 10 * magnitude W
                      + 10 * 100 ^ (i - 1) * (nth (Z.to_nat (i - 1)) A 0 / 16)
                      + nth 0 A 0 mod 16
                      = magnitude (firstn (Z.to_nat i) A)).
  pose proof (Hbyte K ltac:(lia)) as Ha0.
  replace (nth K dx 0) with (nth 0 A 0) in * by (rewrite HA; f_equal; lia).
  set (a0 := nth 0 A 0) in *.
  destruct (high_digit_spec a0 Ha0) as (_ & _ & Hsh0 & _).
  destruct (valid_pair_facts a0 Ha0) as (_ & _ & Hpv0 & Hlo0 & _).
  rewrite Hsh0.
  run_for_up Inv.
  { exists (list_set (repeat 0 R) 0 (a0 / 16)), [].
    split; [reflexivity |].
    split; [now rewrite length_list_set, repeat_length |].
    split; [reflexivity |].
    change (Z.to_nat 1) with 1%nat. change (Z.to_nat (1 - 1)) with 0%nat.
    fold a0.
    split.
    { rewrite firstn_list_set_snoc by (rewrite repeat_length; unfold R; lia).
      reflexivity. }
    split; [reflexivity |].
    destruct A as [| h t]; [cbn in HAl; lia |].
    cbn [firstn magnitude nth] in *. subst a0. cbn [nth] in *.
    rewrite Hpv0. change (100 ^ (1 - 1)) with 1. lia. }
  { intros i d Hi (z & W & -> & Hzl & HW & Hpre & HWv & Hmag).
    rewrite Z2Nat.id in Hi by lia.
    set (I := Z.to_nat (i - 1)) in *.
    assert (HI1 : Z.to_nat i = S I) by (unfold I; lia).
    rewrite HI1 in HW, Hpre, Hmag. injection HW as HW.
    destruct (firstn_snoc_inv z W _ I HW Hpre) as (HpreW & Hnth).
    rewrite (load_nth_Z dx (i + Z.of_nat K)) by lia. cbn [bind].
    replace (Z.to_nat (i + Z.of_nat K)) with (K + S I)%nat by lia.
    rewrite <- HA.
    set (ai := nth (S I) A 0).
    set (ap := nth I A 0) in *.
    assert (Hai : valid_pair ai = true).
    { unfold ai. rewrite HA. apply Hbyte. lia. }
    assert (Hap : valid_pair ap = true).
    { unfold ap. rewrite HA. apply Hbyte. lia. }
    rewrite or_store_some by lia. cbn [bind].
    fold I. rewrite Hnth.
    rewrite store_some by (rewrite length_list_set; lia). cbn [bind].
    rewrite HI1.
    destruct (nibble_merge_spec ai ap Hai Hap) as (V1 & V2 & V3).
    destruct (high_digit_spec ap Hap) as (_ & _ & Hshp & _).
    destruct (high_digit_spec ai Hai) as (_ & _ & Hshi & _).
    rewrite <- Hshp, V3, Hshi.
    set (v := u8 (Z.lor (u8 (Z.shiftl ai 4)) (Z.shiftr ap 4))) in *.
    eexists. split; [reflexivity |].
    exists (list_set (list_set z I v) (S I) (ai / 16)), (W ++ [v]).
    split; [reflexivity |].
    split; [now rewrite !length_list_set |].
    split; [rewrite length_app, HW; cbn [length]; lia |].
    replace (Z.to_nat (i + 1)) with (S (S I)) by lia.
    replace (Z.to_nat (i + 1 - 1)) with (S I) by lia. fold ai.
    split.
    { rewrite firstn_list_set_snoc by (rewrite length_list_set; lia).
      rewrite firstn_list_set_snoc by lia. now rewrite HpreW. }
    split; [rewrite forallb_app, HWv; cbn [forallb]; now rewrite V1 |].
    rewrite magnitude_app, HW.
    replace (S (S I)) with (Z.to_nat (Z.of_nat (S I) + 1)) by lia.
    rewrite magnitude_firstn_succ by lia.
    rewrite Nat2Z.id. fold ai. rewrite <- Hmag.
    destruct (valid_pair_facts ai Hai) as (_ & _ & Hpv & _).
    rewrite V2, Hpv.
    replace (i + 1 - 1) with (Z.of_nat I + 1) by lia.
    replace (i - 1) with (Z.of_nat I) by lia.
    rewrite Nat2Z.inj_succ, <- Z.add_1_r, Z.pow_add_r by lia.
    change (100 ^ 1) with 100. ring. }
  destruct HI as (z & W & -> & Hzl & HW & Hpre & HWv & Hmag).
  cbn [bind].
  replace (1 + Z.of_nat (Z.to_nat (Z.of_nat R - 1))) with (Z.of_nat R) in * by lia.
  rewrite Nat2Z.id in *.
  replace (Z.to_nat (Z.of_nat R - 1)) with (R - 1)%nat in * by lia.
  rewrite (load_nth_Z z 0) by lia. cbn [bind].
  assert (Htopeq : nth (R - 1) A 0 = top).
  { rewrite HA. unfold top. f_equal. unfold R. lia. }
  rewrite Htopeq in *.
  pose proof (Hbyte (n - 1)%nat ltac:(lia)) as Htopv. fold top in Htopv.
  destruct (high_digit_spec top Htopv) as (T1 & _ & _ & T4 & T5 & T6 & _).
  set (t := top / 16) in *.
  assert (Hnzt : t <> 0).
  { rewrite Hhi in T6. unfold nonzero in T6. symmetry in T6.
    now apply negb_true_iff, Z.eqb_neq in T6. }
  assert (Hzall : firstn R z = z) by (rewrite <- Hzl; apply firstn_all).
  rewrite Hzall in Hpre.
  destruct (canonical_intro z R (decimal_digits a - tens) false
              (nth (Z.to_nat 0) z 0 mod 2 =? 0)) as (Hcr & Hdr).
  - lia.
  - rewrite Hzall, Hpre, forallb_app, HWv. cbn [forallb]. now rewrite T1.
  - rewrite Hpre, app_nth2 by lia.
    replace (R - 1 - length W)%nat with 0%nat by lia. exact Hnzt.
  - rewrite Hpre, app_nth2 by lia.
    replace (R - 1 - length W)%nat with 0%nat by lia. cbn [nth].
    rewrite T5. cbn [nonzero Z.eqb negb]. rewrite Hdd, HK. unfold R. lia.
  - eexists. split; [reflexivity |].
    split; [exact Hcr |].
    split; [| split; reflexivity].
    rewrite Hdr, Hzall, Hdig.
    assert (Hsplit : firstn n dx = firstn K dx ++ firstn R A).
    { unfold A, R. replace n with (K + (n - K))%nat at 1 by lia. apply firstn_plus. }
    rewrite Hsplit, magnitude_app_list, <- Hmag.
    rewrite length_firstn, Nat.min_l by lia.
    rewrite Hsplit, forallb_app in Hv.
    apply andb_true_iff in Hv. destruct Hv as [Hv1 _].
    pose proof (magnitude_range _ Hv1) as R1.
    rewrite length_firstn, Nat.min_l in R1 by lia.
    rewrite Hpre at 1. rewrite magnitude_app, T4.
    replace (Z.of_nat (length W)) with (Z.of_nat R - 1) by lia.
    set (MW := magnitude W) in *. set (P := 100 ^ (Z.of_nat R - 1)) in *.
    set (M0 := magnitude (firstn K dx)) in *.
    rewrite HK, Z.pow_add_r, pow_10_even by lia. change (10 ^ 1) with 10.
    assert (HP : 0 < 100 ^ Z.of_nat K) by (apply Z.pow_pos_nonneg; lia).
    pose proof (Z.mod_pos_bound a0 16 ltac:(lia)) as Hm16.
    apply Z.div_unique with (r := M0 + 100 ^ Z.of_nat K * (a0 mod 16)).
    + left. nia.
    + ring.
Qed.

(** A right shift by an odd number of digits of a value with an odd
    number of digits reads the byte after the counted ones. *)
Lemma div_bcd_pow_10_odd_odd_past_end :
  forall a tens,
    canonical a = true -> Z.odd (decimal_digits a) = true ->
    0 < tens < decimal_digits a -> Z.odd tens = true ->
    buf_len (data a) (bcd_digits a) ->
    div_bcd_pow_10 a tens
    = Fault (OutOfBounds Read (bcd_digits a) (bcd_digits a)).
Proof.
  intros a tens Hc Hod Ht Hodd Hbuf.
  destruct (canonical_elim a Hc) as (Hn & Hb0 & _).
  destruct (canonical_magnitude a Hc) as (Hbd & _).
  pose proof (buf_len_readable _ _ Hbuf) as Hrd.
  apply Z.odd_spec in Hod. destruct Hod as (m & Hm).
  apply Z.odd_spec in Hodd. destruct Hodd as (k & Hk).
  assert (Hbn : bcd_digits a = m + 1).
  { rewrite Hbd, Hm. replace (2 * m + 1 + 1) with ((m + 1) * 2) by lia.
    apply Z.div_mul. lia. }
  assert (E1 : (decimal_digits a - tens + 1) / 2 = m - k).
  { rewrite Hm, Hk. replace (2 * m + 1 - (2 * k + 1) + 1) with (1 + (m - k) * 2) by lia.
    rewrite Z.div_add by lia. reflexivity. }
  assert (E2 : nonzero (decimal_digits a mod 2) = true).
  { rewrite Hm. replace (2 * m + 1) with (1 + m * 2) by lia.
    rewrite Z.mod_add by lia. reflexivity. }
  assert (E3 : (tens mod 2 =? 0) = false).
  { apply Z.eqb_neq. rewrite Hk. replace (2 * k + 1) with (1 + k * 2) by lia.
    rewrite Z.mod_add by lia. discriminate. }
  assert (E4 : (tens =? 0) = false) by (apply Z.eqb_neq; lia).
  assert (E5 : (tens >=? decimal_digits a) = false).
  { rewrite Z.geb_leb. apply Z.leb_gt. lia. }
  unfold div_bcd_pow_10. rewrite Hn, E4, E5, E3, E1, E2.
  replace (bcd_digits a - (m - k)) with (k + 1) by lia.
  assert (Hmal : buf_len (malloc (m - k)) (m - k)) by (apply buf_len_malloc; lia).
  destruct (load_readable _ _ (k + 1) Hrd ltac:(lia)) as (a0 & ->). cbn [bind].
  destruct (store_buf_len _ _ 0 (Z.shiftr a0 4) Hmal ltac:(lia)) as (d1 & -> & Hd1).
  cbn [bind].
  run_for_up (fun (_ : Z) (d : buffer) => buf_len d (m - k)).
  { exact Hd1. }
  { intros j d Hj Hd.
    destruct (load_readable _ _ (j + (k + 1)) Hrd ltac:(lia)) as (aj & ->).
    cbn [bind].
    destruct (or_store_buf_len d (m - k) (j - 1) (Z.shiftl aj 4) Hd ltac:(lia))
      as (d' & -> & Hd'). cbn [bind].
    now apply store_buf_len; [| lia]. }
  replace (m - k + (k + 1)) with (bcd_digits a) by lia.
  destruct Hbuf as (l & Hl & Hll). rewrite Hl. unfold load.
  rewrite in_range_false by lia. cbn [bind]. now rewrite Hll.
Qed.

(** X29: multiplying a canonical nonzero value with an even number of
    decimal digits by an odd power of ten (either name) succeeds when the
    digit count of the result and its successor are [size_t] values (no
    wrap-around); the result is canonical and denotes [x * 10^tens]. *)
Theorem mul_bcd_pow_10_odd_value (x : BCD_int) (tens : Z)
  (Hc : canonical x = true) (Hz : zero x = false)
  (Hev : Z.even (decimal_digits x) = true)
  (Ht : 0 < tens) (Hodd : Z.odd tens = true)
  (Hfit : decimal_digits x + tens < 2 ^ 64 - 1) :
  exists r,
    mul_bcd_pow_10 x tens = Ok r
    /\ shift_bcd_left x tens = Ok r
    /\ canonical r = true
    /\ value r = value x * 10 ^ tens
    /\ decimal_digits r = decimal_digits x + tens.
Proof.
  destruct (mul_bcd_pow_10_odd_exact x tens Hc Hz Hev Ht Hodd Hfit)
    as (r & Hr & Hcr & Hm & Hs & Hzr & Hdr).
  exists r. unfold shift_bcd_left. repeat split; auto.
  apply value_of_magnitude; auto. congruence.
Qed.

Lemma mul_bcd_pow_10_odd_value_witness :
  exists r,
    mul_bcd_pow_10 (new_BCD_int1 (-1234)) 3 = Ok r
    /\ canonical r = true /\ value r = -1234 * 10 ^ 3.
Proof.
  destruct (mul_bcd_pow_10_odd_value (new_BCD_int1 (-1234)) 3 eq_refl eq_refl
              eq_refl ltac:(lia) eq_refl eq_refl) as (r & Hr & _ & Hc & Hv & _).
  exists r. repeat split; assumption.
Defined.

(** X30: dividing a canonical value by an odd power of ten smaller than
    its digit count (either name): when the value has an even number of
    decimal digits the result is canonical and non-negative and denotes
    the magnitude divided by [10^tens], rounded down; when it has an odd
    number of digits the function reads the byte after the counted ones,
    which lies past the end of a buffer of exactly [bcd_digits] bytes. *)
Theorem div_bcd_pow_10_odd_cases (a : BCD_int) (tens : Z)
  (Hc : canonical a = true)
  (Ht : 0 < tens < decimal_digits a) (Hodd : Z.odd tens = true) :
  (Z.even (decimal_digits a) = true ->
   exists r,
     div_bcd_pow_10 a tens = Ok r
     /\ shift_bcd_right a tens = Ok r
     /\ canonical r = true
     /\ value r = Z.abs (value a) / 10 ^ tens
     /\ negative r = false)
  /\ (Z.odd (decimal_digits a) = true ->
      buf_len (data a) (bcd_digits a) ->
      div_bcd_pow_10 a tens
      = Fault (OutOfBounds Read (bcd_digits a) (bcd_digits a))).
Proof.
  split.
  - intro Hev.
    destruct (div_bcd_pow_10_odd_exact a tens Hc Hev Ht Hodd)
      as (r & Hr & Hcr & Hm & Hs & _).
    exists r. unfold shift_bcd_right. repeat split; auto.
    unfold value at 1. rewrite Hs, Hm. now rewrite value_magnitude_abs.
  - intros Hod Hbuf. now apply div_bcd_pow_10_odd_odd_past_end.
Qed.

Lemma div_bcd_pow_10_odd_cases_witness :
  (exists r,
      div_bcd_pow_10 (new_BCD_int1 (-123456)) 3 = Ok r
      /\ canonical r = true /\ value r = 123)
  /\ div_bcd_pow_10 (new_BCD_int1 12345) 1 = Fault (OutOfBounds Read 3 3).
Proof.
  assert (H1 : 0 < 3 < decimal_digits (new_BCD_int1 (-123456)))
    by (vm_compute; split; reflexivity).
  assert (H2 : 0 < 1 < decimal_digits (new_BCD_int1 12345))
    by (vm_compute; split; reflexivity).
  split.
  - destruct (proj1 (div_bcd_pow_10_odd_cases (new_BCD_int1 (-123456)) 3
                       eq_refl H1 eq_refl) eq_refl) as (r & Hr & _ & Hc & Hv & _).
    exists r. repeat split; assumption.
  - apply (proj2 (div_bcd_pow_10_odd_cases (new_BCD_int1 12345) 1
                    eq_refl H2 eq_refl) eq_refl).
    eexists. split; reflexivity.
Defined.
